(** * Pocket Drums: a shallow embedding of [src/app.js]

    The engine of the drum pad (metronome scheduler, trigger path with the
    hi-hat choke, recorder, latency setting, soft-clip table and the
    synthesised kit, then the pads with their press and keyboard
    handlers, the master level, the elapsed-time display and the
    download) is embedded function by function, with the names of the
    source.

    Conventions of the embedding.
    - The global object [state] of the source is split into the fields each
      component reads or writes; every field keeps its source name.
    - [ctx.currentTime] and [Date.now()] are inputs of the handlers: a
      handler reads the clock when it is entered, and the value read is an
      argument ([now]) of its embedding.  The clock is taken to be constant
      while one callback runs.
    - [setTimeout] appends a pending timer to the component's timer list;
      the environment fires timers by events that carry the clock reading.
    - Numbers of the scheduler are exact rationals ([Q]) extended with the
      non-finite values the code can produce ([Infinity], [NaN]); sample
      values and gain curves, which go through [Math.exp], [Math.sin] and
      [Math.tanh], are real numbers ([R]).  Rounding of IEEE doubles and of
      [Float32Array] stores is not part of the embedding. *)

From Stdlib Require Import ZArith QArith Qround Qabs Lia Lqa Lra List Bool.
From Stdlib Require Import String Ascii DecimalString DecimalZ DecimalPos DecimalN.
From Stdlib Require Import Reals Qreals Machin.
From stdpp Require Import gmap strings.
Import ListNotations.

(** ** JavaScript numbers that come out of [parseInt] *)

(** [parseInt(s, 10)] is an integer or [NaN]. *)
Inductive jsint : Type :=
| JInt (z : Z)
| JNaN.

(** [x || 0] on such a number: [NaN] and [0] are falsy. *)
Definition or_zero (x : jsint) : Z :=
  match x with
  | JInt z => z
  | JNaN => 0%Z
  end.

(** [a < b] on rationals, as a boolean. *)
Definition Qltb (a b : Q) : bool := negb (Qle_bool b a).

(** ** Metronome (lines 256-259 and 332-366 of the source) *)

Module Metronome.
Local Open Scope Q_scope.

(** An audio-clock value held in [state.nextTick]: finite, [Infinity]
    (after [60 / 0]) or [NaN] (after [60 / NaN]). *)
Inductive Time : Type :=
| Fin (t : Q)
| PlusInfinity
| NaNTime.

(** [60.0 / state.bpm]. *)
Definition secondsPerBeat (bpm : jsint) : Time :=
  match bpm with
  | JInt 0 => PlusInfinity
  | JInt b => Fin (60 / inject_Z b)
  | JNaN => NaNTime
  end.

(** [a + b] for a finite [a] or one that has already left the finite
    range; [b] is a value of [secondsPerBeat], never [-Infinity]. *)
Definition time_add (a b : Time) : Time :=
  match a, b with
  | NaNTime, _ | _, NaNTime => NaNTime
  | PlusInfinity, _ | _, PlusInfinity => PlusInfinity
  | Fin x, Fin y => Fin (x + y)
  end.

(** Automation calls on the gain of one click. *)
Inductive Automation : Type :=
| setValueAtTime (v t : Q)
| linearRampToValueAtTime (v t : Q)
| exponentialRampToValueAtTime (v t : Q).

(** One click queued on the audio clock by [scheduleClick]: an oscillator
    with its start and stop times and the envelope of its gain. *)
Record Click : Type := mkClick {
  frequency : Q;
  envelope : list Automation;
  start : Q;
  stop : Q
}.

(** Pending [setTimeout] callbacks of this component. *)
Inductive Timer : Type :=
| RunSchedulerTimer (delay : Q)
| PulseOnTimer (delay : Q)
| PulseOffTimer (delay : Q).

Record State : Type := mkState {
  ctx : bool;                (* [state.ctx] has been created *)
  lookahead : Q;             (* ms *)
  scheduleAheadTime : Q;     (* s *)
  nextTick : Time;
  isMetronomeOn : bool;
  bpm : jsint;
  latencyMs : jsint;
  scheduled : list Click;    (* clicks queued on the audio clock, oldest first *)
  timers : list Timer;       (* pending timeouts, oldest first *)
  pulseOn : bool             (* class [on] of the element [#pulse] *)
}.

(** The initial value of the fields in the literal [state]. *)
Definition initial (latency : jsint) : State :=
  {| ctx := false; lookahead := 25; scheduleAheadTime := 3 # 25;
     nextTick := Fin 0; isMetronomeOn := false; bpm := JInt 120;
     latencyMs := latency; scheduled := []; timers := []; pulseOn := false |}.

Definition set_nextTick (t : Time) (s : State) : State :=
  {| ctx := ctx s; lookahead := lookahead s;
     scheduleAheadTime := scheduleAheadTime s; nextTick := t;
     isMetronomeOn := isMetronomeOn s; bpm := bpm s;
     latencyMs := latencyMs s; scheduled := scheduled s;
     timers := timers s; pulseOn := pulseOn s |}.

Definition set_bpm (b : jsint) (s : State) : State :=
  {| ctx := ctx s; lookahead := lookahead s;
     scheduleAheadTime := scheduleAheadTime s; nextTick := nextTick s;
     isMetronomeOn := isMetronomeOn s; bpm := b;
     latencyMs := latencyMs s; scheduled := scheduled s;
     timers := timers s; pulseOn := pulseOn s |}.

Definition set_isMetronomeOn (b : bool) (s : State) : State :=
  {| ctx := ctx s; lookahead := lookahead s;
     scheduleAheadTime := scheduleAheadTime s; nextTick := nextTick s;
     isMetronomeOn := b; bpm := bpm s;
     latencyMs := latencyMs s; scheduled := scheduled s;
     timers := timers s; pulseOn := pulseOn s |}.

Definition set_ctx (b : bool) (s : State) : State :=
  {| ctx := b; lookahead := lookahead s;
     scheduleAheadTime := scheduleAheadTime s; nextTick := nextTick s;
     isMetronomeOn := isMetronomeOn s; bpm := bpm s;
     latencyMs := latencyMs s; scheduled := scheduled s;
     timers := timers s; pulseOn := pulseOn s |}.

Definition set_timers (l : list Timer) (s : State) : State :=
  {| ctx := ctx s; lookahead := lookahead s;
     scheduleAheadTime := scheduleAheadTime s; nextTick := nextTick s;
     isMetronomeOn := isMetronomeOn s; bpm := bpm s;
     latencyMs := latencyMs s; scheduled := scheduled s;
     timers := l; pulseOn := pulseOn s |}.

Definition set_pulseOn (b : bool) (s : State) : State :=
  {| ctx := ctx s; lookahead := lookahead s;
     scheduleAheadTime := scheduleAheadTime s; nextTick := nextTick s;
     isMetronomeOn := isMetronomeOn s; bpm := bpm s;
     latencyMs := latencyMs s; scheduled := scheduled s;
     timers := timers s; pulseOn := b |}.

Definition add_click (c : Click) (s : State) : State :=
  {| ctx := ctx s; lookahead := lookahead s;
     scheduleAheadTime := scheduleAheadTime s; nextTick := nextTick s;
     isMetronomeOn := isMetronomeOn s; bpm := bpm s;
     latencyMs := latencyMs s; scheduled := scheduled s ++ [c];
     timers := timers s; pulseOn := pulseOn s |}.

(** [setTimeout(f, delay)]. *)
Definition setTimeout (t : Timer) (s : State) : State :=
  set_timers (timers s ++ [t]) s.

(** The oscillator and gain envelope built by [scheduleClick(when)]. *)
Definition click_at (when : Q) : Click :=
  {| frequency := 880;
     envelope := [ setValueAtTime 0 when;
                   linearRampToValueAtTime (8 # 10) (when + (1 # 1000));
                   exponentialRampToValueAtTime (1 # 10000) (when + (3 # 100)) ];
     start := when;
     stop := when + (5 # 100) |}.

(** [Math.max(0, (when - currentTime + lag) * 1000)], the delay of the
    visual pulse; a [NaN] delay is a delay of 0 for [setTimeout]. *)
Definition pulse_delay (when now : Q) (latency : jsint) : Q :=
  match latency with
  | JInt l =>
      let d := (when - now + inject_Z l / 1000) * 1000 in
      if Qle_bool 0 d then d else 0
  | JNaN => 0
  end.

(** [scheduleClick(when)].  The audio clock never reads below 0, so with a
    positive tempo [when] is never negative; for a negative [when] the
    source throws at [setValueAtTime], which is outside the embedding. *)
Definition scheduleClick (when now : Q) (s : State) : State :=
  setTimeout (PulseOnTimer (pulse_delay when now (latencyMs s)))
             (add_click (click_at when) s).

(** The [while] loop of [runScheduler]; [None] when the fuel runs out
    before the guard fails. *)
Fixpoint schedule_loop (fuel : nat) (now : Q) (spb : Time) (s : State)
  : option State :=
  match nextTick s with
  | Fin t =>
      if Qltb t (now + scheduleAheadTime s) then
        match fuel with
        | O => None
        | S fuel' =>
            schedule_loop fuel' now spb
              (set_nextTick (time_add (Fin t) spb) (scheduleClick t now s))
        end
      else Some s
  | PlusInfinity | NaNTime => Some s
  end.

Definition runScheduler (fuel : nat) (now : Q) (s : State) : option State :=
  if negb (isMetronomeOn s) then Some s
  else
    match schedule_loop fuel now (secondsPerBeat (bpm s)) s with
    | Some s' => Some (setTimeout (RunSchedulerTimer (lookahead s')) s')
    | None => None
    end.

(** Click handler of [metroBtn]; [initAudio] creates [state.ctx]
    synchronously when it is missing. *)
Definition metroBtn_click (fuel : nat) (now : Q) (s : State) : option State :=
  let s1 := if ctx s then s else set_ctx true s in
  let s2 := set_isMetronomeOn (negb (isMetronomeOn s1)) s1 in
  if isMetronomeOn s2 then
    runScheduler fuel now (set_nextTick (Fin (now + (5 # 100))) s2)
  else Some s2.

(** Input handler of [tempoEl]; [value] is [parseInt(tempoEl.value, 10)]. *)
Definition tempo_input (value : jsint) (s : State) : State :=
  set_bpm value s.

Definition is_RunSchedulerTimer (t : Timer) : bool :=
  match t with RunSchedulerTimer _ => true | _ => false end.
Definition is_PulseOnTimer (t : Timer) : bool :=
  match t with PulseOnTimer _ => true | _ => false end.
Definition is_PulseOffTimer (t : Timer) : bool :=
  match t with PulseOffTimer _ => true | _ => false end.

(** Removes the oldest pending timer of a kind; [None] when there is
    none. *)
Fixpoint take_timer (p : Timer -> bool) (l : list Timer)
  : option (list Timer) :=
  match l with
  | [] => None
  | t :: r =>
      if p t then Some r
      else match take_timer p r with
           | Some r' => Some (t :: r')
           | None => None
           end
  end.

(** What the environment does to the metronome. *)
Inductive Event : Type :=
| MetroBtnClick (now : Q)
| TempoInput (value : jsint)
| FireRunScheduler (now : Q)     (* a pending [runScheduler] timeout fires *)
| FirePulseOn
| FirePulseOff.

(** One event; an event whose timer is not pending cannot happen and
    leaves the state as it is. *)
Definition step (fuel : nat) (e : Event) (s : State) : option State :=
  match e with
  | MetroBtnClick now => metroBtn_click fuel now s
  | TempoInput v => Some (tempo_input v s)
  | FireRunScheduler now =>
      match take_timer is_RunSchedulerTimer (timers s) with
      | Some l => runScheduler fuel now (set_timers l s)
      | None => Some s
      end
  | FirePulseOn =>
      match take_timer is_PulseOnTimer (timers s) with
      | Some l => Some (setTimeout (PulseOffTimer 60)
                          (set_pulseOn true (set_timers l s)))
      | None => Some s
      end
  | FirePulseOff =>
      match take_timer is_PulseOffTimer (timers s) with
      | Some l => Some (set_pulseOn false (set_timers l s))
      | None => Some s
      end
  end.

Fixpoint run (fuel : nat) (es : list Event) (s : State) : option State :=
  match es with
  | [] => Some s
  | e :: r =>
      match step fuel e s with
      | Some s' => run fuel r s'
      | None => None
      end
  end.

(** The audio-clock times of the clicks queued so far. *)
Definition click_times (s : State) : list Q := List.map start (scheduled s).

(** [n] beats from [t]: [t], [t + d], [(t + d) + d], ... *)
Fixpoint beats (t d : Q) (n : nat) : list Q :=
  match n with
  | O => []
  | S n' => t :: beats (t + d) d n'
  end.

(** The time of beat number [n] from [t]. *)
Fixpoint beat (t d : Q) (n : nat) : Q :=
  match n with
  | O => t
  | S n' => beat (t + d) d n'
  end.

Definition pending_schedulers (s : State) : nat :=
  List.length (List.filter is_RunSchedulerTimer (timers s)).

(** [n] rounds of the loop body from a state whose next tick is [t]. *)
Fixpoint rounds (now d : Q) (n : nat) (t : Q) (s : State) : State :=
  match n with
  | O => s
  | S n' =>
      rounds now d n' (t + d)
        (set_nextTick (Fin (t + d)) (scheduleClick t now s))
  end.

(** The clock readings of the scheduler wakes in a list of events. *)
Fixpoint wakes (es : list Event) : list Q :=
  match es with
  | [] => []
  | FireRunScheduler now :: r => now :: wakes r
  | _ :: r => wakes r
  end.

Definition is_timer_event (e : Event) : bool :=
  match e with
  | FireRunScheduler _ | FirePulseOn | FirePulseOff => true
  | MetroBtnClick _ | TempoInput _ => false
  end.

Definition is_metro_click (e : Event) : bool :=
  match e with MetroBtnClick _ => true | _ => false end.

(** Events that leave the tempo positive: a timer that fires, or an input
    in the tempo field that parses to a positive integer. *)
Definition is_steady (e : Event) : bool :=
  match e with
  | MetroBtnClick _ => false
  | TempoInput (JInt b) => Z.ltb 0 b
  | TempoInput JNaN => false
  | FireRunScheduler _ | FirePulseOn | FirePulseOff => true
  end.

(** The state of a metronome that was started with next tick [T], runs at
    [b] beats per minute and has woken at the clock readings [W]: its
    clicks are the beats from [T], exactly those that some wake saw inside
    its window. *)
Definition on_grid (b : Z) (T : Q) (before : list Click) (W : list Q)
  (s : State) : Prop :=
  isMetronomeOn s = true /\ bpm s = JInt b
  /\ scheduleAheadTime s = 3 # 25
  /\ (1 <= pending_schedulers s)%nat
  /\ exists n : nat,
       nextTick s = Fin (beat T (60 / inject_Z b) n)
       /\ scheduled s
          = before ++ List.map click_at (beats T (60 / inject_Z b) n)
       /\ (forall w, In w W ->
             w + (3 # 25) <= beat T (60 / inject_Z b) n)
       /\ (forall k, (k < n)%nat ->
             exists w, In w W
                       /\ beat T (60 / inject_Z b) k < w + (3 # 25)).

End Metronome.

(** ** Latency setting (lines 25 and 323-330 of the source) *)

Module Settings.
Local Open Scope Z_scope.
Local Open Scope string_scope.

(** White space that [parseInt] skips at the start of its argument
    (the ASCII part of it: tab, line feed, vertical tab, form feed,
    carriage return, space). *)
Definition is_white_space (c : ascii) : bool :=
  let n := nat_of_ascii c in
  ((9 <=? n) && (n <=? 13))%nat || (n =? 32)%nat.

Fixpoint trim_start (s : string) : string :=
  match s with
  | String c r => if is_white_space c then trim_start r else s
  | EmptyString => s
  end.

Definition digit_value (c : ascii) : option Z :=
  let n := nat_of_ascii c in
  if ((48 <=? n) && (n <=? 57))%nat then Some (Z.of_nat n - 48) else None.

(** The longest prefix of decimal digits, read from the left; [acc] is
    [None] as long as no digit was seen. *)
Fixpoint digits (s : string) (acc : option Z) : option Z :=
  match s with
  | String c r =>
      match digit_value c with
      | Some d => digits r (Some (10 * default 0 acc + d))
      | None => acc
      end
  | EmptyString => acc
  end.

(** [parseInt(s, 10)]: leading white space, an optional sign, then
    digits; [NaN] when no digit follows.  Integers are exact here; the
    source has doubles, which agree up to 2^53. *)
Definition parseInt (s : string) : jsint :=
  let s1 := trim_start s in
  let '(sign, s2) :=
    match s1 with
    | String "-" r => (-1, r)
    | String "+" r => (1, r)
    | _ => (1, s1)
    end in
  match digits s2 None with
  | Some n => JInt (sign * n)
  | None => JNaN
  end.

(** [String(n)] for an integer [n]: decimal digits, with a minus sign
    for negative numbers (this is what JavaScript prints below 10^21). *)
Definition String_ (n : Z) : string :=
  DecimalString.NilZero.string_of_int (Z.to_int n).

(** [v || '0'] for the result of [localStorage.getItem]: [null] and the
    empty string are falsy. *)
Definition or_string_zero (v : option string) : string :=
  match v with
  | Some s => if String.eqb s "" then "0" else s
  | None => "0"
  end.

Record State : Type := mkState {
  latencyMs : jsint;
  localStorage : gmap string string
}.

(** Line 25: the value of [state.latencyMs] when the page loads. *)
Definition load (store : gmap string string) : State :=
  {| latencyMs := parseInt (or_string_zero (store !! "latencyMs"));
     localStorage := store |}.

(** Click handler of [saveLatencyBtn]; [value] is [latencyEl.value]. *)
Definition saveLatency_click (value : string) (s : State) : State :=
  let l := or_zero (parseInt value) in
  {| latencyMs := JInt l;
     localStorage := <["latencyMs" := String_ l]> (localStorage s) |}.

(** The value of a decimal numeral read digit by digit from [acc]. *)
Fixpoint uint_value (acc : Z) (d : Decimal.uint) : Z :=
  match d with
  | Decimal.Nil => acc
  | Decimal.D0 l => uint_value (10 * acc + 0) l
  | Decimal.D1 l => uint_value (10 * acc + 1) l
  | Decimal.D2 l => uint_value (10 * acc + 2) l
  | Decimal.D3 l => uint_value (10 * acc + 3) l
  | Decimal.D4 l => uint_value (10 * acc + 4) l
  | Decimal.D5 l => uint_value (10 * acc + 5) l
  | Decimal.D6 l => uint_value (10 * acc + 6) l
  | Decimal.D7 l => uint_value (10 * acc + 7) l
  | Decimal.D8 l => uint_value (10 * acc + 8) l
  | Decimal.D9 l => uint_value (10 * acc + 9) l
  end.

End Settings.

(** ** Results of handlers that can throw *)

Inductive JsError : Type :=
| TypeError
| RangeError.

(** A handler returns with the new state, or throws with the state it
    had reached. *)
Inductive Completion (A : Type) : Type :=
| Normal (a : A)
| Throw (e : JsError) (a : A).
Arguments Normal {A} a.
Arguments Throw {A} e a.

(** ** Recorder (lines 368-420 of the source) *)

Module Recorder.
Local Open Scope Z_scope.
Local Open Scope string_scope.

(** A chunk or a finished recording. *)
Record Blob : Type := mkBlob {
  size : Z;
  type : string
}.

Inductive RecordingState : Type :=
| inactive
| recording_.

Record MediaRecorder : Type := mkMediaRecorder {
  mimeType : string;
  state : RecordingState
}.

(** A pending [setTimeout(tick, 250)].  [started] is the variable of the
    closure; [due] is the clock reading of the call plus the delay. *)
Record Timer : Type := mkTimer {
  started : Z;
  due : Z
}.

Record State : Type := mkState {
  ctx : bool;                       (* [state.ctx] and [state.recDest] exist *)
  maxRecSec : Z;
  recording : bool;
  recorder : option MediaRecorder;
  chunks : list Blob;
  timers : list Timer;              (* pending [tick] timeouts *)
  stopEvents : nat;                 (* [stop] events queued by recorders *)
  recBtn : string;                  (* text of the button *)
  recTimer : Z;                     (* seconds handed to [fmt] *)
  playback_src : option Blob;
  buttons_disabled : bool           (* play, download and clear *)
}.

Definition initial : State :=
  {| ctx := false; maxRecSec := 60; recording := false; recorder := None;
     chunks := []; timers := []; stopEvents := 0; recBtn := "● Record";
     recTimer := 0; playback_src := None; buttons_disabled := true |}.

Section WithPlatform.

(** [MediaRecorder.isTypeSupported]. *)
Variable isTypeSupported : string -> bool.

Definition preferredMime : string :=
  match List.find isTypeSupported
          ["audio/webm;codecs=opus"; "audio/ogg;codecs=opus";
           "audio/mp4"; "audio/webm"] with
  | Some t => t
  | None => ""
  end.

(** [stopRecording]; [recorder.stop()] makes the recorder inactive and
    queues its [stop] event. *)
Definition stopRecording (s : State) : Completion State :=
  if negb (recording s) then Normal s
  else
    match recorder s with
    | None => Throw TypeError s
    | Some r =>
        Normal
          {| ctx := ctx s; maxRecSec := maxRecSec s; recording := false;
             recorder :=
               Some {| mimeType := mimeType r; state := inactive |};
             chunks := chunks s; timers := timers s;
             stopEvents :=
               match state r with
               | recording_ => S (stopEvents s)
               | inactive => stopEvents s
               end;
             recBtn := "● Record"; recTimer := recTimer s;
             playback_src := playback_src s;
             buttons_disabled := buttons_disabled s |}
    end.

(** The closure [tick] of [startRecording], entered at clock reading
    [now]. *)
Definition tick (started_ now : Z) (s : State) : Completion State :=
  if negb (recording s) then Normal s
  else
    let sec := (now - started_) / 1000 in
    let s1 :=
      {| ctx := ctx s; maxRecSec := maxRecSec s; recording := recording s;
         recorder := recorder s; chunks := chunks s; timers := timers s;
         stopEvents := stopEvents s; recBtn := recBtn s; recTimer := sec;
         playback_src := playback_src s;
         buttons_disabled := buttons_disabled s |} in
    if (maxRecSec s <=? sec)%Z then stopRecording s1
    else
      Normal
        {| ctx := ctx s1; maxRecSec := maxRecSec s1;
           recording := recording s1; recorder := recorder s1;
           chunks := chunks s1;
           timers := timers s1 ++ [ {| started := started_; due := now + 250 |} ];
           stopEvents := stopEvents s1; recBtn := recBtn s1;
           recTimer := recTimer s1; playback_src := playback_src s1;
           buttons_disabled := buttons_disabled s1 |}.

Definition startRecording (now : Z) (s : State) : Completion State :=
  if recording s then Normal s
  else if negb (ctx s) then Throw TypeError s   (* [state.recDest] is [null] *)
  else
    tick now now
      {| ctx := ctx s; maxRecSec := maxRecSec s; recording := true;
         recorder :=
           Some {| mimeType := preferredMime; state := recording_ |};
         chunks := []; timers := timers s; stopEvents := stopEvents s;
         recBtn := "■ Stop"; recTimer := recTimer s;
         playback_src := playback_src s;
         buttons_disabled := buttons_disabled s |}.

(** Click handler of [recBtn]. *)
Definition recBtn_click (now : Z) (s : State) : Completion State :=
  let s1 :=
    {| ctx := true; maxRecSec := maxRecSec s; recording := recording s;
       recorder := recorder s; chunks := chunks s; timers := timers s;
       stopEvents := stopEvents s; recBtn := recBtn s;
       recTimer := recTimer s; playback_src := playback_src s;
       buttons_disabled := buttons_disabled s |} in
  if recording s1 then stopRecording s1 else startRecording now s1.

(** [recorder.ondataavailable]. *)
Definition ondataavailable (data : Blob) (s : State) : State :=
  if (0 <? size data)%Z then
    {| ctx := ctx s; maxRecSec := maxRecSec s; recording := recording s;
       recorder := recorder s; chunks := chunks s ++ [data];
       timers := timers s; stopEvents := stopEvents s; recBtn := recBtn s;
       recTimer := recTimer s; playback_src := playback_src s;
       buttons_disabled := buttons_disabled s |}
  else s.

(** [new Blob(state.chunks, {type: ...})]. *)
Definition Blob_of (parts : list Blob) : Blob :=
  {| size := List.fold_right Z.add 0 (List.map size parts);
     type := match parts with
             | c :: _ => if String.eqb (type c) "" then "audio/webm" else type c
             | [] => "audio/webm"
             end |}.

Definition onRecStop (s : State) : State :=
  {| ctx := ctx s; maxRecSec := maxRecSec s; recording := recording s;
     recorder := recorder s; chunks := chunks s; timers := timers s;
     stopEvents := stopEvents s; recBtn := recBtn s; recTimer := recTimer s;
     playback_src := Some (Blob_of (chunks s));
     buttons_disabled := false |}.

Definition clearRecording (s : State) : State :=
  {| ctx := ctx s; maxRecSec := maxRecSec s; recording := recording s;
     recorder := recorder s; chunks := chunks s; timers := timers s;
     stopEvents := stopEvents s; recBtn := recBtn s; recTimer := 0;
     playback_src := None; buttons_disabled := true |}.

(** What the environment does to the recorder. *)
Inductive Event : Type :=
| RecBtnClick (now : Z)
| FireTick (i : nat) (now : Z)   (* the pending timeout number [i] fires *)
| DataAvailable (data : Blob)    (* a recorder hands over data *)
| RecorderStopped                (* a queued [stop] event is delivered *)
| ClearClick.

Definition remove_nth {A} (i : nat) (l : list A) : list A :=
  List.firstn i l ++ List.skipn (S i) l.

Definition set_timers (l : list Timer) (s : State) : State :=
  {| ctx := ctx s; maxRecSec := maxRecSec s; recording := recording s;
     recorder := recorder s; chunks := chunks s; timers := l;
     stopEvents := stopEvents s; recBtn := recBtn s; recTimer := recTimer s;
     playback_src := playback_src s;
     buttons_disabled := buttons_disabled s |}.

Definition set_stopEvents (n : nat) (s : State) : State :=
  {| ctx := ctx s; maxRecSec := maxRecSec s; recording := recording s;
     recorder := recorder s; chunks := chunks s; timers := timers s;
     stopEvents := n; recBtn := recBtn s; recTimer := recTimer s;
     playback_src := playback_src s;
     buttons_disabled := buttons_disabled s |}.

(** One event; an event that cannot happen (no such timer, no recorder,
    no queued [stop]) leaves the state as it is. *)
Definition step (e : Event) (s : State) : Completion State :=
  match e with
  | RecBtnClick now => recBtn_click now s
  | FireTick i now =>
      match List.nth_error (timers s) i with
      | Some t => tick (started t) now (set_timers (remove_nth i (timers s)) s)
      | None => Normal s
      end
  | DataAvailable data =>
      match recorder s with
      | Some _ => Normal (ondataavailable data s)
      | None => Normal s
      end
  | RecorderStopped =>
      match stopEvents s with
      | S n => Normal (onRecStop (set_stopEvents n s))
      | O => Normal s
      end
  | ClearClick => Normal (clearRecording s)
  end.

Fixpoint run (es : list Event) (s : State) : Completion State :=
  match es with
  | [] => Normal s
  | e :: r =>
      match step e s with
      | Normal s' => run r s'
      | Throw err s' => Throw err s'
      end
  end.

(** The states the recorder can be in. *)
Inductive reachable : State -> Prop :=
| reachable_initial : reachable initial
| reachable_step e s s' :
    reachable s -> step e s = Normal s' -> reachable s'.

Definition is_click (e : Event) : bool :=
  match e with RecBtnClick _ => true | _ => false end.

End WithPlatform.
(** What holds in every state the recorder can reach: the cap is the
    constant of the source, and while the flag is set there is a recorder
    and it is recording. *)
Definition sound (s : State) : Prop :=
  maxRecSec s = 60
  /\ (recording s = true ->
      ctx s = true
      /\ exists r, recorder s = Some r /\ state r = recording_).

(** The poll of the session started at [now0] is pending and due before
    the cap plus one poll interval, as long as the flag is set. *)
Definition polled (now0 : Z) (s : State) : Prop :=
  recording s = true ->
  exists tk, In tk (timers s) /\ started tk = now0
             /\ due tk < now0 + 60 * 1000 + 250.

End Recorder.

(** ** Trigger path and hi-hat choke (lines 59-90, 101-106 and 214-241
    of the source) *)

Module Trigger.
Local Open Scope Q_scope.

Definition PADS : list string :=
  ["kick"; "snare"; "hatC"; "hatO"; "hatP";
   "tom1"; "tom2"; "tom3"; "crash"; "ride"]%string.

(** The names that every object literal answers through
    [Object.prototype]: for these a lookup in a literal ([kit[id]], the
    table of [defaultPadGain]) finds the inherited member. *)
Definition inherited (id : string) : bool :=
  List.existsb (String.eqb id)
    ["constructor"; "toString"; "toLocaleString"; "valueOf";
     "hasOwnProperty"; "isPrototypeOf"; "propertyIsEnumerable";
     "__proto__"; "__defineGetter__"; "__defineSetter__";
     "__lookupGetter__"; "__lookupSetter__"]%string.

(** [defaultPadGain(id)], for the ids of the table and for every id that
    is not [inherited]; the code calls it with the ids of [PADS] only. *)
Definition defaultPadGain (id : string) : Q :=
  if String.eqb id "kick" then 9 # 10
  else if String.eqb id "snare" then 85 # 100
  else if String.eqb id "hatC" then 6 # 10
  else if String.eqb id "hatO" then 6 # 10
  else if String.eqb id "hatP" then 5 # 10
  else if String.eqb id "tom1" then 8 # 10
  else if String.eqb id "tom2" then 8 # 10
  else if String.eqb id "tom3" then 8 # 10
  else if String.eqb id "crash" then 65 # 100
  else if String.eqb id "ride" then 65 # 100
  else 7 # 10.

(** The automation call the code makes on a gain parameter. *)
Inductive ParamEvent : Type :=
| setTargetAtTime (target startTime timeConstant : Q).

Definition event_time (e : ParamEvent) : Q :=
  match e with setTargetAtTime _ t _ => t end.

(** A gain node: the value set through [gain.value] and the automation
    events on its timeline, in time order. *)
Record GainNode : Type := mkGainNode {
  value : Q;
  events : list ParamEvent
}.

(** [gain.cancelScheduledValues(t)] removes the events whose time is at or
    after [t] (Web Audio API). *)
Definition cancelScheduledValues (t : Q) (g : GainNode) : GainNode :=
  {| value := value g;
     events := List.filter (fun e => Qltb (event_time e) t) (events g) |}.

(** A new event goes after the events at or before its time (Web Audio
    API). *)
Fixpoint insert_event (e : ParamEvent) (l : list ParamEvent)
  : list ParamEvent :=
  match l with
  | [] => [e]
  | x :: r =>
      if Qltb (event_time e) (event_time x) then e :: x :: r
      else x :: insert_event e r
  end.

Definition schedule (e : ParamEvent) (g : GainNode) : GainNode :=
  {| value := value g; events := insert_event e (events g) |}.




(** Pending [setTimeout] callbacks of [chokeHiHat]. *)
Inductive Timer : Type :=
| ChokeRestoreTimer (delay : Q).

Section WithBuffers.

(** The buffers of a kit are handed through untouched. *)
Context {AudioBuffer : Type}.

(** A buffer source that was started: its buffer, the velocity on its own
    gain, the pad gain it is connected to and its start time. *)
Record BufferSource : Type := mkBufferSource {
  buffer : AudioBuffer;
  vca : Q;
  destination : string;
  when : Q
}.

Record State : Type := mkState {
  ctx : bool;
  kit : string;
  latencyMs : jsint;
  buffers : gmap string (gmap string AudioBuffer);
  gains : gmap string GainNode;
  playing : list BufferSource;   (* sources started, oldest first *)
  timers : list Timer
}.

Definition initial (latency : jsint) : State :=
  {| ctx := false; kit := "rock"; latencyMs := latency; buffers := ∅;
     gains := ∅; playing := []; timers := [] |}.

Definition set_gains (g : gmap string GainNode) (s : State) : State :=
  {| ctx := ctx s; kit := kit s; latencyMs := latencyMs s;
     buffers := buffers s; gains := g; playing := playing s;
     timers := timers s |}.

Definition set_timers (l : list Timer) (s : State) : State :=
  {| ctx := ctx s; kit := kit s; latencyMs := latencyMs s;
     buffers := buffers s; gains := gains s; playing := playing s;
     timers := l |}.

(** [initAudio] up to its first [await]: the context and one gain per pad
    at its default level. *)
Definition initAudio (s : State) : State :=
  if ctx s then s
  else
    {| ctx := true; kit := kit s; latencyMs := latencyMs s;
       buffers := buffers s;
       gains :=
         List.fold_left
           (fun m id => <[id := {| value := defaultPadGain id; events := [] |}]> m)
           PADS (gains s);
       playing := playing s; timers := timers s |}.

(** [state.buffers[flavor] = await synthKit(ctx, flavor)]: the assignment
    made when [initAudio] resumes. *)
Definition assign_kit (flavor : string) (k : gmap string AudioBuffer)
  (s : State) : State :=
  {| ctx := ctx s; kit := kit s; latencyMs := latencyMs s;
     buffers := <[flavor := k]> (buffers s); gains := gains s;
     playing := playing s; timers := timers s |}.

(** [chokeHiHat()] entered at audio time [now], a reading of
    [ctx.currentTime], which is never negative. *)
Definition chokeHiHat (now : Q) (s : State) : State :=
  match gains s !! "hatO"%string with
  | None => s
  | Some gOpen =>
      let g1 := cancelScheduledValues now gOpen in
      let g2 := schedule (setTargetAtTime (1 # 10000) now (1 # 100)) g1 in
      set_timers (timers s ++ [ChokeRestoreTimer 30])
                 (set_gains (<["hatO"%string := g2]> (gains s)) s)
  end.

(** The callback of the timeout set by [chokeHiHat]. *)
Definition choke_restore (now : Q) (s : State) : State :=
  match gains s !! "hatO"%string with
  | None => s
  | Some gOpen =>
      set_gains
        (<["hatO"%string :=
             schedule (setTargetAtTime (defaultPadGain "hatO") now (5 # 100))
                      gOpen]> (gains s)) s
  end.

(** [playPad(id, velocity)] entered at audio time [now].  A thrown error
    carries the state at the throw.  [src.start(when)] throws a
    [TypeError] for a [when] that is not a number and a [RangeError] for
    a negative one (Web Audio API).  [kit_ !! id] is the lookup among the
    own keys of the kit; for an id that names a member inherited from
    [Object.prototype] the source finds that member, and such ids are
    kept out by hypothesis where a statement ranges over all ids. *)
Definition playPad (id : string) (velocity : Q) (now : Q) (s : State)
  : Completion State :=
  if negb (ctx s) then Normal s
  else
    match buffers s !! kit s with
    | None => Throw TypeError s          (* [kit] is [undefined]: [kit[id]] throws *)
    | Some kit_ =>
        match kit_ !! id with
        | None => Normal s
        | Some buf =>
            let s1 :=
              if String.eqb id "hatC" || String.eqb id "hatP"
              then chokeHiHat now s else s in
            match gains s1 !! id with
            | None => Throw TypeError s1  (* [connect(undefined)] *)
            | Some _ =>
                match latencyMs s1 with
                | JNaN => Throw TypeError s1   (* [start(NaN)] *)
                | JInt l =>
                    if Qltb (now + inject_Z l / 1000) 0
                    then Throw RangeError s1   (* [start] of a negative time *)
                    else
                      Normal
                        {| ctx := ctx s1; kit := kit s1;
                           latencyMs := latencyMs s1; buffers := buffers s1;
                           gains := gains s1;
                           playing :=
                             playing s1
                             ++ [ {| buffer := buf; vca := velocity;
                                     destination := id;
                                     when := now + inject_Z l / 1000 |} ];
                           timers := timers s1 |}
                end
            end
        end
    end.

(** Click handler of [kitBtn]. *)
Definition kitBtn_click (s : State) : State :=
  {| ctx := ctx s;
     kit := if String.eqb (kit s) "rock" then "jazz" else "rock";
     latencyMs := latencyMs s; buffers := buffers s; gains := gains s;
     playing := playing s; timers := timers s |}.

(** A kit that has the buffer [b] for every pad, and the state once
    [initAudio] has run to its end with such kits. *)
Definition kit_of (b : AudioBuffer) : gmap string AudioBuffer :=
  List.fold_left (fun m id => <[id := b]> m) PADS ∅.

Definition ready (b : AudioBuffer) (latency : jsint) : State :=
  assign_kit "jazz" (kit_of b)
    (assign_kit "rock" (kit_of b) (initAudio (initial latency))).

End WithBuffers.
Arguments State : clear implicits.
Arguments BufferSource : clear implicits.

End Trigger.

(** ** Soft-clip table (lines 92-99 of the source) *)

Module SoftClip.
Local Open Scope R_scope.

(** [(i / (n - 1)) * 2 - 1], the input that entry [i] of a table of [n]
    entries stands for. *)
Definition table_input (n i : nat) : R := INR i / INR (n - 1) * 2 - 1.

(** The curve that is sampled. *)
Definition curve (amount x : R) : R :=
  tanh (amount * 2 * x) / tanh (amount * 2).

Definition makeSoftClipCurve (amount : R) : list R :=
  let n := 1024%nat in
  List.map (fun i => curve amount (table_input n i)) (List.seq 0 n).

(** The table installed by [initAudio]. *)
Definition shaper_curve : list R := makeSoftClipCurve (9 / 10).

End SoftClip.

(** ** Synthesis of the kits (lines 108-211 of the source) *)

Module Synth.
Local Open Scope R_scope.

(** A mono buffer: its sample rate and the samples of channel 0. *)
Record AudioBuffer : Type := mkAudioBuffer {
  sampleRate : Z;
  channelData : list R
}.

(** [Math.round(x)] on a rational: the integer nearest to [x], halves
    upwards. *)
Definition Math_round (x : Q) : Z := Qfloor (x + (1 # 2))%Q.

(** [Math.sign]. *)
Definition Math_sign (x : R) : Z :=
  if Rlt_dec 0 x then 1%Z else if Rlt_dec x 0 then (-1)%Z else 0%Z.

(** The time [i / sr] of sample [i]. *)
Definition time_of (sr : Z) (i : nat) : R := INR i / IZR sr.

(** A render loop [for (i = 0; i < data.length; i++) data[i] = ...]:
    [f i prev] is the sample written at [i] when [data[i-1] || 0] is
    [prev]; [n] samples are written from index [i] on. *)
Fixpoint fill (f : nat -> R -> R) (n i : nat) (prev : R) : list R :=
  match n with
  | O => []
  | S n' => let v := f i prev in v :: fill f n' (S i) v
  end.

(** The pass at the end of [renderToBuffer], in place over the data:
    [data[i] = x - prev + 0.995 * (data[i-1] || 0)], where [prev] is the
    sample read at [i - 1] before it was overwritten and [y] the one
    written there. *)
Fixpoint dc_filter (xs : list R) (prev y : R) : list R :=
  match xs with
  | [] => []
  | x :: r =>
      let y' := x - prev + 995 / 1000 * y in
      y' :: dc_filter r x y'
  end.

(** [renderToBuffer(ctx, seconds, renderFn)]; [renderFn len sr] is the
    data after the call [renderFn(data, sr)] on a buffer of [len]
    zeros. *)
Definition renderToBuffer (sr : Z) (seconds : Q)
  (renderFn : nat -> Z -> list R) : AudioBuffer :=
  let len := Z.to_nat (Math_round (seconds * inject_Z sr)) in
  {| sampleRate := sr; channelData := dc_filter (renderFn len sr) 0 0 |}.

Definition is_rock (flavor : string) : bool := String.eqb flavor "rock".

Section WithNoise.

(** [Math.random()]: [rnd i] is the value drawn while sample [i] of the
    buffer is computed (every loop that draws, draws once per sample). *)
Variable rnd : nat -> R.

Definition synthKick (sr : Z) (flavor : string) : AudioBuffer :=
  let dur := 1%Q in
  let punch := if is_rock flavor then 1 else 7 / 10 in
  renderToBuffer sr dur (fun len sr =>
    let f0 := if is_rock flavor then 90 else 70 in
    let f1 := 30 in
    fill (fun i _ =>
            let t := time_of sr i in
            let env := exp (- t * 5) in
            let f := f1 + (f0 - f1) * exp (- t * 30) in
            let click :=
              (if Rlt_dec t (5 / 1000) then 1 - t / (5 / 1000) else 0) * punch in
            9 / 10 * sin (2 * PI * f * t) * env
            + click * (rnd i * 2 - 1) * (2 / 10))
         len 0 0).

Definition synthSnare (sr : Z) (flavor : string) : AudioBuffer :=
  let dur := 1%Q in
  let tone := if is_rock flavor then 210 else 180 in
  let noiseAmt := if is_rock flavor then 75 / 100 else 9 / 10 in
  renderToBuffer sr dur (fun len sr =>
    fill (fun i _ =>
            let t := time_of sr i in
            let env := exp (- t * 8) in
            let toneEnv := exp (- t * 12) in
            let noise := (rnd i * 2 - 1) * env * noiseAmt in
            let body := sin (2 * PI * tone * t) * toneEnv * (8 / 10) in
            noise + body)
         len 0 0).

Inductive HatType : Type := closed | open | pedal.

Definition synthHat (sr : Z) (type : HatType) (flavor : string)
  : AudioBuffer :=
  let dur := match type with
             | open => (16 # 10)%Q
             | pedal => (12 # 100)%Q
             | closed => (25 # 100)%Q
             end in
  let br := if is_rock flavor then 9000 else 7000 in
  renderToBuffer sr dur (fun len sr =>
    let cutoff := br in
    fill (fun i prev =>
            let t := time_of sr i in
            let env := match type with
                       | open => exp (- t * 3)
                       | _ => exp (- t * 35)
                       end in
            let s := Z.lxor
                       (Z.lxor (Math_sign (sin (2 * PI * 215 * t)))
                               (Math_sign (sin (2 * PI * 341 * t))))
                       (Math_sign (sin (2 * PI * 456 * t))) in
            let n := ((if Z.eqb s 0 then -1 else 1) + rnd i * (2 / 10)) * env in
            let alpha := exp (- 2 * PI * cutoff / IZR sr) in
            prev * alpha + (1 - alpha) * n)
         len 0 0).

Definition synthTom (sr : Z) (freq : R) (flavor : string) : AudioBuffer :=
  let dur := (12 # 10)%Q in
  let damp := if is_rock flavor then 6 else 4 in
  renderToBuffer sr dur (fun len sr =>
    fill (fun i _ =>
            let t := time_of sr i in
            let env := exp (- t * damp) in
            let bend := freq * (1 + 15 / 100 * exp (- t * 20)) in
            sin (2 * PI * bend * t) * env * (95 / 100))
         len 0 0).

Inductive CymbalType : Type := crash | ride.

Definition synthCymbal (sr : Z) (type : CymbalType) (flavor : string)
  : AudioBuffer :=
  let dur := match type with ride => (35 # 10)%Q | crash => (28 # 10)%Q end in
  let brightness := if is_rock flavor then 1 else 8 / 10 in
  renderToBuffer sr dur (fun len sr =>
    fill (fun i _ =>
            let t := time_of sr i in
            let env := exp (- t * match type with
                                  | ride => 7 / 10
                                  | crash => 12 / 10
                                  end) in
            let metal :=
              (sin (2 * PI * 211 * t) + sin (2 * PI * 318 * t)
               + sin (2 * PI * 477 * t) + sin (2 * PI * 587 * t)
               + sin (2 * PI * 751 * t)) / 5 in
            let noise := (rnd i * 2 - 1) * (6 / 10) in
            (metal * (7 / 10) + noise * (3 / 10)) * env * brightness)
         len 0 0).

End WithNoise.

(** The voices, by the pad ids of [PADS]. *)
Inductive Voice : Type :=
| kick | snare | hatC | hatO | hatP | tom1 | tom2 | tom3 | crash_ | ride_.

Definition voices : list Voice :=
  [kick; snare; hatC; hatO; hatP; tom1; tom2; tom3; crash_; ride_].

(** The table [make] of [synthKit]. *)
Definition make (rnd : nat -> R) (sr : Z) (flavor : string) (v : Voice)
  : AudioBuffer :=
  match v with
  | kick => synthKick rnd sr flavor
  | snare => synthSnare rnd sr flavor
  | hatC => synthHat rnd sr closed flavor
  | hatO => synthHat rnd sr open flavor
  | hatP => synthHat rnd sr pedal flavor
  | tom1 => synthTom sr 170 flavor
  | tom2 => synthTom sr 130 flavor
  | tom3 => synthTom sr 100 flavor
  | crash_ => synthCymbal rnd sr crash flavor
  | ride_ => synthCymbal rnd sr ride flavor
  end.

Definition pad_id (v : Voice) : string :=
  match v with
  | kick => "kick" | snare => "snare" | hatC => "hatC" | hatO => "hatO"
  | hatP => "hatP" | tom1 => "tom1" | tom2 => "tom2" | tom3 => "tom3"
  | crash_ => "crash" | ride_ => "ride"
  end.

(** [synthKit(ctx, flavor)]; every voice draws its own noise. *)
Definition synthKit (rnd : Voice -> nat -> R) (sr : Z) (flavor : string)
  : gmap string AudioBuffer :=
  list_to_map (List.map (fun v => (pad_id v, make (rnd v) sr flavor v)) voices).

(** The sample rate that [initAudio] asks for. *)
Definition sample_rate : Z := 44100.

(** The duration of a voice, in seconds, as the synth functions have
    it. *)
Definition duration (v : Voice) : Q :=
  match v with
  | kick | snare => 1
  | hatO => 16 # 10
  | hatP => 12 # 100
  | hatC => 25 # 100
  | tom1 | tom2 | tom3 => 12 # 10
  | ride_ => 35 # 10
  | crash_ => 28 # 10
  end.

(** A noise source: every value of [Math.random] is in [0, 1). *)
Definition noise_source (rnd : nat -> R) : Prop :=
  forall i, 0 <= rnd i < 1.

(** The size that the samples of a voice are shown to stay within. *)
Definition sample_bound (v : Voice) : R :=
  match v with
  | snare => 34 / 10
  | _ => 2
  end.

(** *** A noise sequence that drives the jazz snare below -2

    [Math.random] returns 0.99 for the first 184 samples and 0 at sample
    184.  The definitions after it are rational bounds with which sample
    184 of the buffer is evaluated: [raw_lo k] is below the raw sample
    [k < 184], [raw_hi_184] is above the raw sample 184, and [avg_lo L i a j]
    is below the running average of the smoothing pass. *)

Definition adverse_noise (i : nat) : R :=
  if (i <? 184)%nat then 99 / 100 else 0.

Definition nat_Q (n : nat) : Q := inject_Z (Z.of_nat n).

(** Bounds of [pi * m / 245] from [3.14 <= pi <= 3.15]. *)
Definition phi_lo (m : nat) : Q := ((314 # 24500) * nat_Q m)%Q.
Definition phi_hi (m : nat) : Q := ((315 # 24500) * nat_Q m)%Q.

(** Below [sin (pi * m / 245)] when that angle is at most [pi]:
    [x - x^3/3! + x^5/5! - x^7/7!] with each term taken at the end of the
    interval that makes it smaller. *)
Definition sin_lo (m : nat) : Q :=
  (let lo := phi_lo m in
   let hi := phi_hi m in
   lo - (1 # 6) * (hi * hi * hi) + (1 # 120) * (lo * lo * lo * lo * lo)
   - (1 # 5040) * (hi * hi * hi * hi * hi * hi * hi))%Q.

Definition raw_lo (k : nat) : Q :=
  ((882 # 1000) * (1 - (8 # 44100) * nat_Q k)
   + (if (k <=? 122)%nat
      then (8 # 10) * ((1 - (12 # 44100) * nat_Q k)
                       * (if Qle_bool 0 (sin_lo (2 * k)) then sin_lo (2 * k)
                          else 0))
      else - ((8 # 10) * (if Qle_bool (phi_hi (2 * k - 245)) 1
                          then phi_hi (2 * k - 245) else 1))))%Q.

Definition raw_hi_184 : Q :=
  (- ((9 # 10) * (1 - (8 # 44100) * nat_Q 184))
   - (8 # 10) * ((1 - (12 # 44100) * nat_Q 184) * sin_lo 123))%Q.

(** [q] rounded down to twelve decimals. *)
Definition round_down (q : Q) : Q :=
  Qmake (Qfloor (q * inject_Z (10 ^ 12))) (10 ^ 12).

(** The running average after [j] more samples, from the value [a] at
    sample [i], when sample [k] is taken as [L k]; rounded down at every
    step. *)
Fixpoint avg_lo (L : nat -> Q) (i : nat) (a : Q) (j : nat) : Q :=
  match j with
  | O => a
  | S j' =>
      avg_lo L (S i)
        (round_down ((995 # 1000) * a + (5 # 1000) * L i))%Q j'
  end.

End Synth.

(** ** Elapsed-time display (line 438 of the source) *)

Module Display.
Local Open Scope Z_scope.

(** [s.padStart(2, '0')]. *)
Definition padStart2 (s : string) : string :=
  match String.length s with
  | O => "00"%string
  | S O => String.append "0" s
  | _ => s
  end.

(** [fmt(s)] for an integer [s]; [Math.floor(s / 60)] rounds down and
    [s % 60] keeps the sign of [s]. *)
Definition fmt (s : Z) : string :=
  let m := padStart2 (Settings.String_ (s / 60)) in
  let ss := padStart2 (Settings.String_ (Z.rem s 60)) in
  String.append m (String.append ":" ss).

End Display.

(** ** Recorder: what holds between its events *)

Module Sessions.
Import Recorder.
Local Open Scope Z_scope.

(** The flag is set whenever the recorder records, and no chunk is
    empty. *)
Definition tidy (s : State) : Prop :=
  (forall r, recorder s = Some r -> state r = recording_ ->
             recording s = true)
  /\ Forall (fun b => 0 < size b) (chunks s).

End Sessions.

(** ** Download of the recording (lines 427-436 of the source) *)

Module Download.
Import Recorder.

(** [s.includes(sub)]. *)
Definition includes (sub s : string) : bool :=
  match String.index 0 sub s with
  | Some _ => true
  | None => false
  end.

(** The extension chosen from the type of the blob. *)
Definition ext (type : string) : string :=
  if includes "mp4" type then "m4a"%string
  else if includes "ogg" type then "ogg"%string
  else "webm"%string.

(** [downloadRecording] at the clock reading [now]: the name of the file
    that is offered, [None] when the player has no source. *)
Definition downloadRecording (now : Z) (s : State) : option string :=
  match playback_src s with
  | None => None
  | Some blob =>
      Some (String.append "pocket-drums-"
              (String.append (Settings.String_ now)
                 (String.append "." (ext (type blob)))))
  end.

End Download.

(** ** Master level (lines 65-66 and 265-268 of the source) *)

Module Master.
Local Open Scope Q_scope.

Record State : Type := mkState {
  ctx : bool;
  masterGain : Q;            (* [state.masterGain] *)
  master : option Q          (* [state.master.gain.value], once the node exists *)
}.

Definition initial : State :=
  {| ctx := false; masterGain := 9 # 10; master := None |}.

(** The part of [initAudio] that builds the master node. *)
Definition initAudio (s : State) : State :=
  if ctx s then s
  else {| ctx := true; masterGain := masterGain s;
          master := Some (masterGain s) |}.

(** Input handler of [masterGainEl]; [v] is
    [parseFloat(masterGainEl.value)], a number for a range input. *)
Definition masterGain_input (v : Q) (s : State) : State :=
  {| ctx := ctx s; masterGain := v;
     master := match master s with
               | Some _ => Some v
               | None => None
               end |}.

Inductive Event : Type :=
| InitAudio
| MasterGainInput (v : Q).

Definition step (e : Event) (s : State) : State :=
  match e with
  | InitAudio => initAudio s
  | MasterGainInput v => masterGain_input v s
  end.

Definition run (es : list Event) (s : State) : State :=
  List.fold_left (fun s e => step e s) es s.

(** The value of the last slider move in a list of events, [d] when there
    is none. *)
Definition last_input (d : Q) (es : list Event) : Q :=
  List.fold_left
    (fun acc e => match e with MasterGainInput v => v | InitAudio => acc end)
    es d.

End Master.

(** ** Pads: table, velocity, press handlers, keyboard and the events of
    the trigger path (lines 37-50 and 282-321 of the source) *)

Module Pads.
Local Open Scope Q_scope.

Record Pad : Type := mkPad {
  id : string;
  label : string;
  key : string
}.

Definition PADS : list Pad :=
  [ mkPad "kick" "Kick" "K";
    mkPad "snare" "Snare" "S";
    mkPad "hatC" "Hi-Hat Closed" "H";
    mkPad "hatO" "Hi-Hat Open" "O";
    mkPad "hatP" "Hi-Hat Pedal" "P";
    mkPad "tom1" "Tom 1" "1";
    mkPad "tom2" "Tom 2" "2";
    mkPad "tom3" "Tom 3" "3";
    mkPad "crash" "Crash" "C";
    mkPad "ride" "Ride" "R" ]%string.

Definition Math_max (a b : Q) : Q := if Qle_bool a b then b else a.
Definition Math_min (a b : Q) : Q := if Qle_bool a b then a else b.

Definition clamp (x min max : Q) : Q := Math_max min (Math_min max x).

(** [force ? clamp(0.5 + force*0.8, 0.5, 1.2) : 0.9], where [force] is
    the force of the first touch, or 0 when the event has none. *)
Definition vFromForce (force : Q) : Q :=
  if Qeq_bool force 0 then 9 # 10
  else clamp ((5 # 10) + force * (8 # 10)) (5 # 10) (12 # 10).

(** [toLowerCase] on the letters A-Z; other characters are kept. *)
Definition toLowerCase_ascii (c : ascii) : ascii :=
  let n := nat_of_ascii c in
  if ((65 <=? n) && (n <=? 90))%nat then ascii_of_nat (n + 32) else c.

Fixpoint toLowerCase (s : string) : string :=
  match s with
  | EmptyString => EmptyString
  | String c r => String (toLowerCase_ascii c) (toLowerCase r)
  end.

(** Strings of ASCII characters: on these [toLowerCase] above is the one
    of JavaScript. *)
Fixpoint is_ascii (s : string) : bool :=
  match s with
  | EmptyString => true
  | String c r => (nat_of_ascii c <? 128)%nat && is_ascii r
  end.

(** [PADS.find(p => p.key.toLowerCase() === e.key.toLowerCase())]. *)
Definition find_pad (k : string) : option Pad :=
  List.find (fun p => String.eqb (toLowerCase (key p)) (toLowerCase k)) PADS.

(** The variables [pressTimer] and [isLong] of one pad's closure, its
    class [active], and the long-press timeouts (220 ms) it has pending;
    [nextId] is the id the next [setTimeout] hands out. *)
Record Press : Type := mkPress {
  active : bool;
  pressTimer : nat;
  isLong : bool;
  pending : list nat;
  nextId : nat
}.

Definition Press_initial : Press :=
  {| active := false; pressTimer := 0; isLong := false; pending := [];
     nextId := 1 |}.

(** [clearTimeout(tid)]. *)
Definition clearTimeout (tid : nat) (l : list nat) : list nat :=
  List.filter (fun i => negb (Nat.eqb i tid)) l.

(** The callback of a long-press timeout, when it is still pending. *)
Definition fire_longPress (tid : nat) (p : Press) : Press :=
  if List.existsb (Nat.eqb tid) (pending p) then
    {| active := active p; pressTimer := pressTimer p; isLong := true;
       pending := clearTimeout tid (pending p); nextId := nextId p |}
  else p.

Section WithBuffers.

Context {AudioBuffer : Type}.

(** The handler [start] of a pad, entered at audio time [now]. *)
Definition start (pad : string) (force now : Q) (p : Press)
  (s : Trigger.State AudioBuffer)
  : Completion (Press * Trigger.State AudioBuffer) :=
  let p1 := {| active := true; pressTimer := nextId p; isLong := false;
               pending := pending p ++ [nextId p];
               nextId := S (nextId p) |} in
  match Trigger.playPad pad (vFromForce force) now s with
  | Normal s' => Normal (p1, s')
  | Throw e s' => Throw e (p1, s')
  end.

(** The handler [end] of a pad. *)
Definition end_ (pad : string) (now : Q) (p : Press)
  (s : Trigger.State AudioBuffer)
  : Completion (Press * Trigger.State AudioBuffer) :=
  let p1 := {| active := active p; pressTimer := pressTimer p;
               isLong := isLong p;
               pending := clearTimeout (pressTimer p) (pending p);
               nextId := nextId p |} in
  let released := {| active := false; pressTimer := pressTimer p1;
                     isLong := isLong p1; pending := pending p1;
                     nextId := nextId p1 |} in
  if isLong p1 then
    match Trigger.playPad pad (12 # 10) now s with
    | Normal s' => Normal (released, s')
    | Throw e s' => Throw e (p1, s')
    end
  else Normal (released, s).

(** The [keydown] handler of the document. *)
Definition keydown (k : string) (now : Q) (s : Trigger.State AudioBuffer)
  : Completion (Trigger.State AudioBuffer) :=
  match find_pad k with
  | Some pad => Trigger.playPad (id pad) 1 now s
  | None => Normal s
  end.

(** What the environment does to the trigger path. *)
Inductive Event : Type :=
| PlayPad (pad : string) (velocity now : Q)
| KitBtnClick
| FireChokeRestore (now : Q).   (* the oldest pending choke timeout fires *)

Definition step (e : Event) (s : Trigger.State AudioBuffer)
  : Completion (Trigger.State AudioBuffer) :=
  match e with
  | PlayPad pad velocity now => Trigger.playPad pad velocity now s
  | KitBtnClick => Normal (Trigger.kitBtn_click s)
  | FireChokeRestore now =>
      match Trigger.timers s with
      | _ :: r => Normal (Trigger.choke_restore now (Trigger.set_timers r s))
      | [] => Normal s
      end
  end.

Fixpoint run (es : list Event) (s : Trigger.State AudioBuffer)
  : Completion (Trigger.State AudioBuffer) :=
  match es with
  | [] => Normal s
  | e :: r =>
      match step e s with
      | Normal s' => run r s'
      | Throw err s' => Throw err s'
      end
  end.

(** The clock reading an event carries. *)
Definition clock (e : Event) : option Q :=
  match e with
  | PlayPad _ _ now => Some now
  | KitBtnClick => None
  | FireChokeRestore now => Some now
  end.

(** The clock readings of the events go up strictly, from [last]. *)
Fixpoint increasing (last : Q) (es : list Event) : bool :=
  match es with
  | [] => true
  | e :: r =>
      match clock e with
      | Some t => Qltb last t && increasing t r
      | None => increasing last r
      end
  end.

Definition is_pad (pad : string) : bool :=
  List.existsb (String.eqb pad) Trigger.PADS.

Definition is_choke (e : Event) : bool :=
  match e with
  | PlayPad pad _ _ => String.eqb pad "hatC" || String.eqb pad "hatP"
  | _ => false
  end.

Definition is_play (e : Event) : bool :=
  match e with
  | PlayPad pad _ _ => is_pad pad
  | _ => false
  end.

(** A trigger that the embedding covers and whose source can be
    started at the latency of [l] ms: its id is not the name of an
    inherited member, and its start time is not negative. *)
Definition startable (l : Z) (e : Event) : bool :=
  match e with
  | PlayPad pad _ now =>
      negb (Trigger.inherited pad) && Qle_bool 0 (now + inject_Z l / 1000)
  | _ => true
  end.

(** A state in which [initAudio] has run to its end: both kits hold a
    buffer for exactly the ten pads, every pad has its gain, and the
    latency is a number. *)
Definition prepared (s : Trigger.State AudioBuffer) : Prop :=
  Trigger.ctx s = true
  /\ (Trigger.kit s = "rock"%string \/ Trigger.kit s = "jazz"%string)
  /\ (forall flavor, flavor = "rock"%string \/ flavor = "jazz"%string ->
        exists k, Trigger.buffers s !! flavor = Some k
                  /\ forall pad, is_Some (k !! pad) <-> is_pad pad = true)
  /\ (forall pad, is_pad pad = true -> is_Some (Trigger.gains s !! pad))
  /\ exists l, Trigger.latencyMs s = JInt l.

(** The triggers so far, as (pad, velocity, start time). *)
Definition hits (s : Trigger.State AudioBuffer) : list (string * Q * Q) :=
  List.map (fun x => (Trigger.destination x, Trigger.vca x, Trigger.when x))
           (Trigger.playing s).

(** What a run with a clock that goes up keeps on the open hi-hat gain:
    all its events are stamped at or before the last clock reading, and
    there are [n] events and pending timeouts together. *)
Definition stamped (t : Q) (n : nat) (s : Trigger.State AudioBuffer)
  : Prop :=
  exists g,
    Trigger.gains s !! "hatO"%string = Some g
    /\ Trigger.value g = 6 # 10
    /\ (forall x, In x (Trigger.events g) -> Trigger.event_time x <= t)
    /\ (List.length (Trigger.events g)
        + List.length (Trigger.timers s))%nat = n.

End WithBuffers.

End Pads.

(** ** The trigger path on the synthesised kits *)

Module Engine.

(** The state when [initAudio] has run to its end: the context, the gains
    and both kits, every voice with its own noise. *)
Definition initAudio_done (rnd_rock rnd_jazz : Synth.Voice -> nat -> R)
  (latency : jsint) : Trigger.State Synth.AudioBuffer :=
  Trigger.assign_kit "jazz"
    (Synth.synthKit rnd_jazz Synth.sample_rate "jazz")
    (Trigger.assign_kit "rock"
       (Synth.synthKit rnd_rock Synth.sample_rate "rock")
       (Trigger.initAudio (Trigger.initial latency))).

End Engine.

(** * Theorems *)

(** ** Metronome *)

Section MetronomeFacts.
Import Metronome.
Local Open Scope Q_scope.

Lemma Qltb_lt (a b : Q) : Qltb a b = true <-> a < b.
Proof.
  unfold Qltb. rewrite negb_true_iff. split.
  - intros H. apply Qnot_le_lt. intros Hle.
    apply Qle_bool_iff in Hle. congruence.
  - intros H. destruct (Qle_bool b a) eqn:E; [|reflexivity].
    apply Qle_bool_iff in E. exfalso. apply (Qlt_not_le _ _ H E).
Qed.

Lemma Qltb_ge (a b : Q) : Qltb a b = false <-> b <= a.
Proof.
  unfold Qltb. rewrite negb_false_iff. apply Qle_bool_iff.
Qed.

Example secondsPerBeat_120 : secondsPerBeat (JInt 120) = Fin (60 / 120).
Proof. reflexivity. Qed.

Example secondsPerBeat_0 : secondsPerBeat (JInt 0) = PlusInfinity.
Proof. reflexivity. Qed.

Lemma secondsPerBeat_pos (b : Z) :
  (0 < b)%Z -> secondsPerBeat (JInt b) = Fin (60 / inject_Z b)
               /\ 0 < 60 / inject_Z b.
Proof.
  intros Hb. split.
  - destruct b; try lia; reflexivity.
  - apply Qlt_shift_div_l.
    + unfold Qlt; simpl; lia.
    + unfold Qlt; simpl; lia.
Qed.

Lemma rounds_scheduled now d n : forall t s,
  scheduled (rounds now d n t s)
  = scheduled s ++ List.map click_at (beats t d n).
Proof.
  induction n as [|n IH]; intros t s; simpl.
  - now rewrite app_nil_r.
  - rewrite IH. simpl. now rewrite <- app_assoc.
Qed.

Lemma rounds_nextTick now d n : forall t s,
  nextTick s = Fin t ->
  nextTick (rounds now d n t s) = Fin (beat t d n).
Proof.
  induction n as [|n IH]; intros t s Ht; simpl; [exact Ht|].
  apply IH. reflexivity.
Qed.

Lemma rounds_frame now d n : forall t s,
  let s' := rounds now d n t s in
  ctx s' = ctx s /\ lookahead s' = lookahead s
  /\ scheduleAheadTime s' = scheduleAheadTime s
  /\ isMetronomeOn s' = isMetronomeOn s /\ bpm s' = bpm s
  /\ latencyMs s' = latencyMs s /\ pulseOn s' = pulseOn s
  /\ List.filter is_RunSchedulerTimer (timers s')
     = List.filter is_RunSchedulerTimer (timers s).
Proof.
  induction n as [|n IH]; intros t s; simpl; [tauto|].
  specialize (IH (t + d)
                (set_nextTick (Fin (t + d)) (scheduleClick t now s))).
  simpl in IH. destruct IH as (H1 & H2 & H3 & H4 & H5 & H6 & H7 & H8).
  repeat split; try assumption.
  rewrite H8. rewrite List.filter_app. simpl. apply app_nil_r.
Qed.

Lemma beat_S t d n : beat t d (S n) = beat t d n + d.
Proof.
  revert t. induction n as [|n IH]; intros t; [reflexivity|].
  change (beat t d (S (S n))) with (beat (t + d) d (S n)).
  rewrite IH. reflexivity.
Qed.

Lemma beat_closed t d n : beat t d n == t + inject_Z (Z.of_nat n) * d.
Proof.
  induction n as [|n IH].
  - simpl. ring.
  - rewrite beat_S, IH, Nat2Z.inj_succ. unfold Z.succ.
    rewrite inject_Z_plus. ring.
Qed.

Lemma beats_length t d n : List.length (beats t d n) = n.
Proof. revert t. induction n; intros; simpl; auto. Qed.

Lemma beats_nth t d n : forall k, (k < n)%nat ->
  nth_error (beats t d n) k = Some (beat t d k).
Proof.
  revert t. induction n as [|n IH]; intros t k Hk; [lia|].
  destruct k as [|k]; [reflexivity|].
  simpl. apply IH. lia.
Qed.

(** Consecutive beats are one period apart, as terms: the second is the
    first plus [d]. *)
Lemma beats_spacing t d n k a c :
  nth_error (beats t d n) k = Some a ->
  nth_error (beats t d n) (S k) = Some c ->
  c = a + d.
Proof.
  intros Ha Hc.
  assert (Hk : (S k < n)%nat).
  { rewrite <- (beats_length t d n). apply nth_error_Some. congruence. }
  rewrite beats_nth in Ha by lia. rewrite beats_nth in Hc by lia.
  inversion Ha; inversion Hc; subst. apply beat_S.
Qed.

(** The loop stops, after the rounds that the window asks for. *)
Lemma schedule_loop_rounds now d (Hd : 0 < d) : forall (m : nat) s t,
  nextTick s = Fin t ->
  now + scheduleAheadTime s - t <= inject_Z (Z.of_nat m) * d ->
  exists n, (n <= m)%nat
    /\ (forall k, (k < n)%nat -> beat t d k < now + scheduleAheadTime s)
    /\ now + scheduleAheadTime s <= beat t d n
    /\ forall fuel, (n <= fuel)%nat ->
         schedule_loop fuel now (Fin d) s = Some (rounds now d n t s).
Proof.
  induction m as [|m IH]; intros s t Ht Hm.
  - exists O. split; [lia|]. split; [intros k Hk; lia|].
    assert (Hge : now + scheduleAheadTime s <= t).
    { change (inject_Z (Z.of_nat 0)) with 0 in Hm. Lqa.lra. }
    split; [exact Hge|].
    intros fuel _. apply Qltb_ge in Hge.
    destruct fuel; simpl; rewrite Ht, Hge; reflexivity.
  - destruct (Qltb t (now + scheduleAheadTime s)) eqn:G.
    + set (s1 := set_nextTick (Fin (t + d)) (scheduleClick t now s)).
      destruct (IH s1 (t + d) eq_refl) as (n & Hn & Hlt & Hge & Hrun).
      { simpl. rewrite Nat2Z.inj_succ in Hm. unfold Z.succ in Hm.
        rewrite inject_Z_plus in Hm.
        change (inject_Z 1) with 1 in Hm. Lqa.lra. }
      exists (S n). split; [lia|]. split.
      { intros [|k] Hk.
        - simpl. now apply Qltb_lt.
        - simpl. apply (Hlt k). lia. }
      split; [exact Hge|].
      intros [|fuel] Hf; [lia|].
      simpl. rewrite Ht, G. apply Hrun. lia.
    + exists O. split; [lia|]. split; [intros k Hk; lia|].
      apply Qltb_ge in G. split; [exact G|].
      intros fuel _. apply Qltb_ge in G.
      destruct fuel; simpl; rewrite Ht, G; reflexivity.
Qed.

Lemma archimedes (x d : Q) (Hd : 0 < d) :
  exists m : nat, x <= inject_Z (Z.of_nat m) * d.
Proof.
  exists (Z.to_nat (Qceiling (x / d))).
  assert (H1 : x / d <= inject_Z (Qceiling (x / d))) by apply Qle_ceiling.
  assert (H2 : inject_Z (Qceiling (x / d))
               <= inject_Z (Z.of_nat (Z.to_nat (Qceiling (x / d))))).
  { rewrite <- Zle_Qle. lia. }
  assert (H3 : x == (x / d) * d) by (field; Lqa.lra).
  rewrite H3 at 1. apply Qmult_le_compat_r; Lqa.lra.
Qed.

Lemma schedule_loop_total now d (Hd : 0 < d) s t :
  nextTick s = Fin t ->
  exists n,
    (forall k, (k < n)%nat -> beat t d k < now + scheduleAheadTime s)
    /\ now + scheduleAheadTime s <= beat t d n
    /\ forall fuel, (n <= fuel)%nat ->
         schedule_loop fuel now (Fin d) s = Some (rounds now d n t s).
Proof.
  intros Ht.
  destruct (archimedes (now + scheduleAheadTime s - t) d Hd) as [m Hm].
  destruct (schedule_loop_rounds now d Hd m s t Ht Hm)
    as (n & _ & H1 & H2 & H3).
  exists n. auto.
Qed.


Lemma beat_add T d n : forall m, beat (beat T d n) d m = beat T d (n + m).
Proof.
  revert T. induction n as [|n IH]; intros T m; [reflexivity|].
  simpl. apply IH.
Qed.

Lemma beats_add T d n : forall m,
  beats T d (n + m) = beats T d n ++ beats (beat T d n) d m.
Proof.
  revert T. induction n as [|n IH]; intros T m; [reflexivity|].
  simpl. now rewrite IH.
Qed.

Lemma beat_mono T d n m : 0 < d -> (n <= m)%nat -> beat T d n <= beat T d m.
Proof.
  intros Hd Hnm. rewrite !beat_closed.
  assert (H : inject_Z (Z.of_nat n) <= inject_Z (Z.of_nat m)).
  { rewrite <- Zle_Qle. lia. }
  assert (H2 : inject_Z (Z.of_nat n) * d <= inject_Z (Z.of_nat m) * d).
  { apply Qmult_le_compat_r; Lqa.lra. }
  Lqa.lra.
Qed.

Lemma take_timer_scheduler l :
  (1 <= List.length (List.filter is_RunSchedulerTimer l))%nat ->
  exists l', take_timer is_RunSchedulerTimer l = Some l'
    /\ S (List.length (List.filter is_RunSchedulerTimer l'))
       = List.length (List.filter is_RunSchedulerTimer l).
Proof.
  induction l as [|t l IH]; simpl; [lia|].
  destruct (is_RunSchedulerTimer t) eqn:E; simpl.
  - intros _. exists l. auto.
  - intros H. destruct (IH H) as (l' & -> & Hl).
    exists (t :: l'). simpl. rewrite E. auto.
Qed.

Lemma take_timer_other p l l' :
  (forall t, p t = true -> is_RunSchedulerTimer t = false) ->
  take_timer p l = Some l' ->
  List.filter is_RunSchedulerTimer l' = List.filter is_RunSchedulerTimer l.
Proof.
  intros Hp. revert l'. induction l as [|t l IH]; simpl; intros l'; [discriminate|].
  destruct (p t) eqn:E.
  - intros [= <-]. now rewrite (Hp t E).
  - destruct (take_timer p l) as [r|]; [|discriminate].
    intros [= <-]. simpl. now rewrite (IH r eq_refl).
Qed.

(** One effective wake of a running metronome. *)
Lemma runScheduler_on_grid b T before W now s :
  (0 < b)%Z ->
  isMetronomeOn s = true -> bpm s = JInt b -> scheduleAheadTime s = 3 # 25 ->
  (exists n : nat,
       nextTick s = Fin (beat T (60 / inject_Z b) n)
       /\ scheduled s
          = before ++ List.map click_at (beats T (60 / inject_Z b) n)
       /\ (forall w, In w W ->
             w + (3 # 25) <= beat T (60 / inject_Z b) n)
       /\ (forall k, (k < n)%nat ->
             exists w, In w W
                       /\ beat T (60 / inject_Z b) k < w + (3 # 25))) ->
  exists fuel0 s',
    (forall fuel, (fuel0 <= fuel)%nat -> runScheduler fuel now s = Some s')
    /\ on_grid b T before (W ++ [now]) s'.
Proof.
  intros Hb Hon Hbpm Hah (n & Hnt & Hsch & Hall & Hex).
  destruct (secondsPerBeat_pos b Hb) as [Hspb Hd].
  set (d := 60 / inject_Z b) in *.
  destruct (schedule_loop_total now d Hd s _ Hnt) as (n' & Hlt & Hge & Hrun).
  rewrite Hah in Hlt, Hge.
  set (s1 := rounds now d n' (beat T d n) s) in *.
  destruct (rounds_frame now d n' (beat T d n) s)
    as (F1 & F2 & F3 & F4 & F5 & F6 & F7 & F8).
  fold s1 in F1, F2, F3, F4, F5, F6, F7, F8.
  exists n', (setTimeout (RunSchedulerTimer (lookahead s1)) s1). split.
  - intros fuel Hf. unfold runScheduler. rewrite Hon, Hbpm, Hspb. simpl.
    now rewrite (Hrun fuel Hf).
  - unfold on_grid. simpl. rewrite F3, F4, F5.
    repeat split; try assumption.
    + unfold pending_schedulers. simpl. rewrite List.filter_app, List.length_app.
      simpl. lia.
    + exists (n + n')%nat. split; [|split; [|split]].
      * unfold s1. rewrite (rounds_nextTick now d n' _ s Hnt). now rewrite beat_add.
      * unfold s1. rewrite rounds_scheduled, Hsch, beats_add, List.map_app.
        now rewrite <- app_assoc.
      * intros w Hw. apply in_app_or in Hw. destruct Hw as [Hw|[<-|[]]].
        -- apply Qle_trans with (beat T d n); [now apply Hall|].
           apply beat_mono; [exact Hd|lia].
        -- now rewrite <- beat_add.
      * intros k Hk. destruct (Nat.lt_ge_cases k n) as [Hkn|Hkn].
        -- destruct (Hex k Hkn) as (w & Hw & Hlt').
           exists w. split; [apply in_or_app; now left|exact Hlt'].
        -- exists now. split; [apply in_or_app; right; now left|].
           replace k with (n + (k - n))%nat by lia.
           rewrite <- beat_add. apply Hlt. lia.
Qed.

Lemma on_grid_step b T before W e s :
  (0 < b)%Z -> is_timer_event e = true -> on_grid b T before W s ->
  exists fuel0 s',
    (forall fuel, (fuel0 <= fuel)%nat -> step fuel e s = Some s')
    /\ on_grid b T before (W ++ wakes [e]) s'.
Proof.
  intros Hb He (Hon & Hbpm & Hah & Hpend & Hgrid).
  destruct e as [t|v|now| |]; try discriminate; simpl.
  - (* a scheduler timeout fires *)
    destruct (take_timer_scheduler (timers s) Hpend) as (l & Hl & _).
    rewrite Hl.
    apply (runScheduler_on_grid b T before W now (set_timers l s)); auto.
  - (* the pulse is switched on *)
    rewrite app_nil_r.
    destruct (take_timer is_PulseOnTimer (timers s)) as [l|] eqn:E.
    + exists O. eexists. split; [reflexivity|].
      unfold on_grid, pending_schedulers. simpl.
      repeat split; try assumption.
      rewrite List.filter_app. simpl. rewrite app_nil_r.
      rewrite (take_timer_other is_PulseOnTimer _ _ ltac:(now intros []) E).
      exact Hpend.
    + exists O, s. split; [reflexivity|]. unfold on_grid. auto.
  - (* the pulse is switched off *)
    rewrite app_nil_r.
    destruct (take_timer is_PulseOffTimer (timers s)) as [l|] eqn:E.
    + exists O. eexists. split; [reflexivity|].
      unfold on_grid, pending_schedulers. simpl.
      repeat split; try assumption.
      rewrite (take_timer_other is_PulseOffTimer _ _ ltac:(now intros []) E).
      exact Hpend.
    + exists O, s. split; [reflexivity|]. unfold on_grid. auto.
Qed.

Lemma wakes_app es1 es2 : wakes (es1 ++ es2) = wakes es1 ++ wakes es2.
Proof.
  induction es1 as [|e es1 IH]; [reflexivity|].
  destruct e; simpl; now rewrite IH.
Qed.

Lemma on_grid_run b T before es : forall W s,
  (0 < b)%Z -> forallb is_timer_event es = true -> on_grid b T before W s ->
  exists fuel0 s',
    (forall fuel, (fuel0 <= fuel)%nat -> run fuel es s = Some s')
    /\ on_grid b T before (W ++ wakes es) s'.
Proof.
  induction es as [|e es IH]; intros W s Hb Hes Hs.
  - exists O, s. simpl. rewrite app_nil_r. auto.
  - simpl in Hes. apply andb_true_iff in Hes. destruct Hes as [He Hes].
    destruct (on_grid_step b T before W e s Hb He Hs) as (f1 & s1 & Hstep & Hs1).
    destruct (IH _ s1 Hb Hes Hs1) as (f2 & s2 & Hrun & Hs2).
    exists (Nat.max f1 f2), s2. split.
    + intros fuel Hf. simpl. rewrite Hstep by lia. apply Hrun. lia.
    + change (e :: es) with ([e] ++ es). rewrite wakes_app, app_assoc.
      exact Hs2.
Qed.

(** Switching a stopped metronome on. *)
Lemma metroBtn_click_on_grid b t0 s0 :
  (0 < b)%Z ->
  isMetronomeOn s0 = false -> bpm s0 = JInt b ->
  scheduleAheadTime s0 = 3 # 25 ->
  exists fuel0 s',
    (forall fuel, (fuel0 <= fuel)%nat -> metroBtn_click fuel t0 s0 = Some s')
    /\ on_grid b (t0 + (5 # 100)) (scheduled s0) [t0] s'.
Proof.
  intros Hb Hoff Hbpm Hah.
  set (s2 := set_nextTick (Fin (t0 + (5 # 100)))
               (set_isMetronomeOn true (if ctx s0 then s0 else set_ctx true s0))).
  destruct (runScheduler_on_grid b (t0 + (5 # 100)) (scheduled s0) [] t0 s2 Hb)
    as (f & s' & Hrun & Hs').
  - reflexivity.
  - unfold s2. simpl. destruct (ctx s0); exact Hbpm.
  - unfold s2. simpl. destruct (ctx s0); exact Hah.
  - exists O. simpl. split; [reflexivity|]. split.
    + unfold s2. simpl. destruct (ctx s0); simpl; now rewrite app_nil_r.
    + split; [intros w []|intros k Hk; lia].
  - exists f, s'. split; [|exact Hs'].
    intros fuel Hf. unfold metroBtn_click.
    replace (isMetronomeOn (if ctx s0 then s0 else set_ctx true s0)) with false
      by (destruct (ctx s0); simpl; congruence).
    simpl. apply Hrun, Hf.
Qed.

Lemma filter_beats_prefix (p : Q -> bool) T d n m :
  (m <= n)%nat ->
  (forall k, (k < m)%nat -> p (beat T d k) = true) ->
  (forall k, (m <= k < n)%nat -> p (beat T d k) = false) ->
  List.length (List.filter p (beats T d n)) = m.
Proof.
  intros Hmn Ht Hf.
  replace n with (m + (n - m))%nat by lia.
  rewrite beats_add, List.filter_app, List.length_app.
  assert (H1 : List.filter p (beats T d m) = beats T d m).
  { apply List.forallb_filter_id. apply forallb_forall. intros x Hx.
    apply In_nth_error in Hx. destruct Hx as [k Hk].
    assert (Hkm : (k < m)%nat).
    { rewrite <- (beats_length T d m). apply nth_error_Some. congruence. }
    rewrite beats_nth in Hk by exact Hkm. inversion Hk. now apply Ht. }
  assert (H2 : List.filter p (beats (beat T d m) d (n - m)) = []).
  { destruct (List.filter p (beats (beat T d m) d (n - m))) as [|x r] eqn:E;
      [reflexivity|].
    assert (Hx : In x (List.filter p (beats (beat T d m) d (n - m))))
      by (rewrite E; now left).
    apply List.filter_In in Hx. destruct Hx as [Hx Hpx].
    apply In_nth_error in Hx. destruct Hx as [k Hk].
    assert (Hkm : (k < n - m)%nat).
    { rewrite <- (beats_length (beat T d m) d (n - m)).
      apply nth_error_Some. congruence. }
    rewrite beats_nth in Hk by exact Hkm. inversion Hk as [Hk'].
    rewrite beat_add in Hk'. rewrite <- Hk' in Hpx.
    rewrite Hf in Hpx by lia. discriminate. }
  rewrite H1, H2, beats_length. simpl. lia.
Qed.

(** At 120 beats per minute the period is half a second. *)
Lemma beat_120 T k :
  beat T (60 / inject_Z 120) k == T + inject_Z (Z.of_nat k) * (1 # 2).
Proof.
  rewrite beat_closed.
  assert (E : 60 / inject_Z 120 == 1 # 2) by reflexivity.
  rewrite E. reflexivity.
Qed.

Lemma ten_seconds_at_120 t0 n (W : list Q) :
  (forall w, In w W -> w + (3 # 25) <= beat (t0 + (5 # 100)) (60 / inject_Z 120) n) ->
  (forall k, (k < n)%nat ->
     exists w, In w W /\ beat (t0 + (5 # 100)) (60 / inject_Z 120) k < w + (3 # 25)) ->
  (forall w, In w W -> w <= t0 + 10) ->
  (exists w, In w W /\ t0 + 10 - (75 # 1000) <= w) ->
  (n = 20 \/ n = 21)%nat
  /\ List.length (List.filter (fun t => Qltb t (t0 + 10))
                   (beats (t0 + (5 # 100)) (60 / inject_Z 120) n)) = 20%nat.
Proof.
  intros Hall Hex Hwin (w & Hw & Hlast).
  assert (Hlo : (20 <= n)%nat).
  { specialize (Hall w Hw). rewrite beat_120 in Hall.
    destruct (Nat.lt_ge_cases n 20) as [Hn|Hn]; [|exact Hn]. exfalso.
    assert (H : inject_Z (Z.of_nat n) <= inject_Z 19)
      by (rewrite <- Zle_Qle; lia).
    change (inject_Z 19) with 19 in H.
    Lqa.lra. }
  assert (Hhi : (n <= 21)%nat).
  { destruct (Nat.lt_ge_cases 21 n) as [Hn|Hn]; [|exact Hn]. exfalso.
    destruct (Hex 21%nat Hn) as (w' & Hw' & Hlt).
    rewrite beat_120 in Hlt. specialize (Hwin w' Hw').
    change (inject_Z (Z.of_nat 21)) with 21 in Hlt. Lqa.lra. }
  split; [lia|].
  apply filter_beats_prefix; [exact Hlo| |].
  - intros k Hk. apply Qltb_lt. rewrite beat_120.
    assert (H : inject_Z (Z.of_nat k) <= inject_Z 19)
      by (rewrite <- Zle_Qle; lia).
    change (inject_Z 19) with 19 in H.
    Lqa.lra.
  - intros k Hk. apply Qltb_ge. rewrite beat_120.
    assert (H : inject_Z 20 <= inject_Z (Z.of_nat k))
      by (rewrite <- Zle_Qle; lia).
    change (inject_Z 20) with 20 in H.
    Lqa.lra.
Qed.

(** C1.  A metronome switched on at audio time [t0] at a tempo of [b] > 0
    beats per minute, then woken by its timeouts at arbitrary clock
    readings (and by its pulse timers):
    - every wake of a running scheduler queues one click at the current
      next tick for each tick inside its window of 0.12 s and moves the
      next tick by [60 / b] each time;
    - the run as a whole ends (with enough fuel for the loops) with the
      clicks [t0 + 0.05 + k * (60 / b)], [k < n], queued after the clicks
      that were there before, each built by [scheduleClick] at its beat;
      [n] is fixed by the wakes alone: every wake's window is exhausted and
      every queued beat was inside the window of some wake;
    - consecutive click times differ by [60 / b];
    - at 120 beats per minute, when the wakes cover ten seconds (none
      after [t0 + 10], one in the last 75 ms, which is the poll interval
      plus a jitter of twice the poll interval), 20 or 21 clicks are
      queued, and exactly 20 of them lie before [t0 + 10]. *)
Theorem metronome_clicks_on_beat_grid :
  forall (s0 : State) (b : Z) (t0 : Q) (es : list Event),
    (0 < b)%Z ->
    isMetronomeOn s0 = false -> bpm s0 = JInt b ->
    scheduleAheadTime s0 = 3 # 25 ->
    forallb is_timer_event es = true ->
    let d := 60 / inject_Z b in
    let T := t0 + (5 # 100) in
    (forall (s : State) (t now : Q),
        isMetronomeOn s = true -> bpm s = JInt b -> nextTick s = Fin t ->
        exists (m : nat) (s' : State),
          (forall fuel, (m <= fuel)%nat -> runScheduler fuel now s = Some s')
          /\ scheduled s' = scheduled s ++ List.map click_at (beats t d m)
          /\ nextTick s' = Fin (beat t d m)
          /\ (forall k, (k < m)%nat -> beat t d k < now + scheduleAheadTime s)
          /\ now + scheduleAheadTime s <= beat t d m)
    /\ exists (fuel0 n : nat) (s' : State),
        (forall fuel, (fuel0 <= fuel)%nat ->
                      run fuel (MetroBtnClick t0 :: es) s0 = Some s')
        /\ scheduled s' = scheduled s0 ++ List.map click_at (beats T d n)
        /\ click_times s' = click_times s0 ++ beats T d n
        /\ nextTick s' = Fin (beat T d n)
        /\ (forall w, In w (t0 :: wakes es) -> w + (3 # 25) <= beat T d n)
        /\ (forall k, (k < n)%nat ->
              exists w, In w (t0 :: wakes es) /\ beat T d k < w + (3 # 25))
        /\ (forall k a c,
              nth_error (beats T d n) k = Some a ->
              nth_error (beats T d n) (S k) = Some c ->
              c = a + d /\ c - a == 60 / inject_Z b)
        /\ (b = 120%Z ->
            (forall w, In w (t0 :: wakes es) -> w <= t0 + 10) ->
            (exists w, In w (t0 :: wakes es) /\ t0 + 10 - (75 # 1000) <= w) ->
            (n = 20 \/ n = 21)%nat
            /\ List.length (List.filter (fun t => Qltb t (t0 + 10))
                             (beats T d n)) = 20%nat).
Proof.
  intros s0 b t0 es Hb Hoff Hbpm Hah Hes d T. split.
  - intros s t now Hon Hbs Ht.
    destruct (secondsPerBeat_pos b Hb) as [Hspb Hd]. fold d in Hspb, Hd.
    destruct (schedule_loop_total now d Hd s t Ht) as (m & Hlt & Hge & Hrun).
    exists m, (setTimeout (RunSchedulerTimer
                             (lookahead (rounds now d m t s)))
                 (rounds now d m t s)).
    split; [|split; [|split; [|split]]].
    + intros fuel Hf. unfold runScheduler. rewrite Hon, Hbs, Hspb. simpl.
      now rewrite (Hrun fuel Hf).
    + simpl. apply rounds_scheduled.
    + simpl. now apply rounds_nextTick.
    + exact Hlt.
    + exact Hge.
  - destruct (metroBtn_click_on_grid b t0 s0 Hb Hoff Hbpm Hah)
      as (f1 & s1 & Hclick & Hs1).
    destruct (on_grid_run b T (scheduled s0) es [t0] s1 Hb Hes Hs1)
      as (f2 & s2 & Hrun & Hs2).
    destruct Hs2 as (_ & _ & _ & _ & n & Hnt & Hsch & Hall & Hex).
    fold d in Hnt, Hsch, Hall, Hex. simpl in Hall, Hex.
    exists (Nat.max f1 f2), n, s2.
    split; [|split; [|split; [|split; [|split; [|split; [|split]]]]]].
    + intros fuel Hf. simpl. rewrite Hclick by lia. apply Hrun. lia.
    + exact Hsch.
    + unfold click_times. rewrite Hsch, List.map_app, List.map_map. simpl.
      now rewrite List.map_id.
    + exact Hnt.
    + exact Hall.
    + exact Hex.
    + intros k a c Ha Hc. rewrite (beats_spacing T d n k a c Ha Hc).
      split; [reflexivity|]. unfold d. ring.
    + intros -> Hwin Hlast. apply (ten_seconds_at_120 t0 n (t0 :: wakes es)); auto.
Qed.

Lemma metronome_clicks_on_beat_grid_witness :
  exists (fuel0 n : nat) (s' : State),
    (forall fuel, (fuel0 <= fuel)%nat ->
       run fuel [MetroBtnClick 0; FireRunScheduler (1 # 40); FirePulseOn]
           (initial (JInt 0)) = Some s')
    /\ click_times s' = beats (0 + (5 # 100)) (60 / inject_Z 120) n.
Proof.
  destruct (metronome_clicks_on_beat_grid (initial (JInt 0)) 120 0
              [FireRunScheduler (1 # 40); FirePulseOn]
              ltac:(lia) eq_refl eq_refl eq_refl eq_refl)
    as [_ (f & n & s' & H1 & _ & H3 & _)].
  exists f, n, s'. split; [exact H1|exact H3].
Defined.

(** *** Stopping *)

Lemma take_timer_none_scheduler l :
  take_timer is_RunSchedulerTimer l = None ->
  List.filter is_RunSchedulerTimer l = [].
Proof.
  induction l as [|t l IH]; simpl; [reflexivity|].
  destruct (is_RunSchedulerTimer t); [discriminate|].
  destruct (take_timer is_RunSchedulerTimer l); [discriminate|].
  intros _. now apply IH.
Qed.

Lemma take_timer_some_scheduler l l' :
  take_timer is_RunSchedulerTimer l = Some l' ->
  S (List.length (List.filter is_RunSchedulerTimer l'))
  = List.length (List.filter is_RunSchedulerTimer l).
Proof.
  revert l'. induction l as [|t l IH]; simpl; intros l'; [discriminate|].
  destruct (is_RunSchedulerTimer t) eqn:E.
  - now intros [= <-].
  - destruct (take_timer is_RunSchedulerTimer l) as [r|]; [|discriminate].
    intros [= <-]. simpl. rewrite E. now apply IH.
Qed.

Lemma stopped_step fuel e s :
  isMetronomeOn s = false -> is_metro_click e = false ->
  exists s', step fuel e s = Some s'
    /\ isMetronomeOn s' = false
    /\ scheduled s' = scheduled s
    /\ pending_schedulers s'
       = (pending_schedulers s - List.length (wakes [e]))%nat.
Proof.
  intros Hoff He. destruct e as [t|v|now| |]; try discriminate; simpl.
  - eexists. split; [reflexivity|]. simpl. repeat split; auto.
    unfold pending_schedulers. simpl. lia.
  - destruct (take_timer is_RunSchedulerTimer (timers s)) as [l|] eqn:E.
    + unfold runScheduler. simpl. rewrite Hoff. simpl.
      eexists. split; [reflexivity|]. simpl. repeat split; auto.
      unfold pending_schedulers. simpl.
      rewrite <- (take_timer_some_scheduler _ _ E). lia.
    + exists s. repeat split; auto. unfold pending_schedulers.
      rewrite (take_timer_none_scheduler _ E). reflexivity.
  - destruct (take_timer is_PulseOnTimer (timers s)) as [l|] eqn:E.
    + eexists. split; [reflexivity|]. simpl. repeat split; auto.
      unfold pending_schedulers. simpl.
      rewrite List.filter_app. simpl. rewrite app_nil_r.
      rewrite (take_timer_other is_PulseOnTimer _ _ ltac:(now intros []) E).
      lia.
    + exists s. repeat split; auto. lia.
  - destruct (take_timer is_PulseOffTimer (timers s)) as [l|] eqn:E.
    + eexists. split; [reflexivity|]. simpl. repeat split; auto.
      unfold pending_schedulers. simpl.
      rewrite (take_timer_other is_PulseOffTimer _ _ ltac:(now intros []) E).
      lia.
    + exists s. repeat split; auto. lia.
Qed.

Lemma stopped_run fuel es : forall s,
  isMetronomeOn s = false ->
  forallb (fun e => negb (is_metro_click e)) es = true ->
  exists s', run fuel es s = Some s'
    /\ isMetronomeOn s' = false
    /\ scheduled s' = scheduled s
    /\ pending_schedulers s'
       = (pending_schedulers s - List.length (wakes es))%nat.
Proof.
  induction es as [|e es IH]; intros s Hoff Hes.
  - exists s. simpl. repeat split; auto. lia.
  - simpl in Hes. apply andb_true_iff in Hes. destruct Hes as [He Hes].
    apply negb_true_iff in He.
    destruct (stopped_step fuel e s Hoff He) as (s1 & Hstep & Hoff1 & Hsch1 & Hp1).
    destruct (IH s1 Hoff1 Hes) as (s2 & Hrun & Hoff2 & Hsch2 & Hp2).
    exists s2. split; [simpl; now rewrite Hstep|].
    split; [exact Hoff2|]. split; [congruence|].
    rewrite Hp2, Hp1. change (e :: es) with ([e] ++ es).
    rewrite wakes_app, List.length_app. lia.
Qed.

(** C7.  When a running metronome is switched off, the handler only
    clears the flag: the clicks already queued and the pending timers are
    as before.  Whatever happens afterwards short of switching it on again
    (scheduler timeouts firing at any clock reading, pulse timers, tempo
    changes), every step returns, the metronome stays off, the queued
    clicks are exactly those queued before the stop, and each scheduler
    timeout that fires is used up without arming another. *)
Theorem metronome_stop_is_final :
  forall (s : State) (t : Q) (fuel : nat) (es : list Event),
    isMetronomeOn s = true ->
    forallb (fun e => negb (is_metro_click e)) es = true ->
    exists s1 s',
      metroBtn_click fuel t s = Some s1
      /\ isMetronomeOn s1 = false
      /\ scheduled s1 = scheduled s
      /\ timers s1 = timers s
      /\ run fuel es s1 = Some s'
      /\ isMetronomeOn s' = false
      /\ scheduled s' = scheduled s
      /\ pending_schedulers s'
         = (pending_schedulers s - List.length (wakes es))%nat.
Proof.
  intros s t fuel es Hon Hes.
  set (s1 := set_isMetronomeOn false (if ctx s then s else set_ctx true s)).
  assert (H1 : metroBtn_click fuel t s = Some s1).
  { unfold metroBtn_click, s1. destruct (ctx s); simpl; rewrite Hon; reflexivity. }
  assert (Hsch : scheduled s1 = scheduled s) by (unfold s1; now destruct (ctx s)).
  assert (Htm : timers s1 = timers s) by (unfold s1; now destruct (ctx s)).
  destruct (stopped_run fuel es s1 eq_refl Hes) as (s' & Hrun & Hoff & Hs & Hp).
  exists s1, s'. repeat split; auto; try congruence.
  rewrite Hp. unfold pending_schedulers. now rewrite Htm.
Qed.

Lemma metronome_stop_is_final_witness :
  exists s1 s',
    metroBtn_click 5
      (1 # 10) (set_timers [RunSchedulerTimer 25]
                  (set_isMetronomeOn true (initial (JInt 0)))) = Some s1
    /\ run 5 [FireRunScheduler (1 # 8); TempoInput (JInt 90);
              FireRunScheduler (1 # 4)] s1 = Some s'
    /\ scheduled s' = [] /\ pending_schedulers s' = 0%nat.
Proof.
  destruct (metronome_stop_is_final
              (set_timers [RunSchedulerTimer 25]
                 (set_isMetronomeOn true (initial (JInt 0))))
              (1 # 10) 5
              [FireRunScheduler (1 # 8); TempoInput (JInt 90);
               FireRunScheduler (1 # 4)] eq_refl eq_refl)
    as (s1 & s' & H1 & _ & _ & _ & H2 & _ & H3 & H4).
  exists s1, s'. repeat split; assumption.
Defined.

(** *** Tempo changes *)

Lemma schedule_loop_appends fuel now spb : forall s s',
  schedule_loop fuel now spb s = Some s' ->
  exists new, scheduled s' = scheduled s ++ new.
Proof.
  induction fuel as [|fuel IH]; intros s s'; simpl.
  - destruct (nextTick s) as [t| |].
    + destruct (Qltb t (now + scheduleAheadTime s)); [discriminate|].
      intros [= <-]. exists []. now rewrite app_nil_r.
    + intros [= <-]. exists []. now rewrite app_nil_r.
    + intros [= <-]. exists []. now rewrite app_nil_r.
  - destruct (nextTick s) as [t| |].
    + destruct (Qltb t (now + scheduleAheadTime s)).
      * intros H. apply IH in H. destruct H as [new Hnew]. simpl in Hnew.
        exists (click_at t :: new). rewrite Hnew. now rewrite <- app_assoc.
      * intros [= <-]. exists []. now rewrite app_nil_r.
    + intros [= <-]. exists []. now rewrite app_nil_r.
    + intros [= <-]. exists []. now rewrite app_nil_r.
Qed.

Lemma runScheduler_appends fuel now s s' :
  runScheduler fuel now s = Some s' ->
  exists new, scheduled s' = scheduled s ++ new.
Proof.
  unfold runScheduler. destruct (negb (isMetronomeOn s)).
  - intros [= <-]. exists []. now rewrite app_nil_r.
  - destruct (schedule_loop fuel now (secondsPerBeat (bpm s)) s) as [s1|] eqn:E;
      [|discriminate].
    intros [= <-]. simpl. now apply schedule_loop_appends in E.
Qed.

Lemma step_appends fuel e s s' :
  step fuel e s = Some s' ->
  exists new, scheduled s' = scheduled s ++ new.
Proof.
  destruct e as [t|v|now| |]; simpl.
  - unfold metroBtn_click.
    destruct (isMetronomeOn (set_isMetronomeOn _ _)).
    + intros H. apply runScheduler_appends in H. simpl in H.
      destruct (ctx s); exact H.
    + intros [= <-]. exists []. simpl. rewrite app_nil_r. now destruct (ctx s).
  - intros [= <-]. exists []. now rewrite app_nil_r.
  - destruct (take_timer is_RunSchedulerTimer (timers s)).
    + intros H. now apply runScheduler_appends in H.
    + intros [= <-]. exists []. now rewrite app_nil_r.
  - destruct (take_timer is_PulseOnTimer (timers s));
      intros [= <-]; exists []; now rewrite app_nil_r.
  - destruct (take_timer is_PulseOffTimer (timers s));
      intros [= <-]; exists []; now rewrite app_nil_r.
Qed.

Lemma run_appends fuel es : forall s s',
  run fuel es s = Some s' ->
  exists new, scheduled s' = scheduled s ++ new.
Proof.
  induction es as [|e es IH]; intros s s'; simpl.
  - intros [= <-]. exists []. now rewrite app_nil_r.
  - destruct (step fuel e s) as [s1|] eqn:E; [|discriminate].
    intros H. apply IH in H. destruct H as [n2 H2].
    apply step_appends in E. destruct E as [n1 H1].
    exists (n1 ++ n2). now rewrite H2, H1, app_assoc.
Qed.

(** C6.  The tempo handler writes [state.bpm] and nothing else: the
    clicks already queued, the next tick already computed and the pending
    timers are untouched.  No later event removes or changes a queued
    click (the queue only grows at its end).  The next wake of a running
    scheduler at the new tempo [b] > 0 returns, queues its first new click
    at the tick that was computed before the change, and spaces the
    following ones by the new period [60 / b]. *)
Theorem tempo_change_is_not_retroactive :
  forall (s : State) (v : jsint),
    let s1 := tempo_input v s in
    bpm s1 = v
    /\ scheduled s1 = scheduled s
    /\ nextTick s1 = nextTick s
    /\ timers s1 = timers s
    /\ isMetronomeOn s1 = isMetronomeOn s
    /\ (forall fuel es s',
          run fuel es s1 = Some s' ->
          exists new, scheduled s' = scheduled s ++ new)
    /\ (forall (b : Z) (t now : Q),
          v = JInt b -> (0 < b)%Z ->
          isMetronomeOn s = true -> nextTick s = Fin t ->
          exists (m : nat) (s' : State),
            (forall fuel, (m <= fuel)%nat -> runScheduler fuel now s1 = Some s')
            /\ scheduled s'
               = scheduled s ++ List.map click_at (beats t (60 / inject_Z b) m)
            /\ nextTick s' = Fin (beat t (60 / inject_Z b) m)
            /\ (forall k, (k < m)%nat ->
                  beat t (60 / inject_Z b) k < now + scheduleAheadTime s)
            /\ now + scheduleAheadTime s <= beat t (60 / inject_Z b) m).
Proof.
  intros s v s1. repeat split; try reflexivity.
  - intros fuel es s' H. apply (run_appends fuel es s1 s' H).
  - intros b t now -> Hb Hon Ht.
    destruct (secondsPerBeat_pos b Hb) as [Hspb Hd].
    destruct (schedule_loop_total now _ Hd s1 t Ht) as (m & Hlt & Hge & Hrun).
    exists m, (setTimeout (RunSchedulerTimer
                 (lookahead (rounds now (60 / inject_Z b) m t s1)))
                 (rounds now (60 / inject_Z b) m t s1)).
    split; [|split; [|split; [|split]]].
    + intros fuel Hf. unfold runScheduler.
      replace (isMetronomeOn s1) with true by (symmetry; exact Hon).
      replace (bpm s1) with (JInt b) by reflexivity.
      rewrite Hspb. simpl. now rewrite (Hrun fuel Hf).
    + simpl. apply (rounds_scheduled now _ m t s1).
    + simpl. now apply rounds_nextTick.
    + exact Hlt.
    + exact Hge.
Qed.

Lemma tempo_change_is_not_retroactive_witness :
  exists (m : nat) (s' : State),
    (forall fuel, (m <= fuel)%nat ->
       runScheduler fuel (1 # 1)
         (tempo_input (JInt 60)
            (set_nextTick (Fin (21 # 20))
               (set_isMetronomeOn true (initial (JInt 0))))) = Some s')
    /\ scheduled s' = List.map click_at (beats (21 # 20) (60 / inject_Z 60) m).
Proof.
  destruct (tempo_change_is_not_retroactive
              (set_nextTick (Fin (21 # 20))
                 (set_isMetronomeOn true (initial (JInt 0))))
              (JInt 60))
    as (_ & _ & _ & _ & _ & _ & H).
  destruct (H 60%Z (21 # 20) (1 # 1) eq_refl ltac:(lia) eq_refl eq_refl)
    as (m & s' & H1 & H2 & _).
  exists m, s'. split; [exact H1|exact H2].
Defined.

End MetronomeFacts.

(** ** Latency setting *)

Section SettingsFacts.
Import Settings.
Local Open Scope Z_scope.
Local Open Scope string_scope.

Example parseInt_42 : parseInt "42" = JInt 42.
Proof. reflexivity. Qed.
Example parseInt_neg : parseInt "  -17ms" = JInt (-17).
Proof. reflexivity. Qed.
Example parseInt_letters : parseInt "abc" = JNaN.
Proof. reflexivity. Qed.
Example parseInt_empty : parseInt "" = JNaN.
Proof. reflexivity. Qed.
Example String_neg : String_ (-250) = "-250".
Proof. reflexivity. Qed.

Lemma digits_string_of_uint d : forall acc,
  digits (NilEmpty.string_of_uint d) (Some acc) = Some (uint_value acc d).
Proof.
  induction d; intros acc; simpl; try reflexivity; rewrite IHd; reflexivity.
Qed.

Lemma uint_value_of_uint_acc d : forall acc,
  uint_value (Z.pos acc) d = Z.pos (Pos.of_uint_acc d acc).
Proof.
  induction d; intros acc; simpl; try reflexivity;
    rewrite <- IHd; f_equal; lia.
Qed.

Lemma uint_value_of_uint d : uint_value 0 d = Z.of_N (Pos.of_uint d).
Proof.
  induction d; simpl; try reflexivity; try exact IHd;
    apply (uint_value_of_uint_acc d).
Qed.

Lemma parseInt_string_of_uint u :
  u <> Decimal.Nil ->
  parseInt (NilEmpty.string_of_uint u) = JInt (uint_value 0 u).
Proof.
  intros Hu. destruct u; [congruence| ..];
    unfold parseInt; simpl; rewrite digits_string_of_uint, Z.mul_1_l;
    reflexivity.
Qed.

Lemma parseInt_minus_string_of_uint u :
  u <> Decimal.Nil ->
  parseInt (String "-" (NilEmpty.string_of_uint u))
  = JInt (- uint_value 0 u).
Proof.
  intros Hu. destruct u; [congruence| ..];
    unfold parseInt; simpl; rewrite digits_string_of_uint;
    f_equal; match goal with |- (-1 * ?x = - ?y)%Z =>
      change y with x; lia end.
Qed.

Lemma to_uint_not_Nil p : Pos.to_uint p <> Decimal.Nil.
Proof.
  intros H. pose proof (DecimalPos.Unsigned.of_to p) as E.
  rewrite H in E. discriminate.
Qed.

Lemma NilZero_string_of_to_uint p :
  NilZero.string_of_uint (Pos.to_uint p)
  = NilEmpty.string_of_uint (Pos.to_uint p).
Proof.
  pose proof (to_uint_not_Nil p) as H.
  destruct (Pos.to_uint p); [congruence| ..]; reflexivity.
Qed.

(** Printing an integer and parsing it back gives the integer. *)
Lemma parseInt_String z : parseInt (String_ z) = JInt z.
Proof.
  destruct z as [|p|p]; [reflexivity| |]; unfold String_; simpl.
  - rewrite NilZero_string_of_to_uint.
    rewrite parseInt_string_of_uint by apply to_uint_not_Nil.
    rewrite uint_value_of_uint, DecimalPos.Unsigned.of_to. reflexivity.
  - rewrite NilZero_string_of_to_uint.
    rewrite parseInt_minus_string_of_uint by apply to_uint_not_Nil.
    rewrite uint_value_of_uint, DecimalPos.Unsigned.of_to. reflexivity.
Qed.

Lemma String_not_empty z : String.eqb (String_ z) "" = false.
Proof.
  destruct z as [|p|p]; [reflexivity| |reflexivity].
  unfold String_. simpl. rewrite NilZero_string_of_to_uint.
  pose proof (to_uint_not_Nil p) as H.
  destruct (Pos.to_uint p); [congruence| ..]; reflexivity.
Qed.

(** What is saved is read back by a fresh load.  The bound keeps the
    statement to the integers that [String] prints in decimal. *)
Lemma save_then_load value s :
  Z.abs (or_zero (parseInt value)) < 10 ^ 21 ->
  latencyMs (load (localStorage (saveLatency_click value s)))
  = latencyMs (saveLatency_click value s).
Proof.
  intros _. unfold load, saveLatency_click. simpl.
  rewrite lookup_insert_eq. simpl.
  rewrite String_not_empty. apply parseInt_String.
Qed.

Lemma load_absent store :
  store !! "latencyMs" = None -> latencyMs (load store) = JInt 0.
Proof. intros H. unfold load. simpl. now rewrite H. Qed.

Lemma load_empty_string store :
  store !! "latencyMs" = Some "" -> latencyMs (load store) = JInt 0.
Proof. intros H. unfold load. simpl. now rewrite H. Qed.

(** C9.  A missing or empty entry loads as 0 and a saved value is read
    back ([save_then_load]); but a stored string that is not a number
    loads as [NaN], not as 0, and one that only starts with digits loads as
    those digits.  Line 25 guards the string with [|| '0'] and leaves the
    result of [parseInt] unguarded, where the save handler has [|| 0]: the
    same text typed into the latency field is saved as 0. *)
Theorem load_of_invalid_entry_is_not_zero :
  latencyMs (load ∅) = JInt 0
  /\ latencyMs (load (<["latencyMs" := ""]> ∅)) = JInt 0
  /\ latencyMs (load (localStorage (saveLatency_click "250" (load ∅))))
     = JInt 250
  /\ latencyMs (load (<["latencyMs" := "abc"]> ∅)) = JNaN
  /\ latencyMs (load (<["latencyMs" := "12abc"]> ∅)) = JInt 12
  /\ latencyMs (saveLatency_click "abc" (load ∅)) = JInt 0.
Proof. repeat split; reflexivity. Qed.

End SettingsFacts.

(** ** Recorder *)

Section RecorderFacts.
Import Recorder.
Local Open Scope Z_scope.

Variable sup : string -> bool.

Ltac by_flag Hr := let H := fresh in intros H; apply Hr; congruence.

Lemma stopRecording_sound s :
  sound s -> exists s', stopRecording s = Normal s' /\ sound s'
    /\ recording s' = false /\ timers s' = timers s.
Proof.
  intros [Hm Hr]. unfold stopRecording.
  destruct (recording s) eqn:E; simpl.
  - destruct (Hr eq_refl) as (_ & r & -> & _).
    eexists. split; [reflexivity|]. split; [|split; reflexivity].
    split; [exact Hm|]. simpl. discriminate.
  - exists s. split; [reflexivity|].
    split; [split; [exact Hm|rewrite E; discriminate]|].
    split; [exact E|reflexivity].
Qed.

Lemma tick_sound st now s :
  sound s -> exists s', tick st now s = Normal s' /\ sound s'.
Proof.
  intros Hs. unfold tick. destruct (recording s) eqn:E; simpl.
  - destruct (maxRecSec s <=? (now - st) / 1000).
    + match goal with |- context [stopRecording ?x] =>
        destruct (stopRecording_sound x) as (s' & H1 & H2 & _) end.
      { destruct Hs as [Hm Hr]. split; [exact Hm|]. simpl. by_flag Hr. }
      exists s'. auto.
    + eexists. split; [reflexivity|].
      destruct Hs as [Hm Hr]. split; [exact Hm|]. simpl. by_flag Hr.
  - exists s. auto.
Qed.

Lemma step_sound e s :
  sound s -> exists s', step sup e s = Normal s' /\ sound s'.
Proof.
  intros Hs. destruct e as [now|i now|data| |]; simpl.
  - unfold recBtn_click. simpl. destruct (recording s) eqn:E.
    + match goal with |- context [stopRecording ?x] =>
        destruct (stopRecording_sound x) as (s' & H1 & H2 & _) end.
      { destruct Hs as [Hm Hr]. split; [exact Hm|]. simpl.
        intros _. destruct (Hr E) as [_ Hrec]. split; [reflexivity|exact Hrec]. }
      exists s'. auto.
    + unfold startRecording. simpl.
      apply tick_sound. destruct Hs as [Hm _]. split; [exact Hm|]. simpl.
      intros _. split; [reflexivity|]. eexists. split; reflexivity.
  - destruct (nth_error (timers s) i) as [t|]; [|exists s; auto].
    apply tick_sound. destruct Hs as [Hm Hr]. split; [exact Hm|simpl; by_flag Hr].
  - destruct (recorder s) eqn:E; [|exists s; auto].
    eexists. split; [reflexivity|]. unfold ondataavailable.
    destruct (0 <? size data); [|exact Hs].
    destruct Hs as [Hm Hr]. split; [exact Hm|simpl; by_flag Hr].
  - destruct (stopEvents s) as [|n]; [exists s; auto|].
    eexists. split; [reflexivity|].
    destruct Hs as [Hm Hr]. split; [exact Hm|simpl; by_flag Hr].
  - eexists. split; [reflexivity|].
    destruct Hs as [Hm Hr]. split; [exact Hm|simpl; by_flag Hr].
Qed.

Lemma reachable_sound s : reachable sup s -> sound s.
Proof.
  induction 1 as [|e s s' _ IH Hstep].
  - split; [reflexivity|discriminate].
  - destruct (step_sound e s IH) as (s'' & H1 & H2). congruence.
Qed.

Lemma in_remove_nth {A} (x t : A) : forall l i,
  In x l -> nth_error l i = Some t -> x = t \/ In x (remove_nth i l).
Proof.
  induction l as [|a l IH]; intros i Hin Hn; [destruct Hin|].
  destruct i as [|i]; simpl in *.
  - inversion Hn; subst. destruct Hin as [->|Hin]; [now left|now right].
  - destruct Hin as [->|Hin].
    + right. now left.
    + destruct (IH i Hin Hn) as [->|H]; [now left|].
      right. right. exact H.
Qed.

Lemma tick_polled now0 st now s tk :
  sound s -> recording s = true ->
  (started tk = now0 /\ due tk < now0 + 60 * 1000 + 250
   /\ (tk = {| started := st; due := due tk |} \/ In tk (timers s))) ->
  exists s', tick st now s = Normal s' /\ sound s' /\ polled now0 s'.
Proof.
  intros Hs Hrec (Hst & Hdue & Hin).
  destruct (tick_sound st now s Hs) as (s' & Htick & Hs').
  exists s'. split; [exact Htick|]. split; [exact Hs'|].
  revert Htick. unfold tick. rewrite Hrec. simpl.
  destruct Hs as [Hm Hr]. rewrite Hm.
  destruct (60 <=? (now - st) / 1000) eqn:E.
  - intros Htick.
    match type of Htick with stopRecording ?x = _ =>
      destruct (stopRecording_sound x) as (s2 & H1 & _ & H3 & _) end.
    { split; [reflexivity|simpl; intros _; apply Hr, Hrec]. }
    rewrite H1 in Htick. inversion Htick; subst.
    intros H. congruence.
  - intros [= <-]. intros _. simpl.
    destruct Hin as [Heq|Hin].
    + exists {| started := st; due := now + 250 |}. split.
      * apply in_or_app. right. now left.
      * simpl. rewrite Heq in Hst. simpl in Hst. split; [exact Hst|].
        apply Z.leb_gt in E.
        assert (now - st < 60 * 1000).
        { destruct (Z_lt_le_dec (now - st) (60 * 1000)) as [H|H]; [exact H|].
          apply (Z.div_le_lower_bound _ 1000 60) in H; lia. }
        lia.
    + exists tk. split; [apply in_or_app; now left|auto].
Qed.

Lemma step_polled now0 e s :
  is_click e = false -> sound s -> polled now0 s ->
  exists s', step sup e s = Normal s' /\ sound s' /\ polled now0 s'.
Proof.
  intros He Hs Hp. destruct e as [now|i now|data| |]; try discriminate; simpl.
  - destruct (nth_error (timers s) i) as [t|] eqn:Ht; [|exists s; auto].
    destruct (recording s) eqn:Hrec.
    + destruct (Hp Hrec) as (tk & Hin & Hst & Hdue).
      apply (tick_polled now0 (started t) now _ tk).
      * destruct Hs as [Hm Hr]. split; [exact Hm|simpl; by_flag Hr].
      * exact Hrec.
      * split; [exact Hst|]. split; [exact Hdue|]. simpl.
        destruct (in_remove_nth tk t _ i Hin Ht) as [->|H]; [|now right].
        left. now destruct t.
    + destruct (tick_sound (started t) now
                  (set_timers (remove_nth i (timers s)) s)) as (s' & H1 & H2).
      { destruct Hs as [Hm Hr]. split; [exact Hm|simpl; by_flag Hr]. }
      exists s'. split; [exact H1|]. split; [exact H2|].
      unfold tick in H1. simpl in H1. rewrite Hrec in H1. simpl in H1.
      inversion H1; subst. intros H. simpl in H. congruence.
  - destruct (recorder s) eqn:E; [|exists s; auto].
    eexists. split; [reflexivity|]. unfold ondataavailable.
    destruct (0 <? size data); [|auto].
    destruct Hs as [Hm Hr]. split; [split; [exact Hm|exact Hr]|exact Hp].
  - destruct (stopEvents s) as [|n]; [exists s; auto|].
    eexists. split; [reflexivity|].
    destruct Hs as [Hm Hr]. split; [split; [exact Hm|exact Hr]|exact Hp].
  - eexists. split; [reflexivity|].
    destruct Hs as [Hm Hr]. split; [split; [exact Hm|exact Hr]|exact Hp].
Qed.

Lemma run_polled now0 es : forall s,
  forallb (fun e => negb (is_click e)) es = true ->
  sound s -> polled now0 s ->
  exists s', run sup es s = Normal s' /\ sound s' /\ polled now0 s'.
Proof.
  induction es as [|e es IH]; intros s Hes Hs Hp.
  - exists s. auto.
  - simpl in Hes. apply andb_true_iff in Hes. destruct Hes as [He Hes].
    apply negb_true_iff in He.
    destruct (step_polled now0 e s He Hs Hp) as (s1 & H1 & Hs1 & Hp1).
    destruct (IH s1 Hes Hs1 Hp1) as (s2 & H2 & Hs2 & Hp2).
    exists s2. simpl. rewrite H1. auto.
Qed.

Lemma start_polled now0 s :
  sound s -> recording s = false ->
  exists s', step sup (RecBtnClick now0) s = Normal s'
             /\ sound s' /\ polled now0 s'.
Proof.
  intros Hs Hoff. simpl. unfold recBtn_click. simpl. rewrite Hoff.
  unfold startRecording. simpl. rewrite ?Hoff. simpl.
  destruct Hs as [Hm _].
  match goal with |- context [tick _ _ ?x] => set (s1 := x) end.
  assert (Hs1 : sound s1).
  { split; [exact Hm|]. intros _. split; [reflexivity|].
    eexists. split; reflexivity. }
  destruct (tick_sound now0 now0 s1 Hs1) as (s' & Htick & Hs').
  exists s'. split; [exact Htick|]. split; [exact Hs'|].
  revert Htick. unfold tick.
  replace (recording s1) with true by reflexivity.
  replace (maxRecSec s1) with 60 by (symmetry; exact Hm).
  rewrite Z.sub_diag. simpl.
  intros [= <-]. intros _. simpl.
  exists {| started := now0; due := now0 + 250 |}. split.
  - apply in_or_app. right. now left.
  - simpl. split; [reflexivity|lia].
Qed.

Lemma data_run ds : forall s r,
  recorder s = Some r ->
  exists s',
    run sup (List.map DataAvailable ds) s = Normal s'
    /\ chunks s'
       = chunks s ++ List.filter (fun d => 0 <? size d) ds
    /\ recording s' = recording s
    /\ recorder s' = recorder s
    /\ stopEvents s' = stopEvents s
    /\ maxRecSec s' = maxRecSec s.
Proof.
  induction ds as [|d ds IH]; intros s r Hr; simpl.
  - exists s. rewrite app_nil_r. repeat split.
  - rewrite Hr. unfold ondataavailable.
    destruct (0 <? size d) eqn:Hd.
    + match goal with |- context [run sup _ ?x] =>
        destruct (IH x r Hr) as (s' & H1 & H2 & H3 & H4 & H5 & H6) end.
      exists s'. split; [exact H1|]. simpl in H2, H3, H4, H5, H6.
      split; [rewrite H2, <- app_assoc; reflexivity|].
      repeat split; congruence.
    + destruct (IH s r Hr) as (s' & H1 & H2 & H3 & H4 & H5 & H6).
      exists s'. repeat split; congruence.
Qed.

Lemma run_app es1 : forall es2 s s1,
  run sup es1 s = Normal s1 -> run sup (es1 ++ es2) s = run sup es2 s1.
Proof.
  induction es1 as [|e es1 IH]; intros es2 s s1; simpl.
  - now intros [= <-].
  - destruct (step sup e s) as [s2|err s2]; [|discriminate].
    apply IH.
Qed.

Lemma data_run_timers ds : forall s s',
  run sup (List.map DataAvailable ds) s = Normal s' -> timers s' = timers s.
Proof.
  induction ds as [|d ds IH]; intros s s'; simpl.
  - now intros [= <-].
  - destruct (recorder s); [|apply IH].
    unfold ondataavailable. destruct (0 <? size d); [|apply IH].
    intros H. apply IH in H. exact H.
Qed.

Lemma remove_nth_last {A} (pre : list A) (x : A) :
  remove_nth (List.length pre) (pre ++ [x]) = pre.
Proof.
  unfold remove_nth.
  rewrite List.firstn_app, List.firstn_all, Nat.sub_diag. simpl.
  rewrite List.skipn_all2 by (rewrite List.length_app; simpl; lia).
  now rewrite !app_nil_r.
Qed.

Lemma nth_error_last {A} (pre : list A) (x : A) :
  nth_error (pre ++ [x]) (List.length pre) = Some x.
Proof.
  rewrite List.nth_error_app2 by lia. now rewrite Nat.sub_diag.
Qed.

(** The click that starts a session. *)
Lemma start_click now0 s :
  maxRecSec s = 60 -> recording s = false ->
  step sup (RecBtnClick now0) s
  = Normal
      {| ctx := true; maxRecSec := maxRecSec s; recording := true;
         recorder := Some {| mimeType := preferredMime sup;
                             state := recording_ |};
         chunks := [];
         timers := timers s ++ [ {| started := now0; due := now0 + 250 |} ];
         stopEvents := stopEvents s; recBtn := "■ Stop";
         recTimer := 0; playback_src := playback_src s;
         buttons_disabled := buttons_disabled s |}.
Proof.
  intros Hm Hoff. simpl. unfold recBtn_click. simpl. rewrite Hoff.
  unfold startRecording. simpl. rewrite ?Hoff. simpl.
  unfold tick. simpl. rewrite ?Hoff, Z.sub_diag.
  change (0 / 1000) with 0. rewrite Hm. reflexivity.
Qed.

(** Polls of the session that fire before the cap arm the next poll and
    change nothing else but the elapsed time shown. *)
Lemma polls_before_cap now0 (pre : list Timer) ts : forall s d,
  maxRecSec s = 60 -> recording s = true ->
  timers s = pre ++ [ {| started := now0; due := d |} ] ->
  forallb (fun t => t <? now0 + 60 * 1000) ts = true ->
  exists s' d',
    run sup (List.map (FireTick (List.length pre)) ts) s = Normal s'
    /\ maxRecSec s' = 60 /\ recording s' = true
    /\ timers s' = pre ++ [ {| started := now0; due := d' |} ]
    /\ recorder s' = recorder s /\ chunks s' = chunks s
    /\ stopEvents s' = stopEvents s
    /\ playback_src s' = playback_src s.
Proof.
  induction ts as [|t ts IH]; intros s d Hm Hrec Ht Hts.
  - exists s, d. simpl. repeat split; auto.
  - simpl in Hts. apply andb_true_iff in Hts. destruct Hts as [Hlt Hts].
    apply Z.ltb_lt in Hlt.
    assert (E : (60 <=? (t - now0) / 1000) = false).
    { apply Z.leb_gt. apply Z.div_lt_upper_bound; lia. }
    simpl List.map. simpl run. rewrite Ht, nth_error_last, remove_nth_last.
    unfold tick. simpl. rewrite Hrec, Hm. simpl. rewrite E.
    match goal with |- context [run sup _ ?x] =>
      destruct (IH x (t + 250)) as (s' & d' & H1 & H2 & H3 & H4 & H5 & H6 & H7 & H8)
    end; try reflexivity; try assumption.
    exists s', d'. split; [exact H1|]. simpl in H5, H6, H7, H8.
    repeat split; assumption.
Qed.

(** The poll that sees the cap reached: the flag is cleared, the recorder
    stopped, no poll armed. *)
Lemma poll_at_cap now0 (pre : list Timer) T s d m :
  maxRecSec s = 60 -> recording s = true ->
  timers s = pre ++ [ {| started := now0; due := d |} ] ->
  recorder s = Some {| mimeType := m; state := recording_ |} ->
  now0 + 60 * 1000 <= T ->
  step sup (FireTick (List.length pre) T) s
  = Normal
      {| ctx := ctx s; maxRecSec := maxRecSec s; recording := false;
         recorder := Some {| mimeType := m; state := inactive |};
         chunks := chunks s; timers := pre;
         stopEvents := S (stopEvents s); recBtn := "● Record";
         recTimer := (T - now0) / 1000;
         playback_src := playback_src s;
         buttons_disabled := buttons_disabled s |}.
Proof.
  intros Hm Hrec Ht Hr Hcap.
  assert (E : (60 <=? (T - now0) / 1000) = true).
  { apply Z.leb_le. apply Z.div_le_lower_bound; lia. }
  simpl. rewrite Ht, nth_error_last, remove_nth_last.
  unfold tick. simpl. rewrite Hrec, Hm. simpl. rewrite E.
  unfold stopRecording. simpl. rewrite Hr. simpl. reflexivity.
Qed.

(** A poll that sees the cap reached stops the recording. *)
Lemma tick_at_cap i tk now s :
  sound s -> recording s = true ->
  nth_error (timers s) i = Some tk ->
  60 * 1000 <= now - started tk ->
  exists s2 r s3,
    step sup (FireTick i now) s = Normal s2
    /\ recording s2 = false
    /\ recorder s2 = Some r /\ state r = inactive
    /\ timers s2 = remove_nth i (timers s)
    /\ stopEvents s2 = S (stopEvents s)
    /\ chunks s2 = chunks s
    /\ step sup RecorderStopped s2 = Normal s3
    /\ playback_src s3 = Some (Blob_of (chunks s2))
    /\ recording s3 = false
    /\ timers s3 = timers s2.
Proof.
  intros [Hm Hr] Hrec Ht Hcap. simpl. rewrite Ht.
  unfold tick. simpl. rewrite Hrec, Hm. simpl.
  assert (E : (60 <=? (now - started tk) / 1000) = true).
  { apply Z.leb_le. apply Z.div_le_lower_bound; lia. }
  rewrite E. unfold stopRecording. simpl.
  destruct (Hr Hrec) as (_ & r & Hrr & Hst). rewrite Hrr, Hst.
  eexists. exists {| mimeType := mimeType r; state := inactive |}.
  eexists. repeat split; reflexivity.
Qed.

(** C8.  From any state the recorder can reach in which nothing is being
    recorded, a click on the record button at clock reading [now0] starts
    a session.  Three parts.

    First, after the click let anything happen except a click on the
    record button (polls of this or of earlier sessions firing at any
    clock reading, data and stop events of recorders, clearing): every
    step returns, and in the state reached
    - while the flag is still set, the poll of this session is pending and
      is due before [now0] plus the cap of 60 s plus one poll interval of
      250 ms; so at a time [T] at which no pending timeout is overdue the
      flag can only be set if [T] is before that bound;
    - any pending poll that fires with the flag set when 60 s or more have
      elapsed since its start clears the flag, stops the recorder, which
      queues its [stop] event, and is not armed again; delivering the
      [stop] event builds the one blob of the recording from the
      chunks.

    Second, the click itself sets the flag, creates a recorder that is
    recording, empties the chunk list and arms the poll of the session,
    due 250 ms later.

    Third, a whole session: the poll of the session fires any number of
    times before 60 s have elapsed and then once at 60 s or later.  That
    last poll clears the flag, leaves the recorder inactive with its
    [stop] event queued and the button back to its first text, and arms
    nothing: the pending timeouts are those from before the click.  When
    the recorder has then delivered its data and the [stop] event, the
    player holds the one blob of the data that was not empty. *)
Theorem recording_stops_at_the_cap :
  forall (s0 : State) (now0 : Z) (es : list Event),
    reachable sup s0 -> recording s0 = false ->
    forallb (fun e => negb (is_click e)) es = true ->
    (exists s1,
      run sup (RecBtnClick now0 :: es) s0 = Normal s1
      /\ maxRecSec s1 = 60
      /\ (recording s1 = true ->
          exists tk, In tk (timers s1) /\ started tk = now0
                     /\ due tk < now0 + 60 * 1000 + 250)
      /\ (forall T,
            (forall tk, In tk (timers s1) -> T <= due tk) ->
            recording s1 = true -> T < now0 + 60 * 1000 + 250)
      /\ (forall i tk now,
            recording s1 = true ->
            nth_error (timers s1) i = Some tk ->
            60 * 1000 <= now - started tk ->
            exists s2 r s3,
              step sup (FireTick i now) s1 = Normal s2
              /\ recording s2 = false
              /\ recorder s2 = Some r /\ state r = inactive
              /\ timers s2 = remove_nth i (timers s1)
              /\ stopEvents s2 = S (stopEvents s1)
              /\ chunks s2 = chunks s1
              /\ step sup RecorderStopped s2 = Normal s3
              /\ playback_src s3 = Some (Blob_of (chunks s2))
              /\ recording s3 = false
              /\ timers s3 = timers s2))
    /\ (exists sA,
          step sup (RecBtnClick now0) s0 = Normal sA
          /\ recording sA = true
          /\ recorder sA = Some {| mimeType := preferredMime sup;
                                   state := recording_ |}
          /\ chunks sA = []
          /\ timers sA
             = timers s0 ++ [ {| started := now0; due := now0 + 250 |} ])
    /\ (forall (ts : list Z) (T : Z) (ds : list Blob),
          forallb (fun t => t <? now0 + 60 * 1000) ts = true ->
          now0 + 60 * 1000 <= T ->
          exists sB sC,
            run sup (RecBtnClick now0
                     :: List.map (FireTick (List.length (timers s0))) ts
                     ++ [FireTick (List.length (timers s0)) T]) s0
            = Normal sB
            /\ recording sB = false
            /\ recorder sB = Some {| mimeType := preferredMime sup;
                                     state := inactive |}
            /\ timers sB = timers s0
            /\ stopEvents sB = S (stopEvents s0)
            /\ recBtn sB = "● Record"%string
            /\ run sup (List.map DataAvailable ds ++ [RecorderStopped]) sB
               = Normal sC
            /\ recording sC = false
            /\ timers sC = timers s0
            /\ playback_src sC
               = Some (Blob_of (List.filter (fun d => 0 <? size d) ds))
            /\ buttons_disabled sC = false).
Proof.
  intros s0 now0 es Hreach Hoff Hes.
  pose proof (reachable_sound s0 Hreach) as Hs0.
  pose proof (start_click now0 s0 (proj1 Hs0) Hoff) as HA.
  split; [|split].
  - destruct (start_polled now0 s0 Hs0 Hoff) as (s' & Hstart & Hs' & Hp').
    destruct (run_polled now0 es s' Hes Hs' Hp') as (s1 & Hrun & Hs1 & Hp1).
    exists s1. split; [|split; [|split; [|split]]].
    + change (run sup (RecBtnClick now0 :: es) s0)
        with (match step sup (RecBtnClick now0) s0 with
              | Normal s'' => run sup es s''
              | Throw err s'' => Throw err s''
              end).
      rewrite Hstart. exact Hrun.
    + apply Hs1.
    + exact Hp1.
    + intros T HT Hrec. destruct (Hp1 Hrec) as (tk & Hin & _ & Hdue).
      specialize (HT tk Hin). lia.
    + intros i tk now Hrec Ht Hcap.
      exact (tick_at_cap i tk now s1 Hs1 Hrec Ht Hcap).
  - eexists. split; [exact HA|]. repeat split.
  - intros ts T ds Hts Hcap.
    match type of HA with _ = Normal ?x => set (sA := x) in HA end.
    destruct (polls_before_cap now0 (timers s0) ts sA (now0 + 250)
                (proj1 Hs0) eq_refl eq_refl Hts)
      as (s1 & d1 & H1 & Hm1 & Hrec1 & Ht1 & Hr1 & Hc1 & Hse1 & Hp1).
    simpl in Hr1, Hc1, Hse1, Hp1.
    pose proof (poll_at_cap now0 (timers s0) T s1 d1 _ Hm1 Hrec1 Ht1 Hr1 Hcap)
      as H2.
    match type of H2 with _ = Normal ?x => set (sB := x) in H2 end.
    destruct (data_run ds sB _ eq_refl)
      as (s3 & H3 & Hc3 & Hrec3 & Hr3 & Hse3 & Hm3).
    simpl in Hc3, Hrec3, Hr3, Hse3. rewrite Hc1 in Hc3. simpl in Hc3.
    exists sB, (onRecStop (set_stopEvents (stopEvents s1) s3)).
    split.
    { change (run sup (RecBtnClick now0 :: ?l) s0)
        with (match step sup (RecBtnClick now0) s0 with
              | Normal s' => run sup l s'
              | Throw err s' => Throw err s'
              end).
      rewrite HA. rewrite (run_app _ _ _ _ H1). cbn [run].
      rewrite H2. reflexivity. }
    split; [reflexivity|]. split; [reflexivity|]. split; [reflexivity|].
    split; [simpl; now rewrite Hse1|]. split; [reflexivity|].
    split.
    { rewrite (run_app _ _ _ _ H3). simpl. rewrite Hse3. reflexivity. }
    simpl. rewrite Hc3, Hrec3.
    split; [reflexivity|]. split; [|split; reflexivity].
    exact (data_run_timers ds sB s3 H3).
Qed.

(** C10.  [startRecording] while the flag is set and [stopRecording]
    while it is clear return at their first line, with the state (flag,
    recorder, chunks and everything else) as it was. *)
Theorem recorder_calls_out_of_state_are_noops :
  forall (now : Z) (s : State),
    (recording s = true -> startRecording sup now s = Normal s)
    /\ (recording s = false -> stopRecording s = Normal s).
Proof.
  intros now s. split; intros H.
  - unfold startRecording. now rewrite H.
  - unfold stopRecording. now rewrite H.
Qed.

End RecorderFacts.

Lemma recording_stops_at_the_cap_witness :
  exists sB sC,
    Recorder.run (fun _ => true)
      [Recorder.RecBtnClick 1000; Recorder.FireTick 0 1250;
       Recorder.FireTick 0 61000] Recorder.initial = Normal sB
    /\ Recorder.recording sB = false
    /\ Recorder.timers sB = []
    /\ Recorder.stopEvents sB = 1%nat
    /\ Recorder.run (fun _ => true)
         [Recorder.DataAvailable
            {| Recorder.size := 5; Recorder.type := "audio/webm" |};
          Recorder.RecorderStopped] sB = Normal sC
    /\ Recorder.playback_src sC
       = Some {| Recorder.size := 5; Recorder.type := "audio/webm" |}.
Proof.
  assert (Hcap : (1000 + 60 * 1000 <= 61000)%Z) by (vm_compute; discriminate).
  destruct (recording_stops_at_the_cap (fun _ => true) Recorder.initial
              1000%Z [Recorder.FireTick 0 1250]
              (Recorder.reachable_initial _) eq_refl eq_refl)
    as (_ & _ & H).
  destruct (H [1250%Z] 61000%Z
              [ {| Recorder.size := 5; Recorder.type := "audio/webm" |} ]
              eq_refl Hcap)
    as (sB & sC & H1 & H2 & _ & H3 & H4 & _ & H5 & _ & _ & H6 & _).
  exists sB, sC. split; [exact H1|]. split; [exact H2|].
  split; [exact H3|]. split; [exact H4|]. split; [exact H5|exact H6].
Defined.

Lemma recorder_calls_out_of_state_are_noops_witness :
  Recorder.stopRecording Recorder.initial = Normal Recorder.initial.
Proof.
  apply (recorder_calls_out_of_state_are_noops (fun _ => true) 0%Z
           Recorder.initial).
  reflexivity.
Defined.

(** ** Trigger path and choke *)

Section TriggerFacts.
Import Trigger.
Local Open Scope Q_scope.

Context {AudioBuffer : Type}.
Implicit Types s : State AudioBuffer.

Lemma playPad_without_context id velocity now s :
  ctx s = false -> playPad id velocity now s = Normal s.
Proof. intros H. unfold playPad. now rewrite H. Qed.

Lemma playPad_without_kit id velocity now s :
  ctx s = true -> buffers s !! kit s = None ->
  playPad id velocity now s = Throw TypeError s.
Proof. intros H1 H2. unfold playPad. now rewrite H1, H2. Qed.

Lemma playPad_without_buffer id velocity now s k :
  ctx s = true -> buffers s !! kit s = Some k -> k !! id = None ->
  playPad id velocity now s = Normal s.
Proof. intros H1 H2 H3. unfold playPad. now rewrite H1, H2, H3. Qed.

(** C2.  With no audio context the trigger returns at its first line
    and leaves the state alone.  With the context created and the kit not
    yet assigned ([initAudio] has not come back from its first [await], or
    [synthKit] failed), [state.buffers[state.kit]] is [undefined] and
    reading [kit[id]] throws a [TypeError]: the guard [if (!buf) return]
    only covers a kit without this buffer. *)
Theorem playPad_throws_before_the_kit_is_assigned :
  (forall id velocity now s,
      ctx s = false -> playPad id velocity now s = Normal s)
  /\ (forall id velocity now latency,
        playPad (AudioBuffer := AudioBuffer) id velocity now
                (initAudio (initial latency))
        = Throw TypeError (initAudio (initial latency)))
  /\ (forall id velocity now latency k,
        playPad (AudioBuffer := AudioBuffer) id velocity now
                (kitBtn_click (assign_kit "rock" k (initAudio (initial latency))))
        = Throw TypeError
            (kitBtn_click (assign_kit "rock" k (initAudio (initial latency)))))
  /\ (forall id velocity now s k,
        ctx s = true -> buffers s !! kit s = Some k -> k !! id = None ->
        playPad id velocity now s = Normal s).
Proof.
  split; [exact playPad_without_context|].
  split; [intros; now apply playPad_without_kit|].
  split; [intros; now apply playPad_without_kit|].
  exact playPad_without_buffer.
Qed.

(** *** The choke *)

Lemma insert_event_last e l :
  (forall x, In x l -> event_time x <= event_time e) ->
  insert_event e l = l ++ [e].
Proof.
  induction l as [|x l IH]; intros H; [reflexivity|].
  simpl. assert (Hx : Qltb (event_time e) (event_time x) = false).
  { apply Qltb_ge. apply H. now left. }
  rewrite Hx, IH; [reflexivity|]. intros y Hy. apply H. now right.
Qed.

Lemma cancelScheduledValues_before t g x :
  In x (events (cancelScheduledValues t g)) -> event_time x < t.
Proof.
  unfold cancelScheduledValues. simpl. intros H.
  apply List.filter_In in H. destruct H as [_ H]. now apply Qltb_lt.
Qed.

Lemma chokeHiHat_gain now s gOpen :
  gains s !! "hatO"%string = Some gOpen ->
  let s' := chokeHiHat now s in
  gains s' !! "hatO"%string
  = Some {| value := value gOpen;
            events := List.filter (fun e => Qltb (event_time e) now)
                                  (events gOpen)
                      ++ [setTargetAtTime (1 # 10000) now (1 # 100)] |}
  /\ (forall id, id <> "hatO"%string -> gains s' !! id = gains s !! id)
  /\ timers s' = timers s ++ [ChokeRestoreTimer 30]
  /\ ctx s' = ctx s /\ kit s' = kit s /\ buffers s' = buffers s
  /\ latencyMs s' = latencyMs s /\ playing s' = playing s.
Proof.
  intros Hg. unfold chokeHiHat. rewrite Hg. simpl.
  split; [|split; [|repeat split]].
  - rewrite lookup_insert_eq. unfold schedule. simpl. f_equal. f_equal.
    apply insert_event_last. intros x Hx.
    apply (cancelScheduledValues_before now gOpen) in Hx. simpl.
    now apply Qlt_le_weak.
  - intros id Hid. now rewrite lookup_insert_ne.
Qed.

(** *** The gain curve *)

Local Open Scope R_scope.

Lemma exp_le (x y : R) : x <= y -> exp x <= exp y.
Proof.
  intros [H| ->]; [left; now apply exp_increasing|right; reflexivity].
Qed.

Lemma exp_ge_1_plus (x : R) : 1 + x <= exp x.
Proof.
  destruct (Req_dec x 0) as [->|H].
  - rewrite exp_0. lra.
  - left. now apply exp_ineq1.
Qed.










End TriggerFacts.



(** ** Soft-clip table *)

Section SoftClipFacts.
Import SoftClip.
Local Open Scope R_scope.

Lemma tanh_exp (x : R) : tanh x = 1 - 2 / (exp (2 * x) + 1).
Proof.
  unfold tanh, sinh, cosh.
  replace (2 * x) with (x + x) by lra.
  rewrite exp_plus, exp_Ropp.
  pose proof (exp_pos x) as H.
  field. split; nra.
Qed.

Lemma tanh_le (x y : R) : x <= y -> tanh x <= tanh y.
Proof.
  intros H. rewrite !tanh_exp.
  assert (H1 : exp (2 * x) <= exp (2 * y)) by (apply exp_le; lra).
  pose proof (exp_pos (2 * x)) as Hx. pose proof (exp_pos (2 * y)) as Hy.
  assert (H2 : / (exp (2 * y) + 1) <= / (exp (2 * x) + 1)).
  { apply Rinv_le_contravar; lra. }
  unfold Rdiv. lra.
Qed.

Lemma tanh_lt (x y : R) : x < y -> tanh x < tanh y.
Proof.
  intros H. rewrite !tanh_exp.
  assert (H1 : exp (2 * x) < exp (2 * y)) by (apply exp_increasing; lra).
  pose proof (exp_pos (2 * x)) as Hx. pose proof (exp_pos (2 * y)) as Hy.
  assert (H2 : / (exp (2 * y) + 1) < / (exp (2 * x) + 1)).
  { apply Rinv_lt_contravar; [|lra]. apply Rmult_lt_0_compat; lra. }
  unfold Rdiv. lra.
Qed.

Lemma tanh_pos (x : R) : 0 < x -> 0 < tanh x.
Proof.
  intros H. rewrite tanh_exp.
  assert (H1 : 1 < exp (2 * x)).
  { rewrite <- exp_0. apply exp_increasing. lra. }
  assert (H2 : / (exp (2 * x) + 1) < / 2).
  { apply Rinv_lt_contravar; lra. }
  unfold Rdiv. lra.
Qed.

Lemma tanh_opp (x : R) : tanh (- x) = - tanh x.
Proof.
  unfold tanh, sinh, cosh. rewrite Ropp_involutive.
  pose proof (exp_pos x) as H1. pose proof (exp_pos (- x)) as H2.
  field. lra.
Qed.

Lemma tanh_0 : tanh 0 = 0.
Proof. unfold tanh. rewrite sinh_0, cosh_0. lra. Qed.

Lemma curve_le amount x y :
  0 < amount -> x <= y -> curve amount x <= curve amount y.
Proof.
  intros Ha Hxy. unfold curve.
  pose proof (tanh_pos (amount * 2) ltac:(lra)) as Hp.
  apply Rmult_le_compat_r; [left; now apply Rinv_0_lt_compat|].
  apply tanh_le. nra.
Qed.

Lemma curve_lt amount x y :
  0 < amount -> x < y -> curve amount x < curve amount y.
Proof.
  intros Ha Hxy. unfold curve.
  pose proof (tanh_pos (amount * 2) ltac:(lra)) as Hp.
  apply Rmult_lt_compat_r; [now apply Rinv_0_lt_compat|].
  apply tanh_lt. nra.
Qed.

Lemma curve_opp amount x : curve amount (- x) = - curve amount x.
Proof.
  unfold curve. replace (amount * 2 * - x) with (- (amount * 2 * x)) by lra.
  rewrite tanh_opp. unfold Rdiv. lra.
Qed.

Lemma curve_1 amount : 0 < amount -> curve amount 1 = 1.
Proof.
  intros Ha. unfold curve. rewrite Rmult_1_r.
  pose proof (tanh_pos (amount * 2) ltac:(lra)) as Hp.
  field. lra.
Qed.

Lemma curve_0 amount : curve amount 0 = 0.
Proof.
  unfold curve. rewrite Rmult_0_r, tanh_0. unfold Rdiv. lra.
Qed.

Lemma INR_1023 : INR (1024 - 1) = 1023.
Proof. rewrite INR_IZR_INZ. reflexivity. Qed.

Lemma table_input_1024 (i : nat) :
  table_input 1024 i = INR i / 1023 * 2 - 1.
Proof. unfold table_input. now rewrite INR_1023. Qed.

Lemma table_input_le (i j : nat) :
  (i <= j)%nat -> table_input 1024 i <= table_input 1024 j.
Proof.
  intros H. rewrite !table_input_1024. apply le_INR in H. lra.
Qed.

Lemma table_input_mirror (i : nat) :
  (i <= 1023)%nat -> table_input 1024 (1023 - i) = - table_input 1024 i.
Proof.
  intros H. rewrite !table_input_1024, minus_INR by exact H.
  replace (INR 1023) with 1023 by (rewrite INR_IZR_INZ; reflexivity).
  lra.
Qed.

Lemma makeSoftClipCurve_nth amount (i : nat) :
  (i < 1024)%nat ->
  nth i (makeSoftClipCurve amount) 0 = curve amount (table_input 1024 i).
Proof.
  intros H. unfold makeSoftClipCurve.
  rewrite (nth_indep _ 0 (curve amount (table_input 1024 0)))
    by (rewrite List.length_map, List.length_seq; exact H).
  rewrite (List.map_nth (fun i => curve amount (table_input 1024 i))).
  now rewrite List.seq_nth.
Qed.

(** C5.  The table installed in the wave shaper has 1024 entries; entry
    [i] is [tanh (0.9 * 2 * x) / tanh (0.9 * 2)] at [x = 2 i / 1023 - 1],
    which runs from -1 (entry 0) to 1 (entry 1023); the entries never
    decrease; the last is 1 and the first is -1; the curve is 0 at 0, and
    the table is odd about its middle, so that the two entries around the
    input 0 (511 and 512, there is no entry at 0 itself) cancel; every
    entry is within [[-1, 1]].  The last three parts pin the samples
    down: the input of entry [i] is [i / 1023 * 2 - 1] for every [i], the
    entry is the curve at that input written out, and the entries go up
    strictly, so no two of them are equal. *)
Theorem soft_clip_table_is_monotone_and_normalised :
  List.length shaper_curve = 1024%nat
  /\ (forall i, (i < 1024)%nat ->
        nth i shaper_curve 0
        = tanh (9 / 10 * 2 * table_input 1024 i) / tanh (9 / 10 * 2))
  /\ table_input 1024 0 = -1
  /\ table_input 1024 1023 = 1
  /\ (forall i, (i < 1024)%nat -> -1 <= table_input 1024 i <= 1)
  /\ (forall i j, (i <= j)%nat -> (j < 1024)%nat ->
        nth i shaper_curve 0 <= nth j shaper_curve 0)
  /\ nth 1023 shaper_curve 0 = 1
  /\ nth 0 shaper_curve 0 = -1
  /\ curve (9 / 10) 0 = 0
  /\ (forall i, (i < 1024)%nat ->
        nth (1023 - i) shaper_curve 0 = - nth i shaper_curve 0)
  /\ nth 511 shaper_curve 0 + nth 512 shaper_curve 0 = 0
  /\ (forall i, (i < 1024)%nat -> -1 <= nth i shaper_curve 0 <= 1)
  /\ (forall i : nat, table_input 1024 i = INR i / 1023 * 2 - 1)
  /\ (forall i, (i < 1024)%nat ->
        nth i shaper_curve 0
        = tanh (9 / 10 * 2 * (INR i / 1023 * 2 - 1)) / tanh (9 / 10 * 2))
  /\ (forall i j, (i < j)%nat -> (j < 1024)%nat ->
        nth i shaper_curve 0 < nth j shaper_curve 0).
Proof.
  assert (H0 : table_input 1024 0 = -1).
  { rewrite table_input_1024. simpl. lra. }
  assert (H1 : table_input 1024 1023 = 1).
  { rewrite table_input_1024.
    replace (INR 1023) with 1023 by (rewrite INR_IZR_INZ; reflexivity). lra. }
  assert (Hmirror : forall i, (i < 1024)%nat ->
            nth (1023 - i) shaper_curve 0 = - nth i shaper_curve 0).
  { intros i Hi. unfold shaper_curve.
    rewrite !makeSoftClipCurve_nth by lia.
    rewrite table_input_mirror by lia. apply curve_opp. }
  assert (Hmono : forall i j, (i <= j)%nat -> (j < 1024)%nat ->
            nth i shaper_curve 0 <= nth j shaper_curve 0).
  { intros i j Hij Hj. unfold shaper_curve.
    rewrite !makeSoftClipCurve_nth by lia.
    apply curve_le; [lra|]. now apply table_input_le. }
  assert (Hlast : nth 1023 shaper_curve 0 = 1).
  { unfold shaper_curve. rewrite makeSoftClipCurve_nth by lia.
    rewrite H1. apply curve_1. lra. }
  assert (Hfirst : nth 0 shaper_curve 0 = -1).
  { unfold shaper_curve. rewrite makeSoftClipCurve_nth by lia.
    rewrite H0. replace (-1) with (- (1)) by lra.
    rewrite curve_opp, curve_1; lra. }
  split; [|split; [|split; [|split; [|split; [|split; [|split; [|split;
    [|split; [|split; [|split; [|split; [|split; [|split]]]]]]]]]]]]].
  - unfold shaper_curve, makeSoftClipCurve.
    now rewrite List.length_map, List.length_seq.
  - intros i Hi. unfold shaper_curve. now rewrite makeSoftClipCurve_nth.
  - exact H0.
  - exact H1.
  - intros i Hi. rewrite <- H0, <- H1.
    split; apply table_input_le; lia.
  - exact Hmono.
  - exact Hlast.
  - exact Hfirst.
  - apply curve_0.
  - exact Hmirror.
  - change 512%nat with (1023 - 511)%nat. rewrite Hmirror by lia. lra.
  - intros i Hi. rewrite <- Hfirst, <- Hlast.
    split; apply Hmono; lia.
  - exact table_input_1024.
  - intros i Hi. unfold shaper_curve.
    rewrite makeSoftClipCurve_nth by exact Hi.
    unfold curve. now rewrite table_input_1024.
  - intros i j Hij Hj. unfold shaper_curve.
    rewrite !makeSoftClipCurve_nth by lia.
    apply curve_lt; [lra|]. rewrite !table_input_1024.
    apply lt_INR in Hij. lra.
Qed.

End SoftClipFacts.

Lemma soft_clip_table_is_monotone_and_normalised_witness :
  (nth 256 SoftClip.shaper_curve 0
   = tanh (9 / 10 * 2 * (INR 256 / 1023 * 2 - 1)) / tanh (9 / 10 * 2)
   /\ nth 511 SoftClip.shaper_curve 0 < 0 < nth 512 SoftClip.shaper_curve 0)%R.
Proof.
  destruct soft_clip_table_is_monotone_and_normalised
    as (_ & _ & _ & _ & _ & _ & _ & _ & _ & _ & H0 & _ & _ & Hf & Hlt).
  split; [apply (Hf 256%nat); lia|].
  assert (H : (nth 511 SoftClip.shaper_curve 0
               < nth 512 SoftClip.shaper_curve 0)%R)
    by (apply (Hlt 511%nat 512%nat); lia).
  lra.
Defined.

(** ** Synthesis *)

Section SynthFacts.
Import Synth.
Local Open Scope R_scope.

(** *** Lengths *)

Lemma fill_length f n : forall i prev, List.length (fill f n i prev) = n.
Proof. induction n as [|n IH]; intros; simpl; auto. Qed.

Lemma dc_filter_length xs : forall prev y,
  List.length (dc_filter xs prev y) = List.length xs.
Proof. induction xs as [|x xs IH]; intros; simpl; auto. Qed.

Lemma make_length rnd flavor v :
  List.length (channelData (make rnd sample_rate flavor v))
  = Z.to_nat (Math_round (duration v * inject_Z sample_rate)).
Proof.
  destruct v; unfold make, synthKick, synthSnare, synthHat, synthTom,
    synthCymbal, renderToBuffer; cbn [channelData];
    rewrite dc_filter_length, fill_length; reflexivity.
Qed.

Example buffer_lengths :
  List.map (fun v => Math_round (duration v * inject_Z sample_rate)) voices
  = [44100; 44100; 11025; 70560; 5292; 52920; 52920; 52920; 123480; 154350]%Z.
Proof. reflexivity. Qed.

(** *** The smoothing pass *)

(** With [h = prev - y] the pass is [y' = x - h'] for the running average
    [h' = 0.005 * prev + 0.995 * h] of the samples read so far.  When the
    samples stay in [[a, b]], which holds 0, the outputs stay in
    [[a - b, b - a]]. *)
Lemma dc_filter_range (a b : R) xs : forall prev y,
  Forall (fun x => a <= x <= b) xs ->
  a <= prev <= b -> a <= prev - y <= b ->
  Forall (fun y' => a - b <= y' <= b - a) (dc_filter xs prev y).
Proof.
  induction xs as [|x xs IH]; intros prev y Hxs Hp Hh; simpl; [constructor|].
  inversion Hxs as [|? ? Hx Hxs']; subst.
  constructor; [lra|].
  apply IH; [assumption|lra|lra].
Qed.

Lemma fill_Forall (P : R -> Prop) f n : forall i prev,
  (forall j p, P (f j p)) -> Forall P (fill f n i prev).
Proof.
  induction n as [|n IH]; intros i prev H; simpl; constructor; auto.
Qed.

(** *** Bounds on the raw samples *)

Lemma time_of_nonneg i : 0 <= time_of sample_rate i.
Proof.
  unfold time_of, sample_rate. pose proof (pos_INR i).
  apply Rmult_le_pos; [assumption|lra].
Qed.

Lemma exp_decay_bound (t c : R) : 0 <= t -> 0 <= c -> 0 < exp (- t * c) <= 1.
Proof.
  intros Ht Hc. split; [apply exp_pos|].
  rewrite <- exp_0. apply exp_le. nra.
Qed.

Lemma noise_bound rnd i : noise_source rnd -> -1 <= rnd i * 2 - 1 <= 1.
Proof. intros H. specialize (H i). lra. Qed.

(** [|a * e| <= m] when [|a| <= m] and [0 <= e <= 1]. *)
Lemma scaled_bound (a e m : R) :
  - m <= a <= m -> 0 <= e <= 1 -> - m <= a * e <= m.
Proof. intros Ha He. split; nra. Qed.

Lemma tom_raw_bound flavor freq i :
  let t := time_of sample_rate i in
  let damp := if is_rock flavor then 6 else 4 in
  - (95 / 100)
  <= sin (2 * PI * (freq * (1 + 15 / 100 * exp (- t * 20))) * t)
     * exp (- t * damp) * (95 / 100)
  <= 95 / 100.
Proof.
  intros t damp.
  pose proof (SIN_bound (2 * PI * (freq * (1 + 15 / 100 * exp (- t * 20))) * t)) as Hs.
  assert (He : 0 < exp (- t * damp) <= 1).
  { apply exp_decay_bound; [apply time_of_nonneg|].
    unfold damp. destruct (is_rock flavor); lra. }
  set (s := sin _) in *. set (e := exp (- t * damp)) in *.
  split; nra.
Qed.

Lemma cymbal_raw_bound rnd flavor (type : CymbalType) i :
  noise_source rnd ->
  let t := time_of sample_rate i in
  let env := exp (- t * match type with ride => 7 / 10 | crash => 12 / 10 end) in
  let metal := (sin (2 * PI * 211 * t) + sin (2 * PI * 318 * t)
                + sin (2 * PI * 477 * t) + sin (2 * PI * 587 * t)
                + sin (2 * PI * 751 * t)) / 5 in
  let noise := (rnd i * 2 - 1) * (6 / 10) in
  let brightness := if is_rock flavor then 1 else 8 / 10 in
  - (88 / 100)
  <= (metal * (7 / 10) + noise * (3 / 10)) * env * brightness
  <= 88 / 100.
Proof.
  intros Hrnd t env metal noise brightness.
  pose proof (SIN_bound (2 * PI * 211 * t)) as H1.
  pose proof (SIN_bound (2 * PI * 318 * t)) as H2.
  pose proof (SIN_bound (2 * PI * 477 * t)) as H3.
  pose proof (SIN_bound (2 * PI * 587 * t)) as H4.
  pose proof (SIN_bound (2 * PI * 751 * t)) as H5.
  pose proof (noise_bound rnd i Hrnd) as Hn.
  assert (He : 0 < env <= 1).
  { apply exp_decay_bound; [apply time_of_nonneg|destruct type; lra]. }
  assert (Hb : 0 < brightness <= 1).
  { unfold brightness. destruct (is_rock flavor); lra. }
  assert (Hm : - (88 / 100) <= metal * (7 / 10) + noise * (3 / 10) <= 88 / 100).
  { unfold metal, noise. lra. }
  assert (Heb : 0 <= env * brightness <= 1) by nra.
  rewrite Rmult_assoc. apply scaled_bound; assumption.
Qed.

Lemma snare_raw_bound rnd flavor i :
  noise_source rnd ->
  let t := time_of sample_rate i in
  let tone := if is_rock flavor then 210 else 180 in
  let noiseAmt := if is_rock flavor then 75 / 100 else 9 / 10 in
  - (17 / 10)
  <= (rnd i * 2 - 1) * exp (- t * 8) * noiseAmt
     + sin (2 * PI * tone * t) * exp (- t * 12) * (8 / 10)
  <= 17 / 10.
Proof.
  intros Hrnd t tone noiseAmt.
  pose proof (SIN_bound (2 * PI * tone * t)) as Hs.
  pose proof (noise_bound rnd i Hrnd) as Hn.
  assert (H8 : 0 < exp (- t * 8) <= 1)
    by (apply exp_decay_bound; [apply time_of_nonneg|lra]).
  assert (H12 : 0 < exp (- t * 12) <= 1)
    by (apply exp_decay_bound; [apply time_of_nonneg|lra]).
  assert (Ha : 0 < noiseAmt <= 9 / 10).
  { unfold noiseAmt. destruct (is_rock flavor); lra. }
  assert (N : -1 <= (rnd i * 2 - 1) * exp (- t * 8) <= 1)
    by (apply scaled_bound; lra).
  assert (B : -1 <= sin (2 * PI * tone * t) * exp (- t * 12) <= 1)
    by (apply scaled_bound; lra).
  set (n := (rnd i * 2 - 1) * exp (- t * 8)) in *.
  set (b := sin (2 * PI * tone * t) * exp (- t * 12)) in *.
  split; nra.
Qed.

Lemma PI_bounds : 314 / 100 <= PI <= 315 / 100.
Proof.
  pose proof (PI_2_3_7_ineq 1) as [Hlo Hhi].
  unfold sum_f_R0, tg_alt, PI_2_3_7_tg, Ratan_seq in Hlo, Hhi.
  simpl in Hlo, Hhi.
  split; lra.
Qed.

(** *** The kick: the click ends after 5 ms *)

Lemma pow_le_1_antitone (q : R) (n m : nat) :
  0 <= q <= 1 -> (n <= m)%nat -> q ^ m <= q ^ n.
Proof.
  intros Hq Hnm. induction Hnm as [|m Hnm IH]; [lra|].
  simpl. assert (0 <= q ^ m) by (apply pow_le; lra). nra.
Qed.

(** The outputs of the pass when the samples are bounded by [M] and
    sample [i + j] by [B (i + j)]: the running average of [i] samples is at
    most [M * (1 - 0.995 ^ i)] in size. *)
Lemma dc_filter_decay (M : R) (B : nat -> R) xs : forall i prev y,
  (forall j x, nth_error xs j = Some x ->
     - B (i + j)%nat <= x <= B (i + j)%nat /\ - M <= x <= M) ->
  - M <= prev <= M ->
  - (M * (1 - (995 / 1000) ^ i)) <= prev - y <= M * (1 - (995 / 1000) ^ i) ->
  forall j y', nth_error (dc_filter xs prev y) j = Some y' ->
    - (B (i + j)%nat + M * (1 - (995 / 1000) ^ S (i + j)))
    <= y'
    <= B (i + j)%nat + M * (1 - (995 / 1000) ^ S (i + j)).
Proof.
  induction xs as [|x xs IH]; intros i prev y Hxs Hp Hh j y' Hj;
    [destruct j; discriminate|].
  destruct (Hxs 0%nat x eq_refl) as [HB HM].
  assert (Hq : 0 <= (995 / 1000) ^ i) by (apply pow_le; lra).
  set (q := (995 / 1000) ^ i) in *.
  assert (Hh' : - (M * (1 - (995 / 1000) ^ S i))
                <= x - (x - prev + 995 / 1000 * y)
                <= M * (1 - (995 / 1000) ^ S i)).
  { simpl. fold q. split; nra. }
  destruct j as [|j]; simpl in Hj.
  - inversion Hj; subst. rewrite Nat.add_0_r in *. lra.
  - replace (i + S j)%nat with (S i + j)%nat by lia.
    apply (IH (S i) x (x - prev + 995 / 1000 * y)); try assumption.
    intros k z Hk. replace (S i + k)%nat with (i + S k)%nat by lia.
    apply (Hxs (S k) z Hk).
Qed.

Lemma fill_nth f n : forall i prev j x,
  (forall k p p', f k p = f k p') ->
  nth_error (fill f n i prev) j = Some x -> x = f (i + j)%nat 0.
Proof.
  induction n as [|n IH]; intros i prev j x Hf Hj;
    [destruct j; discriminate|].
  destruct j as [|j]; simpl in Hj.
  - inversion Hj. rewrite Nat.add_0_r. apply Hf.
  - replace (i + S j)%nat with (S i + j)%nat by lia.
    exact (IH (S i) (f i prev) j x Hf Hj).
Qed.

Lemma kick_raw_bound rnd flavor i :
  noise_source rnd ->
  let t := time_of sample_rate i in
  let punch := if is_rock flavor then 1 else 7 / 10 in
  let f0 := if is_rock flavor then 90 else 70 in
  let x := 9 / 10 * sin (2 * PI * (30 + (f0 - 30) * exp (- t * 30)) * t)
                * exp (- t * 5)
           + (if Rlt_dec t (5 / 1000) then 1 - t / (5 / 1000) else 0) * punch
             * (rnd i * 2 - 1) * (2 / 10) in
  - (11 / 10) <= x <= 11 / 10
  /\ ((221 <= i)%nat -> - (9 / 10) <= x <= 9 / 10).
Proof.
  intros Hrnd t punch f0 x.
  pose proof (SIN_bound (2 * PI * (30 + (f0 - 30) * exp (- t * 30)) * t)) as Hs.
  pose proof (noise_bound rnd i Hrnd) as Hn.
  pose proof (time_of_nonneg i) as Ht. fold t in Ht.
  assert (He : 0 < exp (- t * 5) <= 1) by (apply exp_decay_bound; lra).
  assert (Hp : 0 < punch <= 1).
  { unfold punch. destruct (is_rock flavor); lra. }
  assert (Hbody : - (9 / 10)
                  <= 9 / 10 * sin (2 * PI * (30 + (f0 - 30) * exp (- t * 30)) * t)
                     * exp (- t * 5)
                  <= 9 / 10).
  { set (s := sin _) in *. set (e := exp (- t * 5)) in *. split; nra. }
  split.
  - assert (Hc : 0 <= (if Rlt_dec t (5 / 1000) then 1 - t / (5 / 1000) else 0)
                 <= 1).
    { destruct (Rlt_dec t (5 / 1000)); lra. }
    assert (Hcn : -1 <= (if Rlt_dec t (5 / 1000) then 1 - t / (5 / 1000) else 0)
                        * punch * (rnd i * 2 - 1) <= 1).
    { set (c := if Rlt_dec t (5 / 1000) then _ else _) in *.
      assert (0 <= c * punch <= 1) by nra.
      set (cp := c * punch) in *. split; nra. }
    unfold x. set (c := if Rlt_dec t (5 / 1000) then _ else _ ) in *.
    set (b := 9 / 10 * _ * _) in *. lra.
  - intros Hi.
    assert (Hlate : 5 / 1000 <= t).
    { unfold t, time_of, sample_rate. apply le_INR in Hi.
      replace (INR 221) with 221 in Hi by (rewrite INR_IZR_INZ; reflexivity).
      lra. }
    unfold x. destruct (Rlt_dec t (5 / 1000)); [lra|].
    set (b := 9 / 10 * _ * _) in *. lra.
Qed.

Lemma kick_bound rnd flavor :
  noise_source rnd ->
  Forall (fun y => -2 <= y <= 2)
         (channelData (synthKick rnd sample_rate flavor)).
Proof.
  intros Hrnd. apply List.Forall_forall. intros y Hy.
  apply In_nth_error in Hy. destruct Hy as [j Hj].
  unfold synthKick, renderToBuffer in Hj. cbn [channelData] in Hj.
  match type of Hj with
  | nth_error (dc_filter (fill ?f ?n 0%nat 0) 0 0) j = _ =>
      set (g := f) in *; set (len := n) in *
  end.
  assert (Hraw : forall k x, nth_error (fill g len 0%nat 0) k = Some x ->
            - (if (0 + k <=? 220)%nat then 11 / 10 else 9 / 10) <= x
              <= (if (0 + k <=? 220)%nat then 11 / 10 else 9 / 10)
            /\ - (11 / 10) <= x <= 11 / 10).
  { intros k x Hk.
    apply (fill_nth g len 0%nat 0 k x ltac:(reflexivity)) in Hk.
    simpl in Hk. subst x.
    destruct (kick_raw_bound rnd flavor k Hrnd) as [Hall Hlate].
    split; [|exact Hall]. simpl.
    destruct (k <=? 220)%nat eqn:E; [exact Hall|].
    apply Nat.leb_gt in E. apply Hlate. lia. }
  pose proof (dc_filter_decay (11 / 10)
                (fun k => if (k <=? 220)%nat then 11 / 10 else 9 / 10)
                (fill g len 0%nat 0) 0%nat 0 0 Hraw
                ltac:(lra) ltac:(simpl; lra) j y Hj) as H.
  simpl Nat.add in H. cbv beta in H.
  assert (Hq : 2 / 10 <= (995 / 1000) ^ 221) by lra.
  assert (Hpos : 0 <= (995 / 1000) ^ S j) by (apply pow_le; lra).
  destruct (j <=? 220)%nat eqn:E.
  - apply Nat.leb_le in E.
    assert (Hm : (995 / 1000) ^ 221 <= (995 / 1000) ^ S j).
    { apply pow_le_1_antitone; [lra|lia]. }
    lra.
  - lra.
Qed.

Lemma tom_bound flavor freq :
  Forall (fun y => -2 <= y <= 2)
         (channelData (synthTom sample_rate freq flavor)).
Proof.
  unfold synthTom, renderToBuffer. cbn [channelData].
  eapply List.Forall_impl;
    [|apply (dc_filter_range (- (95 / 100)) (95 / 100)); [|lra|lra]].
  - intros y Hy. cbv beta in Hy. lra.
  - apply fill_Forall. intros j _. apply tom_raw_bound.
Qed.

Lemma cymbal_bound rnd type flavor :
  noise_source rnd ->
  Forall (fun y => -2 <= y <= 2)
         (channelData (synthCymbal rnd sample_rate type flavor)).
Proof.
  intros Hrnd. unfold synthCymbal, renderToBuffer. cbn [channelData].
  eapply List.Forall_impl;
    [|apply (dc_filter_range (- (88 / 100)) (88 / 100)); [|lra|lra]].
  - intros y Hy. cbv beta in Hy. lra.
  - apply fill_Forall. intros j _. now apply cymbal_raw_bound.
Qed.

Lemma snare_bound rnd flavor :
  noise_source rnd ->
  Forall (fun y => - (34 / 10) <= y <= 34 / 10)
         (channelData (synthSnare rnd sample_rate flavor)).
Proof.
  intros Hrnd. unfold synthSnare, renderToBuffer. cbn [channelData].
  eapply List.Forall_impl;
    [|apply (dc_filter_range (- (17 / 10)) (17 / 10)); [|lra|lra]].
  - intros y Hy. cbv beta in Hy. lra.
  - apply fill_Forall. intros j _. now apply snare_raw_bound.
Qed.

(** *** The hi-hats *)

(** A sample of the hi-hat is below the others (the sign term is -1)
    only where one of the three square waves is exactly at a zero
    crossing, and that happens at multiples of 735 samples only. *)

Lemma Math_sign_0 x : Math_sign x = 0%Z -> x = 0.
Proof.
  unfold Math_sign. destruct (Rlt_dec 0 x); [discriminate|].
  destruct (Rlt_dec x 0); [discriminate|]. intros _. lra.
Qed.

Lemma Math_sign_cases x :
  Math_sign x = 1%Z \/ Math_sign x = (-1)%Z \/ Math_sign x = 0%Z.
Proof.
  unfold Math_sign. destruct (Rlt_dec 0 x); [now left|].
  destruct (Rlt_dec x 0); [right; now left|right; now right].
Qed.

Lemma xor3_zero a b c :
  (a = 1 \/ a = -1 \/ a = 0)%Z -> (b = 1 \/ b = -1 \/ b = 0)%Z ->
  (c = 1 \/ c = -1 \/ c = 0)%Z ->
  Z.lxor (Z.lxor a b) c = 0%Z -> (a = 0 \/ b = 0 \/ c = 0)%Z.
Proof.
  intros [-> | [-> | ->]] [-> | [-> | ->]] [-> | [-> | ->]]; simpl; intros H;
    try discriminate; auto.
Qed.

(** [sin (2 pi f i / 44100) = 0] makes [44100] divide [2 f i]. *)
Lemma sin_zero_divides (f : Z) (i : nat) :
  sin (2 * PI * IZR f * time_of sample_rate i) = 0 ->
  (44100 | 2 * f * Z.of_nat i)%Z.
Proof.
  intros H. apply sin_eq_0_0 in H. destruct H as [k Hk].
  exists k. apply eq_IZR.
  rewrite !mult_IZR, <- INR_IZR_INZ.
  unfold time_of, sample_rate in Hk.
  pose proof PI_RGT_0 as Hpi.
  assert (E : 2 * IZR f * INR i = IZR k * 44100).
  { apply (Rmult_eq_reg_l PI); [|lra].
    replace (PI * (IZR k * 44100)) with (IZR k * PI * 44100) by ring.
    rewrite <- Hk. field. }
  exact E.
Qed.

Lemma zero_crossing_735 (f : Z) (i : nat) :
  (f = 215 \/ f = 341 \/ f = 456)%Z ->
  sin (2 * PI * IZR f * time_of sample_rate i) = 0 ->
  (735 | Z.of_nat i)%Z.
Proof.
  intros Hf H. apply sin_zero_divides in H. destruct H as [k Hk].
  destruct Hf as [-> | [-> | ->]].
  - apply Z.divide_trans with 4410%Z; [exists 6%Z; reflexivity|].
    apply (Z.gauss 4410 43); [exists k; lia|reflexivity].
  - apply Z.divide_trans with 22050%Z; [exists 30%Z; reflexivity|].
    apply (Z.gauss 22050 341); [exists k; lia|reflexivity].
  - apply Z.divide_trans with 3675%Z; [exists 5%Z; reflexivity|].
    apply (Z.gauss 3675 76); [exists k; lia|reflexivity].
Qed.

(** A one-pole low-pass [x' = x * alpha + (1 - alpha) * n] with
    [alpha >= 1/4], fed with values [n] in [[-1, 1.2]] that are negative at
    isolated indices only, stays in [[-0.8, 1.2]]. *)
Lemma fill_low_pass (f : nat -> R -> R) (alpha : R) (bad : nat -> Prop) :
  1 / 4 <= alpha <= 1 ->
  (forall i prev, exists n,
      f i prev = prev * alpha + (1 - alpha) * n
      /\ -1 <= n <= 12 / 10 /\ (~ bad i -> 0 <= n)) ->
  (forall i, bad (S i) -> ~ bad i) ->
  forall n i prev,
    - (8 / 10) <= prev <= 12 / 10 ->
    (bad i -> - (8 / 10) * alpha <= prev) ->
    Forall (fun x => - (8 / 10) <= x <= 12 / 10) (fill f n i prev).
Proof.
  intros Ha Hf Hbad. induction n as [|n IH]; intros i prev Hp Hb;
    simpl; [constructor|].
  destruct (Hf i prev) as (m & Hm & Hrange & Hgood).
  assert (Hup : f i prev <= 12 / 10) by (rewrite Hm; nra).
  assert (Hgood' : ~ bad i -> - (8 / 10) * alpha <= f i prev).
  { intros Hg. specialize (Hgood Hg). rewrite Hm. nra. }
  assert (Hlow : - (8 / 10) <= f i prev).
  { destruct (Classical_Prop.classic (bad i)) as [Hi|Hi].
    - specialize (Hb Hi). rewrite Hm. nra.
    - specialize (Hgood' Hi). nra. }
  constructor; [lra|].
  apply IH; [lra|]. intros Hs. apply Hgood'. now apply Hbad.
Qed.

Lemma exp_double (a : R) : exp (2 * a) = exp a * exp a.
Proof. replace (2 * a) with (a + a) by lra. apply exp_plus. Qed.

(** [e^-x >= (1 - x/16)^16] for [0 <= x <= 16]. *)
Lemma exp_neg_ge_pow16 (x : R) :
  0 <= x <= 16 -> (1 - x / 16) ^ 16 <= exp (- x).
Proof.
  intros Hx.
  assert (H : 1 - x / 16 <= exp (- x / 16)).
  { replace (1 - x / 16) with (1 + - x / 16) by lra. apply exp_ge_1_plus. }
  set (a := - x / 16) in *.
  assert (E : exp (- x) = exp a ^ 16).
  { replace (- x) with (2 * (2 * (2 * (2 * a)))) by (unfold a; lra).
    rewrite !exp_double. ring. }
  rewrite E. apply pow_incr. lra.
Qed.

Lemma hat_alpha_bound flavor :
  let br := if is_rock flavor then 9000 else 7000 in
  1 / 4 <= exp (- 2 * PI * br / IZR sample_rate) <= 1.
Proof.
  intros br. pose proof PI_bounds as [Hlo Hhi].
  assert (Hbr : 7000 <= br <= 9000).
  { unfold br. destruct (is_rock flavor); lra. }
  set (x := 2 * PI * br / IZR sample_rate).
  assert (Hx : 0 <= x <= 12858 / 10000).
  { unfold x, sample_rate. split.
    - apply Rmult_le_pos; [nra|lra].
    - assert (2 * PI * br <= 2 * (315 / 100) * 9000) by nra. lra. }
  replace (- 2 * PI * br / IZR sample_rate) with (- x) by (unfold x; lra).
  split.
  - apply Rle_trans with ((1 - x / 16) ^ 16);
      [|apply exp_neg_ge_pow16; lra].
    apply Rle_trans with ((1 - 12858 / 10000 / 16) ^ 16); [lra|].
    apply pow_incr. lra.
  - rewrite <- exp_0. apply exp_le. lra.
Qed.

Lemma hat_raw_bound rnd (type : HatType) flavor :
  noise_source rnd ->
  forall len,
  Forall (fun x => - (8 / 10) <= x <= 12 / 10)
    (fill (fun i prev =>
            let t := time_of sample_rate i in
            let env := match type with
                       | open => exp (- t * 3)
                       | _ => exp (- t * 35)
                       end in
            let s := Z.lxor
                       (Z.lxor (Math_sign (sin (2 * PI * 215 * t)))
                               (Math_sign (sin (2 * PI * 341 * t))))
                       (Math_sign (sin (2 * PI * 456 * t))) in
            let n := ((if Z.eqb s 0 then -1 else 1) + rnd i * (2 / 10)) * env in
            let alpha :=
              exp (- 2 * PI * (if is_rock flavor then 9000 else 7000)
                   / IZR sample_rate) in
            prev * alpha + (1 - alpha) * n)
          len 0 0).
Proof.
  intros Hrnd len.
  apply (fill_low_pass _
           (exp (- 2 * PI * (if is_rock flavor then 9000 else 7000)
                 / IZR sample_rate))
           (fun i => (735 | Z.of_nat i)%Z)).
  - apply hat_alpha_bound.
  - intros i prev. eexists. split; [reflexivity|].
    set (t := time_of sample_rate i).
    pose proof (Hrnd i) as Hr.
    assert (He : 0 < match type with
                     | open => exp (- t * 3)
                     | _ => exp (- t * 35)
                     end <= 1).
    { destruct type; apply exp_decay_bound;
        try apply time_of_nonneg; lra. }
    set (env := match type with open => _ | _ => _ end) in *.
    set (s := Z.lxor _ _).
    split.
    + destruct (Z.eqb s 0); split; nra.
    + intros Hgood. destruct (Z.eqb s 0) eqn:E; [|nra].
      exfalso. apply Hgood. apply Z.eqb_eq in E. unfold s in E.
      apply xor3_zero in E; try apply Math_sign_cases.
      destruct E as [E|[E|E]]; apply Math_sign_0 in E.
      * apply (zero_crossing_735 215 i); [now left|exact E].
      * apply (zero_crossing_735 341 i); [right; now left|exact E].
      * apply (zero_crossing_735 456 i); [right; now right|exact E].
  - intros i [k Hk] [k' Hk']. lia.
  - lra.
  - intros _. pose proof (hat_alpha_bound flavor) as H. simpl in H. lra.
Qed.

Lemma hat_bound rnd type flavor :
  noise_source rnd ->
  Forall (fun y => -2 <= y <= 2)
         (channelData (synthHat rnd sample_rate type flavor)).
Proof.
  intros Hrnd. unfold synthHat, renderToBuffer. cbn [channelData].
  eapply List.Forall_impl;
    [|apply (dc_filter_range (- (8 / 10)) (12 / 10)); [|lra|lra]].
  - intros y Hy. cbv beta in Hy. lra.
  - apply (hat_raw_bound rnd type flavor Hrnd).
Qed.

End SynthFacts.

Section SnareCounterexample.
Import Synth.
Local Open Scope R_scope.

Ltac push_Q2R :=
  repeat (rewrite Q2R_plus || rewrite Q2R_minus || rewrite Q2R_mult
          || rewrite Q2R_opp).

Lemma Q2R_nat_Q (n : nat) : Q2R (nat_Q n) = INR n.
Proof.
  unfold nat_Q, Q2R. simpl. rewrite INR_IZR_INZ. lra.
Qed.

Lemma Q2R_round_down (q : Q) : Q2R (round_down q) <= Q2R q.
Proof.
  unfold round_down.
  assert (H : (inject_Z (Qfloor (q * inject_Z (10 ^ 12)))
               <= q * inject_Z (10 ^ 12))%Q) by apply Qfloor_le.
  apply Qle_Rle in H. rewrite Q2R_mult in H.
  set (z := Qfloor (q * inject_Z (10 ^ 12))) in *.
  assert (E : Q2R (inject_Z (10 ^ 12)) = 1000000000000).
  { unfold Q2R. simpl. lra. }
  rewrite E in H.
  assert (E2 : Q2R (inject_Z z) = IZR z).
  { unfold Q2R. simpl. lra. }
  rewrite E2 in H.
  assert (E3 : Q2R (z # 10 ^ 12) = IZR z / 1000000000000).
  { unfold Q2R. simpl. reflexivity. }
  rewrite E3. lra.
Qed.

(** The outputs of the smoothing pass from above: sample [j] is at most
    the raw sample minus a lower bound of the running average. *)
Lemma dc_filter_nth_upper (L : nat -> Q) xs : forall i prev y a j x,
  (forall k z, (k < j)%nat -> nth_error xs k = Some z ->
               Q2R (L (i + k)%nat) <= z) ->
  Q2R a <= 5 / 1000 * prev + 995 / 1000 * (prev - y) ->
  nth_error xs j = Some x ->
  exists y', nth_error (dc_filter xs prev y) j = Some y'
             /\ y' <= x - Q2R (avg_lo L i a j).
Proof.
  induction xs as [|x0 xs IH]; intros i prev y a j x HL Ha Hj;
    [destruct j; discriminate|].
  destruct j as [|j]; simpl in Hj.
  - inversion Hj; subst. eexists. split; [reflexivity|]. simpl. lra.
  - simpl dc_filter. simpl nth_error.
    assert (H0 : Q2R (L i) <= x0).
    { specialize (HL 0%nat x0 ltac:(lia) eq_refl).
      now rewrite Nat.add_0_r in HL. }
    apply (IH (S i) x0 (x0 - prev + 995 / 1000 * y)
              (round_down ((995 # 1000) * a + (5 # 1000) * L i)) j x).
    + intros k z Hk Hz. replace (S i + k)%nat with (i + S k)%nat by lia.
      apply (HL (S k) z); [lia|exact Hz].
    + eapply Rle_trans; [apply Q2R_round_down|].
      push_Q2R.
      replace (Q2R (995 # 1000)) with (995 / 1000) by (unfold Q2R; simpl; lra).
      replace (Q2R (5 # 1000)) with (5 / 1000) by (unfold Q2R; simpl; lra).
      lra.
    + exact Hj.
Qed.

Lemma fill_nth_value (g : nat -> R) n : forall i prev j,
  (j < n)%nat ->
  nth_error (fill (fun k _ => g k) n i prev) j = Some (g (i + j)%nat).
Proof.
  induction n as [|n IH]; intros i prev j Hj; [lia|].
  destruct j as [|j]; simpl.
  - now rewrite Nat.add_0_r.
  - replace (i + S j)%nat with (S i + j)%nat by lia. apply IH. lia.
Qed.

(** *** Bounds on the sine *)

Lemma sin_lb_poly (x : R) :
  sin_lb x = x - x ^ 3 / 6 + x ^ 5 / 120 - x ^ 7 / 5040.
Proof.
  unfold sin_lb, sin_approx, sin_term. cbn [sum_f_R0].
  change (2 * 0 + 1)%nat with 1%nat. change (2 * 1 + 1)%nat with 3%nat.
  change (2 * 2 + 1)%nat with 5%nat. change (2 * 3 + 1)%nat with 7%nat.
  replace (INR (fact 1)) with 1 by (rewrite INR_IZR_INZ; reflexivity).
  replace (INR (fact 3)) with 6 by (rewrite INR_IZR_INZ; reflexivity).
  replace (INR (fact 5)) with 120 by (rewrite INR_IZR_INZ; reflexivity).
  replace (INR (fact 7)) with 5040 by (rewrite INR_IZR_INZ; reflexivity).
  field.
Qed.

Lemma sin_ge_poly (x lo hi : R) :
  0 <= lo <= x -> x <= hi -> x <= PI ->
  lo - hi ^ 3 / 6 + lo ^ 5 / 120 - hi ^ 7 / 5040 <= sin x.
Proof.
  intros Hlo Hhi Hpi.
  destruct (SIN x ltac:(lra) Hpi) as [H _]. rewrite sin_lb_poly in H.
  assert (H3 : x ^ 3 <= hi ^ 3) by (apply pow_incr; lra).
  assert (H5 : lo ^ 5 <= x ^ 5) by (apply pow_incr; lra).
  assert (H7 : x ^ 7 <= hi ^ 7) by (apply pow_incr; lra).
  lra.
Qed.

Lemma Q2R_phi_lo m : Q2R (phi_lo m) = 314 / 24500 * INR m.
Proof.
  unfold phi_lo. rewrite Q2R_mult, Q2R_nat_Q.
  replace (Q2R (314 # 24500)) with (314 / 24500) by (unfold Q2R; simpl; lra).
  reflexivity.
Qed.

Lemma Q2R_phi_hi m : Q2R (phi_hi m) = 315 / 24500 * INR m.
Proof.
  unfold phi_hi. rewrite Q2R_mult, Q2R_nat_Q.
  replace (Q2R (315 # 24500)) with (315 / 24500) by (unfold Q2R; simpl; lra).
  reflexivity.
Qed.

Lemma phi_between m :
  Q2R (phi_lo m) <= PI * INR m / 245 <= Q2R (phi_hi m)
  /\ 0 <= Q2R (phi_lo m).
Proof.
  rewrite Q2R_phi_lo, Q2R_phi_hi. pose proof PI_bounds as [Hlo Hhi].
  pose proof (pos_INR m) as Hm. repeat split; nra.
Qed.

Lemma Q2R_sin_lo m :
  Q2R (sin_lo m)
  = Q2R (phi_lo m) - Q2R (phi_hi m) ^ 3 / 6 + Q2R (phi_lo m) ^ 5 / 120
    - Q2R (phi_hi m) ^ 7 / 5040.
Proof.
  unfold sin_lo. cbv zeta. push_Q2R.
  replace (Q2R (1 # 6)) with (1 / 6) by (unfold Q2R; simpl; lra).
  replace (Q2R (1 # 120)) with (1 / 120) by (unfold Q2R; simpl; lra).
  replace (Q2R (1 # 5040)) with (1 / 5040) by (unfold Q2R; simpl; lra).
  field.
Qed.

(** [sin_lo m] is below [sin (pi m / 245)] for [m <= 245]. *)
Lemma sin_lo_correct m :
  (m <= 245)%nat -> Q2R (sin_lo m) <= sin (PI * INR m / 245).
Proof.
  intros Hm. rewrite Q2R_sin_lo.
  destruct (phi_between m) as [[Hlo Hhi] H0].
  apply sin_ge_poly; [lra|lra|].
  apply le_INR in Hm.
  replace (INR 245) with 245 in Hm by (rewrite INR_IZR_INZ; reflexivity).
  pose proof PI_RGT_0. pose proof (pos_INR m). nra.
Qed.

(** *** The raw samples of the jazz snare under the adverse noise *)

Lemma adverse_noise_source : noise_source adverse_noise.
Proof.
  intros i. unfold adverse_noise. destruct (i <? 184)%nat; lra.
Qed.

Lemma snare_angle k :
  2 * PI * 180 * time_of sample_rate k = PI * INR (2 * k) / 245.
Proof.
  unfold time_of, sample_rate. rewrite mult_INR.
  replace (INR 2) with 2 by (simpl; lra). field.
Qed.

Lemma raw_lo_correct k :
  (k < 184)%nat ->
  let t := time_of sample_rate k in
  Q2R (raw_lo k)
  <= (adverse_noise k * 2 - 1) * exp (- t * 8) * (9 / 10)
     + sin (2 * PI * 180 * t) * exp (- t * 12) * (8 / 10).
Proof.
  intros Hk. cbv zeta.
  assert (Hn : adverse_noise k = 99 / 100).
  { unfold adverse_noise. apply Nat.ltb_lt in Hk. now rewrite Hk. }
  rewrite Hn, snare_angle.
  set (t := time_of sample_rate k).
  assert (Ht : t = INR k / 44100) by reflexivity.
  assert (Hk' : 0 <= INR k <= 183).
  { split; [apply pos_INR|].
    assert (Hle : (k <= 183)%nat) by lia. apply le_INR in Hle.
    replace (INR 183) with 183 in Hle by (rewrite INR_IZR_INZ; reflexivity).
    exact Hle. }
  assert (He8 : 1 - 8 / 44100 * INR k <= exp (- t * 8)).
  { replace (1 - 8 / 44100 * INR k) with (1 + - t * 8) by (rewrite Ht; lra).
    apply exp_ge_1_plus. }
  assert (He12 : 1 - 12 / 44100 * INR k <= exp (- t * 12) <= 1).
  { split.
    - replace (1 - 12 / 44100 * INR k) with (1 + - t * 12) by (rewrite Ht; lra).
      apply exp_ge_1_plus.
    - apply exp_decay_bound; [rewrite Ht|]; lra. }
  set (e8 := exp (- t * 8)) in *. set (e12 := exp (- t * 12)) in *.
  unfold raw_lo. destruct (k <=? 122)%nat eqn:E.
  - apply Nat.leb_le in E.
    assert (Hs : Q2R (sin_lo (2 * k)) <= sin (PI * INR (2 * k) / 245))
      by (apply sin_lo_correct; lia).
    assert (Hs0 : 0 <= sin (PI * INR (2 * k) / 245)).
    { apply sin_ge_0.
      - pose proof PI_RGT_0. pose proof (pos_INR (2 * k)).
        apply Rmult_le_pos; [nra|lra].
      - assert (H : INR (2 * k) <= 245).
        { replace 245 with (INR 245) by (rewrite INR_IZR_INZ; reflexivity).
          apply le_INR. lia. }
        pose proof PI_RGT_0. nra. }
    set (sn := sin (PI * INR (2 * k) / 245)) in *.
    assert (Hk122 : INR k <= 122).
    { replace 122 with (INR 122) by (rewrite INR_IZR_INZ; reflexivity).
      now apply le_INR. }
    assert (Hc : exists S, (if Qle_bool 0 (sin_lo (2 * k))
                            then sin_lo (2 * k) else 0%Q) = S
                           /\ 0 <= Q2R S <= sn).
    { destruct (Qle_bool 0 (sin_lo (2 * k))) eqn:B.
      - eexists. split; [reflexivity|]. split; [|exact Hs].
        apply Qle_bool_iff in B. apply Qle_Rle in B.
        replace (Q2R 0) with 0 in B by (unfold Q2R; simpl; lra). exact B.
      - exists 0%Q. split; [reflexivity|].
        replace (Q2R 0) with 0 by (unfold Q2R; simpl; lra). lra. }
    destruct Hc as (S & -> & HS0 & HS).
    push_Q2R. rewrite Q2R_nat_Q.
    replace (Q2R (882 # 1000)) with (882 / 1000) by (unfold Q2R; simpl; lra).
    replace (Q2R (8 # 44100)) with (8 / 44100) by (unfold Q2R; simpl; lra).
    replace (Q2R (12 # 44100)) with (12 / 44100) by (unfold Q2R; simpl; lra).
    replace (Q2R (8 # 10)) with (8 / 10) by (unfold Q2R; simpl; lra).
    replace (Q2R 1) with 1 by (unfold Q2R; simpl; lra).
    assert (Hprod : (1 - 12 / 44100 * INR k) * Q2R S <= sn * e12) by nra.
    nra.
  - apply Nat.leb_gt in E.
    set (m := (2 * k - 245)%nat).
    assert (Hm : INR m = 2 * INR k - 245).
    { unfold m. rewrite minus_INR by lia. rewrite mult_INR.
      replace (INR 2) with 2 by (simpl; lra).
      replace (INR 245) with 245 by (rewrite INR_IZR_INZ; reflexivity).
      reflexivity. }
    assert (Hk123 : 123 <= INR k).
    { replace 123 with (INR 123) by (rewrite INR_IZR_INZ; reflexivity).
      apply le_INR. lia. }
    assert (Hang : PI * INR (2 * k) / 245 = PI * INR m / 245 + PI).
    { rewrite Hm, mult_INR. replace (INR 2) with 2 by (simpl; lra). field. }
    rewrite Hang, neg_sin.
    pose proof PI_RGT_0 as Hpi.
    assert (Hphi : 0 < PI * INR m / 245 <= PI) by (rewrite Hm; split; nra).
    assert (Hs0 : 0 <= sin (PI * INR m / 245)) by (apply sin_ge_0; lra).
    assert (Hs1 : sin (PI * INR m / 245) <= 1) by apply SIN_bound.
    assert (Hsx : sin (PI * INR m / 245) <= Q2R (phi_hi m)).
    { destruct (phi_between m) as [[_ Hhi] _].
      pose proof (sin_lt_x (PI * INR m / 245) ltac:(lra)). lra. }
    set (sn := sin (PI * INR m / 245)) in *.
    assert (Hc : exists S, (if Qle_bool (phi_hi m) 1 then phi_hi m else 1%Q) = S
                           /\ sn <= Q2R S).
    { destruct (Qle_bool (phi_hi m) 1).
      - eexists. split; [reflexivity|exact Hsx].
      - exists 1%Q. split; [reflexivity|].
        replace (Q2R 1) with 1 by (unfold Q2R; simpl; lra). exact Hs1. }
    destruct Hc as (S & -> & HS).
    push_Q2R. rewrite Q2R_nat_Q.
    replace (Q2R (882 # 1000)) with (882 / 1000) by (unfold Q2R; simpl; lra).
    replace (Q2R (8 # 44100)) with (8 / 44100) by (unfold Q2R; simpl; lra).
    replace (Q2R (8 # 10)) with (8 / 10) by (unfold Q2R; simpl; lra).
    replace (Q2R 1) with 1 by (unfold Q2R; simpl; lra).
    assert (Hprod : sn * e12 <= Q2R S) by nra.
    nra.
Qed.

Lemma raw_hi_184_correct :
  let t := time_of sample_rate 184 in
  (adverse_noise 184 * 2 - 1) * exp (- t * 8) * (9 / 10)
  + sin (2 * PI * 180 * t) * exp (- t * 12) * (8 / 10)
  <= Q2R raw_hi_184.
Proof.
  cbv zeta.
  assert (Hn : adverse_noise 184 = 0) by reflexivity.
  rewrite Hn, snare_angle.
  set (t := time_of sample_rate 184).
  assert (Ht : t = 184 / 44100).
  { unfold t, time_of, sample_rate.
    replace (INR 184) with 184 by (rewrite INR_IZR_INZ; reflexivity).
    reflexivity. }
  assert (He8 : 1 - 8 / 44100 * 184 <= exp (- t * 8)).
  { replace (1 - 8 / 44100 * 184) with (1 + - t * 8) by (rewrite Ht; lra).
    apply exp_ge_1_plus. }
  assert (He12 : 1 - 12 / 44100 * 184 <= exp (- t * 12)).
  { replace (1 - 12 / 44100 * 184) with (1 + - t * 12) by (rewrite Ht; lra).
    apply exp_ge_1_plus. }
  set (e8 := exp (- t * 8)) in *. set (e12 := exp (- t * 12)) in *.
  assert (Hang : PI * INR (2 * 184) / 245 = PI * INR 123 / 245 + PI).
  { replace (INR (2 * 184)) with 368 by (rewrite INR_IZR_INZ; reflexivity).
    replace (INR 123) with 123 by (rewrite INR_IZR_INZ; reflexivity).
    field. }
  rewrite Hang, neg_sin.
  assert (Hs : Q2R (sin_lo 123) <= sin (PI * INR 123 / 245))
    by (apply sin_lo_correct; lia).
  assert (HS0 : 0 <= Q2R (sin_lo 123)).
  { replace 0 with (Q2R 0) by (unfold Q2R; simpl; lra).
    apply Qle_Rle. apply Qle_bool_iff. vm_compute. reflexivity. }
  set (sn := sin (PI * INR 123 / 245)) in *.
  unfold raw_hi_184. push_Q2R. rewrite Q2R_nat_Q.
  replace (INR 184) with 184 by (rewrite INR_IZR_INZ; reflexivity).
  replace (Q2R (9 # 10)) with (9 / 10) by (unfold Q2R; simpl; lra).
  replace (Q2R (8 # 44100)) with (8 / 44100) by (unfold Q2R; simpl; lra).
  replace (Q2R (12 # 44100)) with (12 / 44100) by (unfold Q2R; simpl; lra).
  replace (Q2R (8 # 10)) with (8 / 10) by (unfold Q2R; simpl; lra).
  replace (Q2R 1) with 1 by (unfold Q2R; simpl; lra).
  assert (Hprod : (1 - 12 / 44100 * 184) * Q2R (sin_lo 123) <= sn * e12) by nra.
  nra.
Qed.

(** C4, as the claim has it, fails for the snare of the jazz kit: when
    [Math.random] returns 0.99 for the first 184 samples and then 0, sample
    184 of the buffer is below -2 after the smoothing pass. *)
Lemma jazz_snare_leaves_the_range :
  noise_source adverse_noise
  /\ exists y,
       nth_error (channelData (synthSnare adverse_noise sample_rate "jazz")) 184
       = Some y
       /\ y < -2.
Proof.
  split; [exact adverse_noise_source|].
  unfold synthSnare, renderToBuffer. cbn [channelData].
  change (is_rock "jazz") with false. cbv iota zeta.
  assert (Hlen : Math_round (1 * inject_Z sample_rate) = 44100%Z) by reflexivity.
  rewrite Hlen.
  set (g := fun k : nat =>
              (adverse_noise k * 2 - 1) * exp (- time_of sample_rate k * 8)
              * (9 / 10)
              + sin (2 * PI * 180 * time_of sample_rate k)
                * exp (- time_of sample_rate k * 12) * (8 / 10)).
  destruct (dc_filter_nth_upper raw_lo
              (fill (fun k _ => g k) (Z.to_nat 44100) 0 0)
              0%nat 0 0 0%Q 184%nat (g 184%nat)) as (y & Hy & Hle).
  - intros k z Hk Hz. rewrite fill_nth_value in Hz by lia.
    inversion Hz; subst. simpl Nat.add. now apply raw_lo_correct.
  - replace (Q2R 0) with 0 by (unfold Q2R; simpl; lra). lra.
  - rewrite fill_nth_value by lia. reflexivity.
  - exists y. split; [exact Hy|].
    pose proof raw_hi_184_correct as Hhi. cbv zeta in Hhi. fold (g 184%nat) in Hhi.
    assert (Hq : (raw_hi_184 - avg_lo raw_lo 0 0 184 < - (2))%Q).
    { vm_compute. reflexivity. }
    apply Qlt_Rlt in Hq. rewrite Q2R_minus, Q2R_opp in Hq.
    replace (Q2R 2) with 2 in Hq by (unfold Q2R; simpl; lra).
    lra.
Qed.

End SnareCounterexample.

Section SynthBounds.
Import Synth.
Local Open Scope R_scope.

(** C4, as the code has it.  At the sample rate of 44100 Hz that
    [initAudio] asks for, for every voice, every flavor and every noise
    source, the buffer has [Math.round (duration * 44100)] samples, which
    is the duration of the voice times the rate exactly (44100 for kick
    and snare, 70560 open hat, 5292 pedal hat, 11025 closed hat, 52920 toms,
    154350 ride, 123480 crash), and after the smoothing pass every sample
    lies within [[-2, 2]], except for the snare, whose samples lie within
    [[-3.4, 3.4]].  (Samples are real numbers here, so they are finite.) *)
Theorem synthesized_buffers_are_fixed_length_and_bounded :
  forall (rnd : nat -> R) (flavor : string) (v : Voice),
    noise_source rnd ->
    let buf := make rnd sample_rate flavor v in
    sampleRate buf = sample_rate
    /\ List.length (channelData buf)
       = Z.to_nat (Math_round (duration v * inject_Z sample_rate))
    /\ (inject_Z (Math_round (duration v * inject_Z sample_rate))
        == duration v * inject_Z sample_rate)%Q
    /\ Forall (fun y => - sample_bound v <= y <= sample_bound v)
              (channelData buf).
Proof.
  intros rnd flavor v Hrnd buf.
  split; [now destruct v|].
  split; [apply make_length|].
  split; [now destruct v|].
  unfold buf. destruct v; unfold make, sample_bound.
  - now apply kick_bound.
  - now apply snare_bound.
  - now apply hat_bound.
  - now apply hat_bound.
  - now apply hat_bound.
  - apply tom_bound.
  - apply tom_bound.
  - apply tom_bound.
  - now apply cymbal_bound.
  - now apply cymbal_bound.
Qed.

End SynthBounds.

Lemma synthesized_buffers_are_fixed_length_and_bounded_witness :
  List.length (Synth.channelData
                 (Synth.make Synth.adverse_noise Synth.sample_rate "jazz"
                             Synth.hatP))
  = Z.to_nat (Synth.Math_round
                (Synth.duration Synth.hatP * inject_Z Synth.sample_rate)).
Proof.
  destruct (synthesized_buffers_are_fixed_length_and_bounded
              Synth.adverse_noise "jazz" Synth.hatP adverse_noise_source)
    as (_ & H & _).
  exact H.
Defined.

(** * Further properties of the code *)

(** ** Metronome: degenerate tempos, restarts and the pulse *)

Section MetronomeEdges.
Import Metronome.
Local Open Scope Q_scope.

(** What the loop of [runScheduler] leaves alone, and what it adds. *)
Lemma schedule_loop_frame fuel now spb : forall s s',
  schedule_loop fuel now spb s = Some s' ->
  isMetronomeOn s' = isMetronomeOn s /\ bpm s' = bpm s
  /\ pulseOn s' = pulseOn s
  /\ scheduleAheadTime s' = scheduleAheadTime s
  /\ exists new, timers s' = timers s ++ new
                 /\ List.filter is_RunSchedulerTimer new = [].
Proof.
  assert (Hrefl : forall s : State,
    isMetronomeOn s = isMetronomeOn s /\ bpm s = bpm s
    /\ pulseOn s = pulseOn s
    /\ scheduleAheadTime s = scheduleAheadTime s
    /\ exists new, timers s = timers s ++ new
                   /\ List.filter is_RunSchedulerTimer new = []).
  { intros s. repeat split. exists []. now rewrite app_nil_r. }
  induction fuel as [|fuel IH]; intros s s'; simpl.
  - destruct (nextTick s) as [t| |];
      [destruct (Qltb t (now + scheduleAheadTime s)); [discriminate|]| |];
      intros [= <-]; apply Hrefl.
  - destruct (nextTick s) as [t| |];
      [destruct (Qltb t (now + scheduleAheadTime s))| |];
      try (intros [= <-]; apply Hrefl).
    intros H. apply IH in H. simpl in H.
    destruct H as (H1 & H2 & H3 & H4 & new & H5 & H6).
    repeat split; auto.
    exists (PulseOnTimer (pulse_delay t now (latencyMs s)) :: new).
    rewrite H5, <- app_assoc. split; [reflexivity|]. simpl. exact H6.
Qed.

Lemma schedule_loop_not_finite fuel now spb s :
  (forall q, nextTick s <> Fin q) ->
  schedule_loop fuel now spb s = Some s.
Proof.
  intros H. destruct fuel; simpl; destruct (nextTick s) as [t| |];
    try reflexivity; now destruct (H t).
Qed.

Lemma pending_schedulers_app s l :
  List.filter is_RunSchedulerTimer l = [] ->
  List.length (List.filter is_RunSchedulerTimer (timers s ++ l))
  = pending_schedulers s.
Proof.
  intros H. unfold pending_schedulers.
  now rewrite List.filter_app, H, app_nil_r.
Qed.

(** A wake of a running metronome re-arms one timeout. *)
Lemma runScheduler_rearms fuel now s s' :
  isMetronomeOn s = true -> runScheduler fuel now s = Some s' ->
  isMetronomeOn s' = true
  /\ pending_schedulers s' = S (pending_schedulers s)
  /\ pulseOn s' = pulseOn s.
Proof.
  intros Hon. unfold runScheduler. rewrite Hon. simpl.
  destruct (schedule_loop fuel now (secondsPerBeat (bpm s)) s) as [s1|] eqn:E;
    [|discriminate].
  intros [= <-]. apply schedule_loop_frame in E.
  destruct E as (H1 & _ & H3 & _ & new & H5 & H6).
  split; [simpl; congruence|]. split; [|simpl; congruence].
  unfold pending_schedulers at 1. simpl. rewrite H5.
  rewrite List.filter_app. simpl. rewrite List.length_app. simpl.
  rewrite pending_schedulers_app by exact H6. lia.
Qed.

Lemma running_step fuel e s s' :
  isMetronomeOn s = true -> is_metro_click e = false ->
  step fuel e s = Some s' ->
  isMetronomeOn s' = true /\ pending_schedulers s' = pending_schedulers s.
Proof.
  intros Hon He. destruct e as [t|v|now| |]; try discriminate; simpl.
  - intros [= <-]. auto.
  - destruct (take_timer is_RunSchedulerTimer (timers s)) as [l|] eqn:E.
    + intros H. apply runScheduler_rearms in H; [|exact Hon].
      destruct H as (H1 & H2 & _). split; [exact H1|]. rewrite H2.
      unfold pending_schedulers. simpl.
      apply (take_timer_some_scheduler _ _ E).
    + intros [= <-]. auto.
  - destruct (take_timer is_PulseOnTimer (timers s)) as [l|] eqn:E;
      intros [= <-]; [|auto]. split; [exact Hon|].
    unfold pending_schedulers. simpl.
    rewrite List.filter_app. simpl. rewrite app_nil_r.
    now rewrite (take_timer_other is_PulseOnTimer _ _ ltac:(now intros []) E).
  - destruct (take_timer is_PulseOffTimer (timers s)) as [l|] eqn:E;
      intros [= <-]; [|auto]. split; [exact Hon|].
    unfold pending_schedulers. simpl.
    now rewrite (take_timer_other is_PulseOffTimer _ _ ltac:(now intros []) E).
Qed.

Lemma running_run fuel es : forall s s',
  isMetronomeOn s = true ->
  forallb (fun e => negb (is_metro_click e)) es = true ->
  run fuel es s = Some s' ->
  isMetronomeOn s' = true /\ pending_schedulers s' = pending_schedulers s.
Proof.
  induction es as [|e es IH]; intros s s' Hon Hes; simpl.
  - intros [= <-]. auto.
  - simpl in Hes. apply andb_true_iff in Hes. destruct Hes as [He Hes].
    apply negb_true_iff in He.
    destruct (step fuel e s) as [s1|] eqn:E; [|discriminate].
    destruct (running_step fuel e s s1 Hon He E) as [Hon1 Hp1].
    intros H. destruct (IH s1 s' Hon1 Hes H) as [Hon2 Hp2].
    split; [exact Hon2|congruence].
Qed.

(** A stop followed by a start leaves one more timeout armed, when the
    handlers return. *)
Lemma restart_rearms :
  forall (s : State) (fuel : nat),
    isMetronomeOn s = true ->
    (forall es s',
        forallb (fun e => negb (is_metro_click e)) es = true ->
        run fuel es s = Some s' ->
        isMetronomeOn s' = true
        /\ pending_schedulers s' = pending_schedulers s)
    /\ (forall t1 t2 es s',
          forallb (fun e => negb (is_metro_click e)) es = true ->
          run fuel (MetroBtnClick t1 :: MetroBtnClick t2 :: es) s = Some s' ->
          isMetronomeOn s' = true
          /\ pending_schedulers s' = S (pending_schedulers s)).
Proof.
  intros s fuel Hon. split.
  - intros es s'. now apply running_run.
  - intros t1 t2 es s' Hes.
    change (run fuel (MetroBtnClick t1 :: MetroBtnClick t2 :: es) s)
      with (match metroBtn_click fuel t1 s with
            | Some s1 => match metroBtn_click fuel t2 s1 with
                         | Some s2 => run fuel es s2
                         | None => None
                         end
            | None => None
            end).
    set (s1 := set_isMetronomeOn false (if ctx s then s else set_ctx true s)).
    assert (H1 : metroBtn_click fuel t1 s = Some s1).
    { unfold metroBtn_click, s1. destruct (ctx s); simpl; rewrite Hon; reflexivity. }
    rewrite H1.
    assert (Hp1 : pending_schedulers s1 = pending_schedulers s)
      by (unfold s1; now destruct (ctx s)).
    unfold metroBtn_click.
    assert (Hoff1 : isMetronomeOn s1 = false) by reflexivity.
    set (s1' := if ctx s1 then s1 else set_ctx true s1).
    assert (Hoff1' : isMetronomeOn s1' = false)
      by (unfold s1'; now destruct (ctx s1)).
    assert (Hp1' : pending_schedulers s1' = pending_schedulers s1)
      by (unfold s1'; now destruct (ctx s1)).
    simpl isMetronomeOn. rewrite Hoff1'. simpl negb. cbv iota.
    destruct (runScheduler fuel t2 _) as [s2|] eqn:E; [|discriminate].
    apply runScheduler_rearms in E; [|reflexivity].
    destruct E as (Hon2 & Hp2 & _).
    intros H. destruct (running_run fuel es s2 s' Hon2 Hes H) as [Hon3 Hp3].
    split; [exact Hon3|].
    rewrite Hp3, Hp2. unfold pending_schedulers at 1. simpl.
    fold (pending_schedulers s1').
    congruence.
Qed.

Lemma beat_nonneg d n : forall t, 0 <= t -> 0 < d -> 0 <= beat t d n.
Proof.
  induction n as [|n IH]; intros t Ht Hd; simpl; [exact Ht|].
  apply IH; Lqa.lra.
Qed.

(** With a positive tempo and a next tick that is not negative, a wake
    returns, given fuel for its rounds, and keeps both. *)
Lemma runScheduler_total now s b :
  bpm s = JInt b -> (0 < b)%Z ->
  (forall t, nextTick s = Fin t -> 0 <= t) ->
  exists fuel0 s',
    (forall fuel, (fuel0 <= fuel)%nat -> runScheduler fuel now s = Some s')
    /\ bpm s' = JInt b
    /\ (forall t, nextTick s' = Fin t -> 0 <= t).
Proof.
  intros Hb Hpos Hn. destruct (secondsPerBeat_pos b Hpos) as [Hspb Hd].
  unfold runScheduler. rewrite Hb, Hspb.
  destruct (isMetronomeOn s); simpl.
  - destruct (nextTick s) as [t| |] eqn:Ht.
    + destruct (schedule_loop_total now _ Hd s t Ht) as (n & _ & _ & Hrun).
      exists n. eexists. split.
      * intros fuel Hf. rewrite (Hrun fuel Hf). reflexivity.
      * simpl.
        destruct (rounds_frame now (60 / inject_Z b) n t s)
          as (_ & _ & _ & _ & H5 & _).
        split; [congruence|].
        intros q. rewrite (rounds_nextTick now _ n t s Ht).
        intros [= <-]. apply beat_nonneg; [|exact Hd]. now apply Hn.
    + exists 0%nat. eexists. split.
      * intros fuel _. rewrite schedule_loop_not_finite; [reflexivity|].
        intros q. rewrite Ht. discriminate.
      * simpl. split; [exact Hb|]. intros q. rewrite Ht. discriminate.
    + exists 0%nat. eexists. split.
      * intros fuel _. rewrite schedule_loop_not_finite; [reflexivity|].
        intros q. rewrite Ht. discriminate.
      * simpl. split; [exact Hb|]. intros q. rewrite Ht. discriminate.
  - exists 0%nat, s. auto.
Qed.

Lemma steady_step e s b :
  is_steady e = true -> bpm s = JInt b -> (0 < b)%Z ->
  (forall t, nextTick s = Fin t -> 0 <= t) ->
  exists fuel0 s' b',
    (forall fuel, (fuel0 <= fuel)%nat -> step fuel e s = Some s')
    /\ bpm s' = JInt b' /\ (0 < b')%Z
    /\ (forall t, nextTick s' = Fin t -> 0 <= t).
Proof.
  intros He Hb Hpos Hn. destruct e as [t|v|now| |]; try discriminate; simpl.
  - destruct v as [b'|]; [|discriminate]. simpl in He.
    apply Z.ltb_lt in He.
    exists 0%nat, (tempo_input (JInt b') s), b'. auto.
  - destruct (take_timer is_RunSchedulerTimer (timers s)) as [l|].
    + destruct (runScheduler_total now (set_timers l s) b Hb Hpos Hn)
        as (fuel0 & s' & H1 & H2 & H3).
      exists fuel0, s', b. auto.
    + exists 0%nat, s, b. auto.
  - destruct (take_timer is_PulseOnTimer (timers s)) as [l|];
      exists 0%nat; eexists; exists b; (split; [reflexivity|]); auto.
  - destruct (take_timer is_PulseOffTimer (timers s)) as [l|];
      exists 0%nat; eexists; exists b; (split; [reflexivity|]); auto.
Qed.

Lemma steady_run es : forall s b,
  forallb is_steady es = true -> bpm s = JInt b -> (0 < b)%Z ->
  (forall t, nextTick s = Fin t -> 0 <= t) ->
  exists fuel0 s',
    forall fuel, (fuel0 <= fuel)%nat -> run fuel es s = Some s'.
Proof.
  induction es as [|e es IH]; intros s b Hes Hb Hpos Hn.
  - exists 0%nat, s. reflexivity.
  - simpl in Hes. apply andb_true_iff in Hes. destruct Hes as [He Hes].
    destruct (steady_step e s b He Hb Hpos Hn)
      as (f1 & s1 & b1 & H1 & Hb1 & Hpos1 & Hn1).
    destruct (IH s1 b1 Hes Hb1 Hpos1 Hn1) as (f2 & s2 & H2).
    exists (Nat.max f1 f2), s2. intros fuel Hf. simpl.
    rewrite (H1 fuel) by lia. apply H2. lia.
Qed.

Lemma steady_not_click es :
  forallb is_steady es = true ->
  forallb (fun e => negb (is_metro_click e)) es = true.
Proof.
  induction es as [|e es IH]; simpl; [reflexivity|].
  intros H. apply andb_true_iff in H. destruct H as [He Hes].
  rewrite (IH Hes), andb_true_r. now destruct e.
Qed.

(** X3.  Stopping a metronome does not cancel its pending timeout, and
    starting it arms a new one.  Take a running metronome at a positive
    tempo whose next tick is not negative, and events that keep the
    tempo positive (timers firing, tempo inputs that parse to a positive
    integer).  Then every handler returns (the scheduler loop given fuel
    for its rounds), and
    - no such event alters the number of pending scheduler timeouts;
    - a stop followed by a start, before the pending timeout has fired,
      leaves one more scheduler loop armed than before, which then keeps
      running beside the first. *)
Theorem restart_leaves_a_second_scheduler_loop :
  forall (s : State) (b : Z),
    isMetronomeOn s = true -> bpm s = JInt b -> (0 < b)%Z ->
    (forall t, nextTick s = Fin t -> 0 <= t) ->
    (forall es,
        forallb is_steady es = true ->
        exists fuel0 s',
          (forall fuel, (fuel0 <= fuel)%nat -> run fuel es s = Some s')
          /\ isMetronomeOn s' = true
          /\ pending_schedulers s' = pending_schedulers s)
    /\ (forall t1 t2 es,
          0 <= t2 ->
          forallb is_steady es = true ->
          exists fuel0 s',
            (forall fuel, (fuel0 <= fuel)%nat ->
               run fuel (MetroBtnClick t1 :: MetroBtnClick t2 :: es) s
               = Some s')
            /\ isMetronomeOn s' = true
            /\ pending_schedulers s' = S (pending_schedulers s)).
Proof.
  intros s b Hon Hb Hpos Hn. split.
  - intros es Hes.
    destruct (steady_run es s b Hes Hb Hpos Hn) as (fuel0 & s' & Hrun).
    exists fuel0, s'. split; [exact Hrun|].
    apply (running_run fuel0 es s s' Hon (steady_not_click es Hes)).
    apply Hrun. lia.
  - intros t1 t2 es Ht2 Hes.
    set (s1 := set_isMetronomeOn false (if ctx s then s else set_ctx true s)).
    assert (H1 : forall fuel, metroBtn_click fuel t1 s = Some s1).
    { intros fuel. unfold metroBtn_click, s1.
      destruct (ctx s); simpl; rewrite Hon; reflexivity. }
    set (s1' := if ctx s1 then s1 else set_ctx true s1).
    assert (Hoff1' : isMetronomeOn s1' = false)
      by (unfold s1'; now destruct (ctx s1)).
    assert (Hb1' : bpm s1' = JInt b).
    { unfold s1'. destruct (ctx s1); unfold s1; simpl;
        destruct (ctx s); exact Hb. }
    set (s2 := set_nextTick (Fin (t2 + (5 # 100)))
                 (set_isMetronomeOn true s1')).
    assert (H2 : forall fuel,
               metroBtn_click fuel t2 s1 = runScheduler fuel t2 s2).
    { intros fuel. unfold metroBtn_click. cbv zeta.
      change (if ctx s1 then s1 else set_ctx true s1) with s1'.
      simpl isMetronomeOn. rewrite Hoff1'. simpl negb. cbv iota.
      reflexivity. }
    assert (Hb2 : bpm s2 = JInt b) by exact Hb1'.
    assert (Hn2 : forall t, nextTick s2 = Fin t -> 0 <= t).
    { intros t. unfold s2. simpl. intros [= <-]. Lqa.lra. }
    destruct (runScheduler_total t2 s2 b Hb2 Hpos Hn2)
      as (f2 & s3 & H3 & Hb3 & Hn3).
    destruct (steady_run es s3 b Hes Hb3 Hpos Hn3) as (f3 & s' & H4).
    assert (Hrun : forall fuel, (Nat.max f2 f3 <= fuel)%nat ->
              run fuel (MetroBtnClick t1 :: MetroBtnClick t2 :: es) s
              = Some s').
    { intros fuel Hf.
      change (run fuel (MetroBtnClick t1 :: MetroBtnClick t2 :: es) s)
        with (match metroBtn_click fuel t1 s with
              | Some x => match metroBtn_click fuel t2 x with
                          | Some y => run fuel es y
                          | None => None
                          end
              | None => None
              end).
      rewrite H1, H2, (H3 fuel) by lia. apply H4. lia. }
    exists (Nat.max f2 f3), s'. split; [exact Hrun|].
    destruct (restart_rearms s (Nat.max f2 f3) Hon) as [_ H].
    apply (H t1 t2 es s' (steady_not_click es Hes)).
    apply Hrun. lia.
Qed.

Lemma not_finite_step fuel e s :
  (forall q, nextTick s <> Fin q) -> is_metro_click e = false ->
  exists s', step fuel e s = Some s'
    /\ scheduled s' = scheduled s
    /\ isMetronomeOn s' = isMetronomeOn s
    /\ (forall q, nextTick s' <> Fin q).
Proof.
  intros Hn He. destruct e as [t|v|now| |]; try discriminate; simpl.
  - eexists. split; [reflexivity|]. auto.
  - destruct (take_timer is_RunSchedulerTimer (timers s)) as [l|] eqn:E.
    + unfold runScheduler. simpl isMetronomeOn.
      destruct (isMetronomeOn s) eqn:Hon; simpl.
      * rewrite schedule_loop_not_finite by exact Hn.
        eexists. split; [reflexivity|]. simpl. auto.
      * eexists. split; [reflexivity|]. simpl. auto.
    + exists s. auto.
  - destruct (take_timer is_PulseOnTimer (timers s)) as [l|] eqn:E;
      eexists; (split; [reflexivity|]); simpl; auto.
  - destruct (take_timer is_PulseOffTimer (timers s)) as [l|] eqn:E;
      eexists; (split; [reflexivity|]); simpl; auto.
Qed.

Lemma not_finite_run fuel es : forall s,
  (forall q, nextTick s <> Fin q) ->
  forallb (fun e => negb (is_metro_click e)) es = true ->
  exists s', run fuel es s = Some s'
    /\ scheduled s' = scheduled s
    /\ isMetronomeOn s' = isMetronomeOn s
    /\ (forall q, nextTick s' <> Fin q).
Proof.
  induction es as [|e es IH]; intros s Hn Hes.
  - exists s. simpl. auto.
  - simpl in Hes. apply andb_true_iff in Hes. destruct Hes as [He Hes].
    apply negb_true_iff in He.
    destruct (not_finite_step fuel e s Hn He) as (s1 & Hstep & H1 & H2 & H3).
    destruct (IH s1 H3 Hes) as (s2 & Hrun & H4 & H5 & H6).
    exists s2. simpl. rewrite Hstep. repeat split; auto; congruence.
Qed.

(** X1.  A wake of a running metronome whose tempo is 0 or [NaN] (the
    tempo field did not parse) queues the click that was due and then
    adds [Infinity] or [NaN] to [state.nextTick].  From then on no timer
    event queues a click, also after the tempo has been set to a valid
    value again: the loop guard compares against a next tick that never
    becomes finite, while the scheduler keeps polling.  Only a stop and
    restart writes a finite next tick. *)
Theorem degenerate_tempo_silences_the_metronome :
  forall (s : State) (t now : Q),
    isMetronomeOn s = true -> nextTick s = Fin t ->
    bpm s = JInt 0 \/ bpm s = JNaN ->
    t < now + scheduleAheadTime s ->
    exists s1,
      (forall fuel, (1 <= fuel)%nat -> runScheduler fuel now s = Some s1)
      /\ scheduled s1 = scheduled s ++ [click_at t]
      /\ (nextTick s1 = PlusInfinity \/ nextTick s1 = NaNTime)
      /\ forall fuel es,
           forallb (fun e => negb (is_metro_click e)) es = true ->
           exists s',
             run fuel es s1 = Some s'
             /\ scheduled s' = scheduled s1
             /\ isMetronomeOn s' = true
             /\ (forall q, nextTick s' <> Fin q)
             /\ pending_schedulers s' = S (pending_schedulers s).
Proof.
  intros s t now Hon Ht Hbpm Hlt.
  set (nt := time_add (Fin t) (secondsPerBeat (bpm s))).
  assert (Hnt : nt = PlusInfinity \/ nt = NaNTime)
    by (unfold nt; destruct Hbpm as [-> | ->]; simpl; auto).
  set (s0 := set_nextTick nt (scheduleClick t now s)).
  assert (Hn0 : forall q, nextTick s0 <> Fin q)
    by (intros q; simpl; destruct Hnt as [-> | ->]; discriminate).
  set (s1 := setTimeout (RunSchedulerTimer (lookahead s0)) s0).
  assert (Hrun : forall fuel, (1 <= fuel)%nat -> runScheduler fuel now s = Some s1).
  { intros [|fuel] Hf; [lia|]. unfold runScheduler. rewrite Hon. simpl.
    rewrite Ht. apply Qltb_lt in Hlt. rewrite Hlt.
    fold nt. fold s0. now rewrite schedule_loop_not_finite. }
  exists s1. split; [exact Hrun|]. split; [reflexivity|].
  split; [exact Hnt|].
  intros fuel es Hes.
  destruct (not_finite_run fuel es s1 Hn0 Hes) as (s' & Hr & H1 & H2 & H3).
  exists s'. split; [exact Hr|]. split; [exact H1|].
  split; [rewrite H2; exact Hon|]. split; [exact H3|].
  destruct (running_run fuel es s1 s' Hon Hes Hr) as [_ Hp]. rewrite Hp.
  destruct (runScheduler_rearms 1 now s s1 Hon (Hrun 1%nat (le_n 1)))
    as (_ & Hp1 & _). exact Hp1.
Qed.

Lemma secondsPerBeat_neg (b : Z) :
  (b < 0)%Z ->
  secondsPerBeat (JInt b) = Fin (60 / inject_Z b) /\ 60 / inject_Z b < 0.
Proof.
  intros Hb. destruct b as [|p|p]; try lia. split; reflexivity.
Qed.

(** With a negative period the guard stays true: the loop runs any number
    of rounds. *)
Lemma schedule_loop_unrolls now d : forall n fuel s t,
  d < 0 -> nextTick s = Fin t -> t < now + scheduleAheadTime s ->
  schedule_loop (n + fuel) now (Fin d) s
  = schedule_loop fuel now (Fin d) (rounds now d n t s).
Proof.
  induction n as [|n IH]; intros fuel s t Hd Ht Hlt; [reflexivity|].
  pose proof Hlt as Hb. apply Qltb_lt in Hb.
  change (S n + fuel)%nat with (S (n + fuel)).
  cbn [schedule_loop rounds]. rewrite Ht, Hb.
  apply (IH fuel _ (t + d) Hd); [reflexivity|]. simpl. Lqa.lra.
Qed.

Lemma rounds_timers now d n : forall t s,
  timers (rounds now d n t s)
  = timers s
    ++ List.map (fun w => PulseOnTimer (pulse_delay w now (latencyMs s)))
         (beats t d n).
Proof.
  induction n as [|n IH]; intros t s; simpl.
  - now rewrite app_nil_r.
  - rewrite IH. simpl. now rewrite <- app_assoc.
Qed.

Lemma beat_le_start d n : forall t, d < 0 -> beat t d n <= t.
Proof.
  induction n as [|n IH]; intros t Hd; simpl; [Lqa.lra|].
  specialize (IH (t + d) Hd). Lqa.lra.
Qed.

Lemma least_negative_beat t d : forall m : nat,
  (forall k, (k <= m)%nat -> 0 <= beat t d k)
  \/ exists n, (n <= m)%nat /\ beat t d n < 0
               /\ forall k, (k < n)%nat -> 0 <= beat t d k.
Proof.
  induction m as [|m [IH | (n & Hn & Hneg & Hbefore)]].
  - destruct (Qlt_le_dec (beat t d 0) 0) as [H|H].
    + right. exists 0%nat. split; [lia|]. split; [exact H|]. intros k Hk. lia.
    + left. intros k Hk. assert (k = 0%nat) as -> by lia. exact H.
  - destruct (Qlt_le_dec (beat t d (S m)) 0) as [H|H].
    + right. exists (S m). split; [lia|]. split; [exact H|].
      intros k Hk. apply IH. lia.
    + left. intros k Hk.
      destruct (Nat.eq_dec k (S m)) as [-> | Hne]; [exact H|].
      apply IH. lia.
  - right. exists n. split; [lia|]. split; [exact Hneg|exact Hbefore].
Qed.

Lemma first_negative_beat t d :
  d < 0 ->
  exists n, beat t d n < 0 /\ forall k, (k < n)%nat -> 0 <= beat t d k.
Proof.
  intros Hd.
  destruct (archimedes (t + 1) (- d) ltac:(Lqa.lra)) as [m Hm].
  destruct (least_negative_beat t d m) as [H | (n & _ & H1 & H2)].
  - specialize (H m (le_n m)). rewrite beat_closed in H. Lqa.lra.
  - exists n. auto.
Qed.

(** X2.  With a negative tempo the loop of [runScheduler] moves
    [state.nextTick] backwards, so its guard never becomes false.  From a
    next tick [t >= 0] inside the window the loop queues a click at each
    of [t], [t + d], [t + 2 d], ... ([d = 60 / bpm < 0]) as long as these
    times are not negative, and then stands at its guard, which is true,
    with a negative next tick: the argument of the next
    [scheduleClick], at which [setValueAtTime] throws.  So the loop is
    not left through its guard, and the timeout after it is not armed. *)
Theorem negative_tempo_walks_back_to_a_negative_tick :
  forall (s : State) (b : Z) (now t : Q),
    bpm s = JInt b -> (b < 0)%Z ->
    nextTick s = Fin t -> 0 <= t -> t < now + scheduleAheadTime s ->
    let d := 60 / inject_Z b in
    exists n : nat,
      (0 < n)%nat
      /\ (forall k, (k < n)%nat -> 0 <= beat t d k)
      /\ beat t d n < 0
      /\ (forall fuel,
            schedule_loop (n + fuel) now (secondsPerBeat (bpm s)) s
            = schedule_loop fuel now (secondsPerBeat (bpm s))
                (rounds now d n t s))
      /\ scheduled (rounds now d n t s)
         = scheduled s ++ List.map click_at (beats t d n)
      /\ timers (rounds now d n t s) = timers s ++ List.map
           (fun w => PulseOnTimer (pulse_delay w now (latencyMs s)))
           (beats t d n)
      /\ nextTick (rounds now d n t s) = Fin (beat t d n)
      /\ Qltb (beat t d n)
           (now + scheduleAheadTime (rounds now d n t s)) = true.
Proof.
  intros s b now t Hb Hneg Ht H0 Hlt d.
  destruct (secondsPerBeat_neg b Hneg) as [Hspb Hd]. fold d in Hspb, Hd.
  destruct (first_negative_beat t d Hd) as (n & Hn & Hbefore).
  exists n.
  split. { destruct n; [simpl in Hn; Lqa.lra|lia]. }
  split; [exact Hbefore|]. split; [exact Hn|].
  split. { intros fuel. rewrite Hb, Hspb.
           now apply schedule_loop_unrolls with (t := t). }
  split; [apply rounds_scheduled|].
  split; [apply rounds_timers|].
  split; [now apply rounds_nextTick|].
  destruct (rounds_frame now d n t s) as (_ & _ & H3 & _).
  rewrite H3. apply Qltb_lt.
  pose proof (beat_le_start d n t Hd). Lqa.lra.
Qed.

Lemma take_timer_keeps (p : Timer -> bool) x : forall l l',
  p x = false -> take_timer p l = Some l' -> In x l -> In x l'.
Proof.
  induction l as [|t l IH]; simpl; intros l' Hx; [discriminate|].
  destruct (p t) eqn:E.
  - intros [= <-] [-> | H]; [congruence|exact H].
  - destruct (take_timer p l) as [r|]; [|discriminate].
    intros [= <-] [-> | H]; [now left|]. right. now apply IH.
Qed.

Lemma runScheduler_keeps fuel now s s' :
  runScheduler fuel now s = Some s' ->
  pulseOn s' = pulseOn s
  /\ forall x, In x (timers s) -> In x (timers s').
Proof.
  unfold runScheduler. destruct (negb (isMetronomeOn s)).
  - intros [= <-]. auto.
  - destruct (schedule_loop fuel now (secondsPerBeat (bpm s)) s) as [s1|] eqn:E;
      [|discriminate].
    intros [= <-]. apply schedule_loop_frame in E.
    destruct E as (_ & _ & H3 & _ & new & H5 & _).
    split; [exact H3|]. intros x Hin. simpl. rewrite H5.
    apply in_or_app. left. apply in_or_app. now left.
Qed.

Lemma pulse_step fuel e s s' :
  (pulseOn s = true -> In (PulseOffTimer 60) (timers s)) ->
  step fuel e s = Some s' ->
  pulseOn s' = true -> In (PulseOffTimer 60) (timers s').
Proof.
  intros Hinv. destruct e as [t|v|now| |]; simpl.
  - unfold metroBtn_click.
    set (s1 := if ctx s then s else set_ctx true s).
    assert (Ht : timers s1 = timers s) by (unfold s1; now destruct (ctx s)).
    assert (Hp : pulseOn s1 = pulseOn s) by (unfold s1; now destruct (ctx s)).
    destruct (isMetronomeOn (set_isMetronomeOn _ _)).
    + intros H Hon. apply runScheduler_keeps in H. destruct H as [H1 H2].
      apply H2. simpl. rewrite Ht. apply Hinv. rewrite <- Hp.
      rewrite <- Hon, H1. reflexivity.
    + intros [= <-]. simpl. rewrite Ht, Hp. exact Hinv.
  - intros [= <-]. exact Hinv.
  - destruct (take_timer is_RunSchedulerTimer (timers s)) as [l|] eqn:E.
    + intros H Hon. apply runScheduler_keeps in H. destruct H as [H1 H2].
      apply H2. simpl.
      apply (take_timer_keeps is_RunSchedulerTimer (PulseOffTimer 60) _ _
               eq_refl E).
      apply Hinv. rewrite <- Hon, H1. reflexivity.
    + intros [= <-]. exact Hinv.
  - destruct (take_timer is_PulseOnTimer (timers s)) as [l|] eqn:E.
    + intros [= <-] _. simpl. apply in_or_app. right. now left.
    + intros [= <-]. exact Hinv.
  - destruct (take_timer is_PulseOffTimer (timers s)) as [l|] eqn:E.
    + intros [= <-]. simpl. discriminate.
    + intros [= <-]. exact Hinv.
Qed.

(** X4.  The visual pulse never sticks: in every state the metronome
    reaches from the initial one, whatever the events (clicks on the
    button, tempo changes, timers firing in any order), the class [on] of
    the pulse element is set only while a timeout of 60 ms that removes it
    is pending. *)
Theorem pulse_is_lit_only_with_its_switch_off_pending :
  forall (fuel : nat) (es : list Event) (latency : jsint) (s : State),
    run fuel es (initial latency) = Some s ->
    pulseOn s = true -> In (PulseOffTimer 60) (timers s).
Proof.
  intros fuel es latency.
  assert (H : forall s0,
             (pulseOn s0 = true -> In (PulseOffTimer 60) (timers s0)) ->
             forall s, run fuel es s0 = Some s ->
             pulseOn s = true -> In (PulseOffTimer 60) (timers s)).
  { induction es as [|e es IH]; intros s0 H0 s; simpl.
    - intros [= <-]. exact H0.
    - destruct (step fuel e s0) as [s1|] eqn:E; [|discriminate].
      apply IH. exact (pulse_step fuel e s0 s1 H0 E). }
  apply H. simpl. discriminate.
Qed.

End MetronomeEdges.

Lemma degenerate_tempo_silences_the_metronome_witness :
  exists s1,
    Metronome.runScheduler 1 0
      (Metronome.set_bpm (JInt 0)
         (Metronome.set_isMetronomeOn true (Metronome.initial (JInt 0))))
    = Some s1
    /\ Metronome.click_times s1 = [0%Q]
    /\ (Metronome.nextTick s1 = Metronome.PlusInfinity
        \/ Metronome.nextTick s1 = Metronome.NaNTime).
Proof.
  destruct (degenerate_tempo_silences_the_metronome
              (Metronome.set_bpm (JInt 0)
                 (Metronome.set_isMetronomeOn true (Metronome.initial (JInt 0))))
              0%Q 0%Q eq_refl eq_refl (or_introl eq_refl) eq_refl)
    as (s1 & H1 & H2 & H3 & _).
  exists s1. split; [apply H1; lia|]. split; [|exact H3].
  unfold Metronome.click_times. rewrite H2. reflexivity.
Defined.

Lemma negative_tempo_walks_back_to_a_negative_tick_witness :
  exists n : nat,
    (0 < n)%nat
    /\ (Metronome.beat (1 # 2) (60 / inject_Z (-60)) n < 0)%Q
    /\ Metronome.nextTick
         (Metronome.rounds 1 (60 / inject_Z (-60)) n (1 # 2)
            (Metronome.set_bpm (JInt (-60))
               (Metronome.set_nextTick (Metronome.Fin (1 # 2))
                  (Metronome.initial (JInt 0)))))
       = Metronome.Fin (Metronome.beat (1 # 2) (60 / inject_Z (-60)) n).
Proof.
  assert (W0 : (0 <= 1 # 2)%Q) by (vm_compute; discriminate).
  destruct (negative_tempo_walks_back_to_a_negative_tick
              (Metronome.set_bpm (JInt (-60))
                 (Metronome.set_nextTick (Metronome.Fin (1 # 2))
                    (Metronome.initial (JInt 0))))
              (-60)%Z 1%Q (1 # 2)%Q eq_refl eq_refl eq_refl W0 eq_refl)
    as (n & H1 & _ & H2 & _ & _ & _ & H3 & _).
  exists n. split; [exact H1|]. split; [exact H2|exact H3].
Defined.

Lemma restart_leaves_a_second_scheduler_loop_witness :
  exists fuel0 s',
    (forall fuel, (fuel0 <= fuel)%nat ->
       Metronome.run fuel
         [Metronome.MetroBtnClick (1 # 100); Metronome.MetroBtnClick (2 # 100);
          Metronome.FireRunScheduler (3 # 100)]
         (Metronome.set_timers [Metronome.RunSchedulerTimer 25]
            (Metronome.set_nextTick (Metronome.Fin (1 # 2))
               (Metronome.set_isMetronomeOn true
                  (Metronome.initial (JInt 0)))))
       = Some s')
    /\ Metronome.pending_schedulers s' = 2%nat.
Proof.
  assert (W0 : forall t : Q,
             Metronome.nextTick
               (Metronome.set_timers [Metronome.RunSchedulerTimer 25]
                  (Metronome.set_nextTick (Metronome.Fin (1 # 2))
                     (Metronome.set_isMetronomeOn true
                        (Metronome.initial (JInt 0)))))
             = Metronome.Fin t -> (0 <= t)%Q).
  { intros t H. injection H as <-. vm_compute. discriminate. }
  assert (W2 : (0 <= 2 # 100)%Q) by (vm_compute; discriminate).
  destruct (restart_leaves_a_second_scheduler_loop
              (Metronome.set_timers [Metronome.RunSchedulerTimer 25]
                 (Metronome.set_nextTick (Metronome.Fin (1 # 2))
                    (Metronome.set_isMetronomeOn true
                       (Metronome.initial (JInt 0)))))
              120%Z eq_refl eq_refl eq_refl W0) as [_ H].
  destruct (H (1 # 100)%Q (2 # 100)%Q [Metronome.FireRunScheduler (3 # 100)]
              W2 eq_refl) as (fuel0 & s' & Hrun & _ & Hp).
  exists fuel0, s'. split; [exact Hrun|exact Hp].
Defined.

Lemma pulse_is_lit_only_with_its_switch_off_pending_witness :
  exists s,
    Metronome.run 5 [Metronome.MetroBtnClick 0; Metronome.FirePulseOn]
      (Metronome.initial (JInt 0)) = Some s
    /\ Metronome.pulseOn s = true
    /\ In (Metronome.PulseOffTimer 60) (Metronome.timers s).
Proof.
  assert (E : exists s,
             Metronome.run 5 [Metronome.MetroBtnClick 0; Metronome.FirePulseOn]
               (Metronome.initial (JInt 0)) = Some s
             /\ Metronome.pulseOn s = true)
    by (vm_compute; eexists; split; reflexivity).
  destruct E as (s & E & Hon). exists s.
  split; [exact E|]. split; [exact Hon|].
  apply (pulse_is_lit_only_with_its_switch_off_pending 5
           [Metronome.MetroBtnClick 0; Metronome.FirePulseOn] (JInt 0) s
           E Hon).
Defined.

(** ** Latency setting: what a save leaves in the store *)

Section SettingsRoundTrip.
Import Settings.
Local Open Scope Z_scope.
Local Open Scope string_scope.

(** X5.  For a text of ASCII characters in the latency field whose
    integer [parseInt(value, 10) || 0] is at most 2^53 in magnitude (the
    integers a double holds exactly; beyond them [parseInt] rounds and the
    statement does not hold), and whatever the store held before: a click
    on save leaves the decimal form of that integer under the key,
    touches no other key, and a fresh load reads the integer back, not
    [NaN]; saving the text that the loaded value prints as changes
    nothing. *)
Theorem save_leaves_a_loadable_latency :
  forall (value : string) (s : State),
    let n := or_zero (parseInt value) in
    let s' := saveLatency_click value s in
    Pads.is_ascii value = true ->
    Z.abs n <= 2 ^ 53 ->
    latencyMs s' = JInt n
    /\ localStorage s' !! "latencyMs" = Some (String_ n)
    /\ (forall k, k <> "latencyMs" ->
          localStorage s' !! k = localStorage s !! k)
    /\ latencyMs (load (localStorage s')) = JInt n
    /\ saveLatency_click (String_ n) s' = s'.
Proof.
  intros value s n s' _ _. unfold s', saveLatency_click. fold n. simpl.
  split; [reflexivity|].
  split; [apply lookup_insert_eq|].
  split; [intros k Hk; now apply lookup_insert_ne|].
  split.
  - unfold load. simpl. rewrite lookup_insert_eq. simpl.
    rewrite String_not_empty. apply parseInt_String.
  - rewrite parseInt_String. simpl. now rewrite insert_insert_eq.
Qed.

End SettingsRoundTrip.

Lemma save_leaves_a_loadable_latency_witness :
  Settings.latencyMs
    (Settings.load
       (Settings.localStorage
          (Settings.saveLatency_click "-35 ms"
             (Settings.load (<["latencyMs" := "abc"]> ∅)))))
  = JInt (-35).
Proof.
  destruct (save_leaves_a_loadable_latency "-35 ms"
              (Settings.load (<["latencyMs" := "abc"]> ∅)))
    as (_ & _ & _ & H & _).
  - reflexivity.
  - vm_compute. discriminate.
  - exact H.
Defined.

(** ** Recorder: chunks, blob and sessions *)

Section RecorderSessions.
Import Recorder Sessions.
Local Open Scope Z_scope.

Variable sup : string -> bool.

Lemma stopRecording_tidy s s' :
  tidy s -> stopRecording s = Normal s' -> tidy s'.
Proof.
  intros Ht. unfold stopRecording.
  destruct (recording s) eqn:E; simpl.
  - destruct (recorder s) as [r|]; [|discriminate].
    intros [= <-]. destruct Ht as [_ Hk]. split; simpl; [|exact Hk].
    intros r' [= <-]. discriminate.
  - intros [= <-]. exact Ht.
Qed.

Lemma tick_tidy st now s s' :
  tidy s -> tick st now s = Normal s' -> tidy s'.
Proof.
  intros Ht. unfold tick. destruct (recording s) eqn:E; simpl.
  - destruct (maxRecSec s <=? (now - st) / 1000).
    + apply stopRecording_tidy. destruct Ht as [Hj Hk]. split; simpl; auto.
    + intros [= <-]. destruct Ht as [Hj Hk]. split; simpl; auto.
  - intros [= <-]. exact Ht.
Qed.

Lemma step_tidy e s s' :
  tidy s -> step sup e s = Normal s' -> tidy s'.
Proof.
  intros Ht. destruct e as [now|i now|data| |]; simpl.
  - unfold recBtn_click. simpl. destruct (recording s) eqn:E.
    + apply stopRecording_tidy. destruct Ht as [Hj Hk]. split; simpl; auto.
    + unfold startRecording. simpl.
      apply tick_tidy. split; simpl; [reflexivity|constructor].
  - destruct (nth_error (timers s) i) as [t|]; [|intros [= <-]; exact Ht].
    apply tick_tidy. destruct Ht as [Hj Hk]. split; simpl; auto.
  - destruct (recorder s) eqn:E; [|intros [= <-]; exact Ht].
    intros [= <-]. unfold ondataavailable.
    destruct (0 <? size data) eqn:Hd; [|exact Ht].
    destruct Ht as [Hj Hk]. split; simpl; [exact Hj|].
    apply Forall_app. split; [exact Hk|].
    constructor; [now apply Z.ltb_lt|constructor].
  - destruct (stopEvents s) as [|n]; intros [= <-]; [exact Ht|].
    destruct Ht as [Hj Hk]. split; simpl; auto.
  - intros [= <-]. destruct Ht as [Hj Hk]. split; simpl; auto.
Qed.

Lemma reachable_tidy s : reachable sup s -> tidy s.
Proof.
  induction 1 as [|e s s' _ IH Hstep].
  - split; [discriminate|constructor].
  - exact (step_tidy e s s' IH Hstep).
Qed.

Lemma sum_sizes_pos l :
  Forall (fun b => 0 < size b) l ->
  0 <= fold_right Z.add 0 (List.map size l)
  /\ (fold_right Z.add 0 (List.map size l) = 0 -> l = []).
Proof.
  induction 1 as [|b l Hb _ [IH1 IH2]]; simpl; [auto with zarith|].
  split; [lia|]. intros H. lia.
Qed.

(** X6.  In every state the recorder can reach, the flag
    [state.recording] is set exactly when the recorder object is
    recording, so no recorder is left running behind a cleared flag. *)
Theorem flag_is_set_exactly_while_the_recorder_records :
  forall s : State,
    reachable sup s ->
    (recording s = true <->
     exists r, recorder s = Some r /\ state r = recording_).
Proof.
  intros s Hr. split.
  - intros H. destruct (reachable_sound sup s Hr) as [_ Hs].
    destruct (Hs H) as (_ & r & H1 & H2). exists r. auto.
  - intros (r & H1 & H2). destruct (reachable_tidy s Hr) as [Hj _].
    exact (Hj r H1 H2).
Qed.

(** X7.  In every state the recorder can reach no stored chunk is empty
    (the handler drops data of size 0).  So when a [stop] event is
    delivered, the blob handed to the player has the summed size of the
    chunks, is empty only if no data was kept, carries the type of the
    first chunk when that has one and ['audio/webm'] otherwise, and the
    play, download and clear buttons are enabled. *)
Theorem stop_event_builds_the_blob_of_the_chunks :
  forall (s : State) (n : nat),
    reachable sup s -> stopEvents s = S n ->
    Forall (fun b => 0 < size b) (chunks s)
    /\ exists s' b,
         step sup RecorderStopped s = Normal s'
         /\ playback_src s' = Some b
         /\ buttons_disabled s' = false
         /\ stopEvents s' = n
         /\ size b = fold_right Z.add 0 (List.map size (chunks s))
         /\ (size b = 0 <-> chunks s = [])
         /\ type b <> ""%string
         /\ (forall c r, chunks s = c :: r -> type c <> ""%string ->
               type b = type c)
         /\ (chunks s = [] -> type b = "audio/webm"%string).
Proof.
  intros s n Hr Hn. destruct (reachable_tidy s Hr) as [_ Hk].
  split; [exact Hk|]. simpl. rewrite Hn.
  eexists. exists (Blob_of (chunks s)). split; [reflexivity|]. simpl.
  split; [reflexivity|]. split; [reflexivity|]. split; [reflexivity|].
  split; [reflexivity|].
  destruct (sum_sizes_pos _ Hk) as [H1 H2].
  split; [|split; [|split]].
  - split; [exact H2|]. intros ->. reflexivity.
  - destruct (chunks s) as [|c r]; [discriminate|].
    destruct (String.eqb (type c) "") eqn:E; [discriminate|].
    now apply String.eqb_neq in E.
  - intros c r -> Hc. apply String.eqb_neq in Hc. now rewrite Hc.
  - intros ->. reflexivity.
Qed.

Lemma stop_click t s r :
  recording s = true -> recorder s = Some r ->
  exists s',
    step sup (RecBtnClick t) s = Normal s'
    /\ recording s' = false
    /\ chunks s' = chunks s
    /\ stopEvents s'
       = match state r with
         | recording_ => S (stopEvents s)
         | inactive => stopEvents s
         end
    /\ exists r', recorder s' = Some r'.
Proof.
  intros Hrec Hr. simpl. unfold recBtn_click. simpl. rewrite Hrec.
  unfold stopRecording. simpl. rewrite ?Hrec, Hr. simpl.
  eexists. split; [reflexivity|]. simpl. repeat split. eauto.
Qed.

(** X8.  One recording from start to finish.  From any state the
    recorder can reach in which nothing is being recorded: a click on the
    record button starts a session with an empty chunk list (chunks of an
    earlier recording are dropped), a second click stops it, and when the
    [stop] event is delivered the blob handed to the player is built from
    exactly the non-empty data the recorder delivered since the start, in
    the order of delivery, whether it came before or after the click on
    stop. *)
Theorem a_recording_yields_the_data_delivered_since_its_start :
  forall (s : State) (t1 t2 : Z) (ds1 ds2 : list Blob),
    reachable sup s -> recording s = false ->
    exists s',
      run sup (RecBtnClick t1 :: List.map DataAvailable ds1
               ++ RecBtnClick t2 :: List.map DataAvailable ds2
               ++ [RecorderStopped]) s = Normal s'
      /\ recording s' = false
      /\ chunks s' = List.filter (fun d => 0 <? size d) (ds1 ++ ds2)
      /\ playback_src s'
         = Some (Blob_of (List.filter (fun d => 0 <? size d) (ds1 ++ ds2)))
      /\ buttons_disabled s' = false.
Proof.
  intros s t1 t2 ds1 ds2 Hr Hoff.
  destruct (reachable_sound sup s Hr) as [Hm _].
  (* the start *)
  set (s1 := {| ctx := true; maxRecSec := maxRecSec s; recording := true;
                recorder := Some {| mimeType := preferredMime sup;
                                    state := recording_ |};
                chunks := [];
                timers := timers s ++ [ {| started := t1; due := t1 + 250 |} ];
                stopEvents := stopEvents s; recBtn := "■ Stop";
                recTimer := 0; playback_src := playback_src s;
                buttons_disabled := buttons_disabled s |}).
  assert (H1 : step sup (RecBtnClick t1) s = Normal s1).
  { simpl. unfold recBtn_click. simpl. rewrite Hoff.
    unfold startRecording. simpl. rewrite ?Hoff. simpl.
    unfold tick. simpl. rewrite ?Hoff, Z.sub_diag.
    change (0 / 1000) with 0. unfold s1. rewrite Hm. reflexivity. }
  destruct (data_run sup ds1 s1 _ eq_refl)
    as (s2 & H2 & Hc2 & Hrec2 & Hrr2 & Hse2 & Hm2).
  simpl in Hc2, Hrec2, Hrr2, Hse2.
  (* the stop *)
  destruct (stop_click t2 s2 _ Hrec2 Hrr2) as (s3 & H3 & Hs3).
  simpl in Hs3.
  destruct Hs3 as (Hrec3 & Hc3 & Hse3 & r3 & Hrr3).
  destruct (data_run sup ds2 s3 r3 Hrr3)
    as (s4 & H4 & Hc4 & Hrec4 & Hrr4 & Hse4 & Hm4).
  exists (onRecStop (set_stopEvents (stopEvents s2) s4)).
  split.
  - change (run sup (RecBtnClick t1 :: ?l) s)
      with (match step sup (RecBtnClick t1) s with
            | Normal s' => run sup l s'
            | Throw err s' => Throw err s'
            end).
    rewrite H1. rewrite (run_app sup _ _ _ _ H2).
    change (run sup (RecBtnClick t2 :: ?l) s2)
      with (match step sup (RecBtnClick t2) s2 with
            | Normal s' => run sup l s'
            | Throw err s' => Throw err s'
            end).
    rewrite H3. rewrite (run_app sup _ _ _ _ H4). simpl.
    rewrite Hse4, Hse3. reflexivity.
  - assert (Hc : chunks s4
                 = List.filter (fun d => 0 <? size d) (ds1 ++ ds2)).
    { rewrite Hc4, Hc3, Hc2. simpl. now rewrite List.filter_app. }
    simpl. rewrite Hc. repeat split; congruence.
Qed.

(** X9.  [preferredMime] is the first of the four types, in the order of
    the source, that the platform supports, and the empty string when it
    supports none of them. *)
Theorem preferredMime_is_the_first_supported_type :
  let types := ["audio/webm;codecs=opus"; "audio/ogg;codecs=opus";
                "audio/mp4"; "audio/webm"]%string in
  (preferredMime sup = ""%string
   /\ Forall (fun t => sup t = false) types)
  \/ (exists pre post,
        types = pre ++ preferredMime sup :: post
        /\ sup (preferredMime sup) = true
        /\ Forall (fun t => sup t = false) pre).
Proof.
  intros types. unfold preferredMime. simpl.
  destruct (sup "audio/webm;codecs=opus") eqn:E1.
  { right. exists [], (tl types). rewrite E1. repeat split. constructor. }
  destruct (sup "audio/ogg;codecs=opus") eqn:E2.
  { right. exists ["audio/webm;codecs=opus"%string], (tl (tl types)).
    rewrite E2. repeat split. repeat constructor. exact E1. }
  destruct (sup "audio/mp4") eqn:E3.
  { right.
    exists ["audio/webm;codecs=opus"; "audio/ogg;codecs=opus"]%string,
           (tl (tl (tl types))).
    rewrite E3. repeat split. repeat constructor; assumption. }
  destruct (sup "audio/webm") eqn:E4.
  { right.
    exists ["audio/webm;codecs=opus"; "audio/ogg;codecs=opus"; "audio/mp4"]%string,
           [].
    rewrite E4. repeat split. repeat constructor; assumption. }
  left. split; [reflexivity|]. repeat constructor; assumption.
Qed.

(** X22.  [downloadRecording] offers nothing while the player has no
    source (before the first recording and after a clear).  For a
    recording whose first chunk has the type the recorder was created
    with, the file is named [pocket-drums-<clock>.<ext>], where the
    extension follows the preferred type: [webm] for either WebM type,
    [ogg] for Ogg, [m4a] for MP4, and [webm] when the platform supports
    none of the four (the blob then gets the type ['audio/webm']). *)
Theorem download_names_the_file_after_the_preferred_type :
  forall (s : State) (now : Z) (c : Blob) (r : list Blob),
    (playback_src s = None -> Download.downloadRecording now s = None)
    /\ Download.downloadRecording now (clearRecording s) = None
    /\ (type c = preferredMime sup ->
        playback_src s = Some (Blob_of (c :: r)) ->
        Download.downloadRecording now s
        = Some (String.append "pocket-drums-"
                  (String.append (Settings.String_ now)
                     (String.append "."
                        (if sup "audio/webm;codecs=opus" then "webm"
                         else if sup "audio/ogg;codecs=opus" then "ogg"
                         else if sup "audio/mp4" then "m4a"
                         else "webm")))))%string.
Proof.
  intros s now c r. unfold Download.downloadRecording.
  split; [now intros ->|]. split; [reflexivity|].
  intros Hc ->. simpl. rewrite Hc. unfold preferredMime. simpl.
  destruct (sup "audio/webm;codecs=opus"); [reflexivity|].
  destruct (sup "audio/ogg;codecs=opus"); [reflexivity|].
  destruct (sup "audio/mp4"); [reflexivity|].
  destruct (sup "audio/webm"); reflexivity.
Qed.

End RecorderSessions.

Lemma flag_is_set_exactly_while_the_recorder_records_witness :
  exists s r,
    Recorder.step (fun _ => true) (Recorder.RecBtnClick 0) Recorder.initial
    = Normal s
    /\ Recorder.recorder s = Some r
    /\ Recorder.state r = Recorder.recording_
    /\ Recorder.recording s = true.
Proof.
  eexists. eexists. split; [reflexivity|].
  split; [reflexivity|]. split; [reflexivity|].
  apply (flag_is_set_exactly_while_the_recorder_records (fun _ => true)).
  - apply (Recorder.reachable_step _ (Recorder.RecBtnClick 0) Recorder.initial);
      [apply Recorder.reachable_initial|reflexivity].
  - eexists. split; reflexivity.
Defined.

Lemma stop_event_builds_the_blob_of_the_chunks_witness :
  exists s' b,
    Recorder.run (fun _ => true)
      [Recorder.RecBtnClick 0;
       Recorder.DataAvailable {| Recorder.size := 10; Recorder.type := "audio/ogg" |};
       Recorder.RecBtnClick 500; Recorder.RecorderStopped]
      Recorder.initial = Normal s'
    /\ Recorder.playback_src s' = Some b
    /\ Recorder.size b = 10%Z.
Proof.
  pose (s3 := {| Recorder.ctx := true; Recorder.maxRecSec := 60;
                 Recorder.recording := false;
                 Recorder.recorder :=
                   Some {| Recorder.mimeType := "audio/webm;codecs=opus";
                           Recorder.state := Recorder.inactive |};
                 Recorder.chunks :=
                   [ {| Recorder.size := 10; Recorder.type := "audio/ogg" |} ];
                 Recorder.timers :=
                   [ {| Recorder.started := 0; Recorder.due := 250 |} ];
                 Recorder.stopEvents := 1; Recorder.recBtn := "● Record";
                 Recorder.recTimer := 0; Recorder.playback_src := None;
                 Recorder.buttons_disabled := true |}).
  assert (Hr : Recorder.reachable (fun _ => true) s3).
  { eapply Recorder.reachable_step with (e := Recorder.RecBtnClick 500).
    - eapply Recorder.reachable_step
        with (e := Recorder.DataAvailable
                     {| Recorder.size := 10; Recorder.type := "audio/ogg" |}).
      + eapply Recorder.reachable_step with (e := Recorder.RecBtnClick 0).
        * apply Recorder.reachable_initial.
        * reflexivity.
      + reflexivity.
    - reflexivity. }
  destruct (stop_event_builds_the_blob_of_the_chunks (fun _ => true) s3 0 Hr
              eq_refl) as (_ & s' & b & H1 & H2 & _ & _ & H3 & _).
  exists s', b. split; [exact H1|]. split; [exact H2|exact H3].
Defined.

Lemma a_recording_yields_the_data_delivered_since_its_start_witness :
  exists s',
    Recorder.run (fun _ => true)
      [Recorder.RecBtnClick 0;
       Recorder.RecBtnClick 500;
       Recorder.DataAvailable {| Recorder.size := 10; Recorder.type := "" |};
       Recorder.RecorderStopped]
      Recorder.initial = Normal s'
    /\ Recorder.playback_src s'
       = Some {| Recorder.size := 10; Recorder.type := "audio/webm" |}.
Proof.
  destruct (a_recording_yields_the_data_delivered_since_its_start
              (fun _ => true) Recorder.initial 0%Z 500%Z []
              [ {| Recorder.size := 10; Recorder.type := "" |} ]
              (Recorder.reachable_initial _) eq_refl)
    as (s' & H1 & _ & _ & H2 & _).
  exists s'. split; [exact H1|exact H2].
Defined.

Lemma download_names_the_file_after_the_preferred_type_witness :
  Download.downloadRecording 1234
    (Recorder.onRecStop
       {| Recorder.ctx := true; Recorder.maxRecSec := 60;
          Recorder.recording := false; Recorder.recorder := None;
          Recorder.chunks :=
            [ {| Recorder.size := 10; Recorder.type := "audio/mp4" |} ];
          Recorder.timers := []; Recorder.stopEvents := 0;
          Recorder.recBtn := "● Record"; Recorder.recTimer := 0;
          Recorder.playback_src := None;
          Recorder.buttons_disabled := true |})
  = Some "pocket-drums-1234.m4a"%string.
Proof.
  destruct (download_names_the_file_after_the_preferred_type
              (fun t => String.eqb t "audio/mp4")
              (Recorder.onRecStop
                 {| Recorder.ctx := true; Recorder.maxRecSec := 60;
                    Recorder.recording := false; Recorder.recorder := None;
                    Recorder.chunks :=
                      [ {| Recorder.size := 10;
                           Recorder.type := "audio/mp4" |} ];
                    Recorder.timers := []; Recorder.stopEvents := 0;
                    Recorder.recBtn := "● Record"; Recorder.recTimer := 0;
                    Recorder.playback_src := None;
                    Recorder.buttons_disabled := true |})
              1234%Z
              {| Recorder.size := 10; Recorder.type := "audio/mp4" |} [])
    as (_ & _ & H).
  exact (H eq_refl eq_refl).
Defined.

(** ** Elapsed-time display *)

Section DisplayFacts.
Import Display.
Local Open Scope Z_scope.

Lemma fmt_checked :
  forallb
    (fun n : nat =>
       let s := Z.of_nat n in
       match fmt s with
       | String a (String b (String c (String d (String e EmptyString)))) =>
           Ascii.eqb c ":"
           && match Settings.parseInt (String a (String b EmptyString)),
                    Settings.parseInt (String d (String e EmptyString)) with
              | JInt m, JInt ss => (m =? s / 60) && (ss =? s mod 60)
              | _, _ => false
              end
       | _ => false
       end)
    (List.seq 0 (Z.to_nat 6000)) = true.
Proof. vm_compute. reflexivity. Qed.

(** X10.  For a whole number of seconds below 100 minutes, [fmt] prints
    five characters: two digits of minutes, a colon and two digits of
    seconds, which read back as [s / 60] and [s mod 60]. *)
Theorem fmt_prints_minutes_and_seconds :
  forall s : Z,
    0 <= s < 6000 ->
    exists a b d e : ascii,
      fmt s = String a (String b (String ":" (String d (String e EmptyString))))
      /\ Settings.parseInt (String a (String b EmptyString)) = JInt (s / 60)
      /\ Settings.parseInt (String d (String e EmptyString)) = JInt (s mod 60).
Proof.
  intros s Hs.
  pose proof fmt_checked as H. rewrite forallb_forall in H.
  specialize (H (Z.to_nat s)). rewrite Z2Nat.id in H by lia.
  assert (Hin : In (Z.to_nat s) (List.seq 0 (Z.to_nat 6000)))
    by (apply in_seq; lia).
  specialize (H Hin). cbv zeta in H.
  destruct (fmt s) as [|a [|b [|c [|d [|e [|]]]]]]; try discriminate.
  apply andb_true_iff in H. destruct H as [Hc H].
  apply Ascii.eqb_eq in Hc. subst c.
  destruct (Settings.parseInt (String a (String b EmptyString))) as [m|] eqn:E1;
    [|discriminate].
  destruct (Settings.parseInt (String d (String e EmptyString))) as [ss|] eqn:E2;
    [|discriminate].
  apply andb_true_iff in H. destruct H as [Hm Hss].
  apply Z.eqb_eq in Hm, Hss. subst m ss.
  exists a, b, d, e. repeat split; assumption.
Qed.

End DisplayFacts.

Lemma fmt_prints_minutes_and_seconds_witness :
  exists a b d e : ascii,
    Display.fmt 75
    = String a (String b (String ":" (String d (String e EmptyString))))
    /\ Settings.parseInt (String a (String b EmptyString)) = JInt (75 / 60)
    /\ Settings.parseInt (String d (String e EmptyString)) = JInt (75 mod 60).
Proof.
  apply (fmt_prints_minutes_and_seconds 75). lia.
Defined.

(** ** Trigger path once the kits are ready *)

Section TriggerRuns.
Import Trigger Pads.
Local Open Scope Q_scope.

Context {AudioBuffer : Type}.

Lemma fold_insert_lookup {A} (f : string -> A) (l : list string) :
  forall (m : gmap string A) (pad : string),
    List.fold_left (fun m k => <[k := f k]> m) l m !! pad
    = if List.existsb (String.eqb pad) l then Some (f pad) else m !! pad.
Proof.
  induction l as [|a l IH]; intros m pad; [reflexivity|].
  simpl. rewrite IH. destruct (List.existsb (String.eqb pad) l).
  - now rewrite orb_true_r.
  - rewrite orb_false_r. destruct (String.eqb pad a) eqn:E.
    + apply String.eqb_eq in E. subst a. apply lookup_insert_eq.
    + apply String.eqb_neq in E. apply lookup_insert_ne. congruence.
Qed.

Lemma kit_of_lookup (b : AudioBuffer) pad :
  kit_of b !! pad = if is_pad pad then Some b else None.
Proof.
  unfold kit_of. rewrite (fold_insert_lookup (fun _ => b)).
  unfold is_pad. now destruct (List.existsb (String.eqb pad) Trigger.PADS).
Qed.

Lemma initAudio_gains latency pad :
  gains (initAudio (AudioBuffer := AudioBuffer) (initial latency)) !! pad
  = if is_pad pad
    then Some {| value := defaultPadGain pad; events := [] |}
    else None.
Proof.
  unfold initAudio. change (ctx (initial latency)) with false.
  cbv iota. cbn [gains initial].
  rewrite (fold_insert_lookup
             (fun id => {| value := defaultPadGain id; events := [] |})).
  unfold is_pad. now destruct (List.existsb (String.eqb pad) Trigger.PADS).
Qed.

Lemma is_Some_if {A} (c : bool) (x : A) :
  is_Some (if c then Some x else None) <-> c = true.
Proof.
  destruct c; split; intros H; try discriminate; eauto.
  destruct H; discriminate.
Qed.

Lemma ready_prepared (b : AudioBuffer) (l : Z) : prepared (ready b (JInt l)).
Proof.
  split; [reflexivity|]. split; [now left|]. split; [|split].
  - intros flavor [-> | ->]; exists (kit_of b).
    + split; [reflexivity|]. intros pad. rewrite kit_of_lookup.
      apply is_Some_if.
    + split; [reflexivity|]. intros pad. rewrite kit_of_lookup.
      apply is_Some_if.
  - intros pad Hp. unfold ready. simpl gains.
    change (is_Some (gains (initAudio (AudioBuffer := AudioBuffer)
                              (initial (JInt l))) !! pad)).
    rewrite initAudio_gains, Hp. eauto.
  - exists l. reflexivity.
Qed.

Lemma chokeHiHat_prepared now (s : State AudioBuffer) :
  prepared s ->
  prepared (chokeHiHat now s)
  /\ playing (chokeHiHat now s) = playing s
  /\ kit (chokeHiHat now s) = kit s
  /\ buffers (chokeHiHat now s) = buffers s
  /\ latencyMs (chokeHiHat now s) = latencyMs s.
Proof.
  intros (H1 & H2 & H3 & H4 & H5).
  destruct (H4 "hatO"%string eq_refl) as [gOpen Hg].
  destruct (chokeHiHat_gain now s gOpen Hg)
    as (Hg' & Hother & _ & F1 & F2 & F3 & F4 & F5).
  cbv zeta in *. split; [|repeat split; congruence].
  unfold prepared. split; [congruence|].
  split; [rewrite F2; exact H2|].
  split; [intros flavor Hf; rewrite F3; now apply H3|].
  split; [|destruct H5 as [l H5]; exists l; congruence].
  intros pad Hp. destruct (String.eqb pad "hatO") eqn:E.
  - apply String.eqb_eq in E. subst pad. rewrite Hg'. eauto.
  - apply String.eqb_neq in E. rewrite (Hother pad E). now apply H4.
Qed.

Lemma Qltb_false_of_le (a : Q) : 0 <= a -> Qltb a 0 = false.
Proof. intros H. now apply Qltb_ge. Qed.

(** A trigger on a prepared state whose start time is not negative: it
    returns; for one of the ten pads it starts one source on the buffer
    of the current kit, for any other id it leaves the state as it is. *)
Lemma playPad_prepared pad velocity now (s : State AudioBuffer) (l : Z) :
  prepared s -> latencyMs s = JInt l ->
  (is_pad pad = true -> 0 <= now + inject_Z l / 1000) ->
  exists s',
    playPad pad velocity now s = Normal s'
    /\ prepared s'
    /\ kit s' = kit s /\ buffers s' = buffers s
    /\ latencyMs s' = latencyMs s
    /\ (is_pad pad = false -> s' = s)
    /\ (is_pad pad = true ->
        exists k buf,
          buffers s !! kit s = Some k /\ k !! pad = Some buf
          /\ playing s'
             = playing s
               ++ [ {| buffer := buf; vca := velocity; destination := pad;
                       when := now + inject_Z l / 1000 |} ]).
Proof.
  intros Hs H5 Hw. pose proof Hs as (H1 & H2 & H3 & H4 & _).
  destruct (H3 (kit s) H2) as (k & Hk & Hdom).
  unfold playPad. rewrite H1, Hk. simpl.
  destruct (k !! pad) as [buf|] eqn:Hbuf.
  - assert (Hp : is_pad pad = true) by (apply Hdom; eauto).
    set (s1 := if String.eqb pad "hatC" || String.eqb pad "hatP"
               then chokeHiHat now s else s).
    assert (Hs1 : prepared s1 /\ playing s1 = playing s /\ kit s1 = kit s
                  /\ buffers s1 = buffers s /\ latencyMs s1 = latencyMs s).
    { unfold s1. destruct (String.eqb pad "hatC" || String.eqb pad "hatP").
      - now apply chokeHiHat_prepared.
      - split; [exact Hs|repeat split]. }
    destruct Hs1 as ((G1 & G2 & G3 & G4 & G5) & Hpl & Hkit & Hbufs & Hlat).
    destruct (G4 pad Hp) as [g Hg]. rewrite Hg, Hlat, H5.
    rewrite (Qltb_false_of_le _ (Hw Hp)).
    eexists. split; [reflexivity|].
    cbn [ctx kit buffers gains latencyMs playing timers].
    split; [unfold prepared; cbn [ctx kit buffers gains latencyMs];
            repeat (split; [assumption|]); eauto|].
    split; [exact Hkit|]. split; [exact Hbufs|]. split; [congruence|].
    split; [congruence|]. intros _. exists k, buf.
    repeat split; try assumption. now rewrite Hpl.
  - assert (Hp : is_pad pad = false).
    { destruct (is_pad pad) eqn:E; [|reflexivity].
      apply Hdom in E. destruct E as [x Hx]. congruence. }
    exists s. split; [reflexivity|]. split; [exact Hs|].
    repeat split. congruence.
Qed.

(** A trigger of one of the ten pads whose start time is negative throws
    at [src.start]: no source is started, and the choke of a closed or
    pedal hi-hat has been scheduled. *)
Lemma playPad_negative_start pad velocity now (s : State AudioBuffer) (l : Z) :
  prepared s -> latencyMs s = JInt l -> is_pad pad = true ->
  now + inject_Z l / 1000 < 0 ->
  exists s',
    playPad pad velocity now s = Throw RangeError s'
    /\ playing s' = playing s
    /\ s' = (if String.eqb pad "hatC" || String.eqb pad "hatP"
             then chokeHiHat now s else s).
Proof.
  intros Hs H5 Hp Hw. pose proof Hs as (H1 & H2 & H3 & H4 & _).
  destruct (H3 (kit s) H2) as (k & Hk & Hdom).
  unfold playPad. rewrite H1, Hk. simpl.
  destruct (proj2 (Hdom pad) Hp) as [buf Hbuf]. rewrite Hbuf.
  set (s1 := if String.eqb pad "hatC" || String.eqb pad "hatP"
             then chokeHiHat now s else s).
  assert (Hs1 : prepared s1 /\ playing s1 = playing s /\ kit s1 = kit s
                /\ buffers s1 = buffers s /\ latencyMs s1 = latencyMs s).
  { unfold s1. destruct (String.eqb pad "hatC" || String.eqb pad "hatP").
    - now apply chokeHiHat_prepared.
    - split; [exact Hs|repeat split]. }
  destruct Hs1 as ((G1 & G2 & G3 & G4 & G5) & Hpl & Hkit & Hbufs & Hlat).
  destruct (G4 pad Hp) as [g Hg]. rewrite Hg, Hlat, H5.
  apply Qltb_lt in Hw. rewrite Hw.
  exists s1. repeat split. exact Hpl.
Qed.

Lemma kitBtn_click_prepared (s : State AudioBuffer) :
  prepared s -> prepared (kitBtn_click s).
Proof.
  intros (H1 & H2 & H3 & H4 & H5). unfold prepared. simpl.
  split; [exact H1|]. split; [|auto].
  destruct (String.eqb (kit s) "rock"); auto.
Qed.

Lemma choke_restore_prepared now r (s : State AudioBuffer) :
  prepared s -> prepared (choke_restore now (set_timers r s)).
Proof.
  intros (H1 & H2 & H3 & H4 & H5). unfold choke_restore. simpl.
  destruct (gains s !! "hatO"%string) as [g|] eqn:Hg;
    [|unfold prepared; cbn [ctx kit buffers gains latencyMs set_timers]; tauto].
  unfold prepared. simpl.
  split; [exact H1|]. split; [exact H2|]. split; [exact H3|].
  split; [|exact H5]. intros pad Hp.
  destruct (String.eqb pad "hatO") eqn:E.
  - apply String.eqb_eq in E. subst pad. rewrite lookup_insert_eq. eauto.
  - apply String.eqb_neq in E. rewrite lookup_insert_ne by congruence.
    now apply H4.
Qed.

Lemma step_prepared e (s : State AudioBuffer) (l : Z) :
  prepared s -> latencyMs s = JInt l -> startable l e = true ->
  exists s',
    step e s = Normal s' /\ prepared s' /\ latencyMs s' = JInt l
    /\ List.length (playing s')
       = (List.length (playing s) + if is_play e then 1 else 0)%nat.
Proof.
  intros Hs Hl He. destruct e as [pad velocity now| |now]; simpl.
  - simpl in He. apply andb_true_iff in He. destruct He as [_ He].
    apply Qle_bool_iff in He.
    destruct (playPad_prepared pad velocity now s l Hs Hl (fun _ => He))
      as (s' & H1 & H2 & _ & _ & Hl' & Hno & Hyes).
    exists s'. split; [exact H1|]. split; [exact H2|].
    split; [congruence|].
    destruct (is_pad pad) eqn:E.
    + destruct (Hyes eq_refl) as (k & buf & _ & _ & Hpl).
      rewrite Hpl, List.length_app. reflexivity.
    + rewrite (Hno eq_refl). lia.
  - eexists. split; [reflexivity|]. split; [now apply kitBtn_click_prepared|].
    split; [exact Hl|]. simpl. lia.
  - destruct (timers s) as [|t r].
    + exists s. split; [reflexivity|]. split; [exact Hs|].
      split; [exact Hl|]. lia.
    + eexists. split; [reflexivity|].
      split; [now apply choke_restore_prepared|].
      unfold choke_restore. simpl.
      destruct (gains s !! "hatO"%string); simpl; split; try exact Hl; lia.
Qed.

(** X11.  Once [initAudio] has run to its end and the latency is a
    number, the trigger path does not throw as long as no source is
    asked to start at a negative time: whatever is triggered (the ten
    pads, or ids that are unknown and not names of inherited members, at
    any velocity), however often the kit is toggled and whenever the choke
    timeouts fire, every handler returns, and exactly one source is
    started per trigger of one of the ten pads.  A trigger of a pad whose
    start time [now + latency / 1000] is negative throws a [RangeError]
    at [src.start] and starts no source. *)
Theorem triggers_return_unless_a_start_time_is_negative :
  forall (b : AudioBuffer) (l : Z),
    (forall es : list Event,
        forallb (startable l) es = true ->
        exists s',
          run es (ready b (JInt l)) = Normal s'
          /\ prepared s'
          /\ List.length (playing s') = List.length (List.filter is_play es))
    /\ (forall (s : State AudioBuffer) pad velocity now,
          prepared s -> latencyMs s = JInt l -> is_pad pad = true ->
          now + inject_Z l / 1000 < 0 ->
          exists s',
            playPad pad velocity now s = Throw RangeError s'
            /\ playing s' = playing s).
Proof.
  intros b l. split.
  - intros es Hes.
    assert (H : forall s : State AudioBuffer,
              prepared s -> latencyMs s = JInt l ->
              exists s', run es s = Normal s' /\ prepared s'
                /\ List.length (playing s')
                   = (List.length (playing s)
                      + List.length (List.filter is_play es))%nat).
    { induction es as [|e es IH]; intros s Hs Hl.
      - exists s. split; [reflexivity|]. split; [exact Hs|simpl; lia].
      - simpl in Hes. apply andb_true_iff in Hes. destruct Hes as [He Hes].
        destruct (step_prepared e s l Hs Hl He) as (s1 & H1 & Hs1 & Hl1 & Hn1).
        destruct (IH Hes s1 Hs1 Hl1) as (s2 & H2 & Hs2 & Hn2).
        exists s2. simpl run. rewrite H1. split; [exact H2|].
        split; [exact Hs2|]. rewrite Hn2, Hn1. simpl.
        destruct (is_play e); simpl; lia. }
    destruct (H (ready b (JInt l)) (ready_prepared b l) eq_refl)
      as (s' & H1 & H2 & H3).
    exists s'. split; [exact H1|]. split; [exact H2|exact H3].
  - intros s pad velocity now Hs Hl Hp Hw.
    destruct (playPad_negative_start pad velocity now s l Hs Hl Hp Hw)
      as (s' & H1 & H2 & _).
    exists s'. split; [exact H1|exact H2].
Qed.

(** X12.  When the stored latency does not parse, [state.latencyMs] is
    [NaN] from the load on, and every trigger of one of the ten pads
    throws: the start time handed to [src.start] is [NaN].  No source is
    started; for the closed and pedal hi-hat the choke has been scheduled
    before the throw. *)
Theorem unparsable_stored_latency_breaks_every_trigger :
  forall (b : AudioBuffer) (store : gmap string string)
         (pad : string) (velocity now : Q),
    Settings.latencyMs (Settings.load store) = JNaN ->
    is_pad pad = true ->
    exists s',
      playPad pad velocity now
        (ready b (Settings.latencyMs (Settings.load store)))
      = Throw TypeError s'
      /\ playing s' = []
      /\ timers s'
         = if String.eqb pad "hatC" || String.eqb pad "hatP"
           then [ChokeRestoreTimer 30] else [].
Proof.
  intros b store pad velocity now -> Hp.
  unfold playPad. simpl ctx. simpl negb. cbv iota.
  change (buffers (ready b JNaN) !! kit (ready b JNaN))
    with (Some (kit_of b)).
  cbv iota beta. rewrite kit_of_lookup, Hp.
  set (s1 := if String.eqb pad "hatC" || String.eqb pad "hatP"
             then chokeHiHat now (ready b JNaN) else ready b JNaN).
  assert (Hg0 : forall p, is_pad p = true ->
                  is_Some (gains (ready b JNaN) !! p)).
  { intros p Hpp. unfold ready. simpl gains.
    change (is_Some (gains (initAudio (AudioBuffer := AudioBuffer)
                              (initial JNaN)) !! p)).
    rewrite initAudio_gains, Hpp. eauto. }
  destruct (Hg0 "hatO"%string eq_refl) as [gOpen HgO].
  destruct (chokeHiHat_gain now (ready b JNaN) gOpen HgO)
    as (Hg' & Hother & Ht & _ & _ & _ & Hl & Hpl).
  assert (Hs1 : is_Some (gains s1 !! pad) /\ latencyMs s1 = JNaN
                /\ playing s1 = []
                /\ timers s1
                   = if String.eqb pad "hatC" || String.eqb pad "hatP"
                     then [ChokeRestoreTimer 30] else []).
  { unfold s1. destruct (String.eqb pad "hatC" || String.eqb pad "hatP").
    - split; [|split; [exact Hl|split; [exact Hpl|exact Ht]]].
      destruct (String.eqb pad "hatO") eqn:E.
      + apply String.eqb_eq in E. subst pad. rewrite Hg'. eauto.
      + apply String.eqb_neq in E. rewrite (Hother pad E). now apply Hg0.
    - split; [now apply Hg0|]. repeat split. }
  destruct Hs1 as ([g Hg] & Hlat & Hplay & Htim).
  rewrite Hg, Hlat. exists s1. repeat split; assumption.
Qed.

Lemma increasing_weaken es : forall t t',
  t <= t' -> increasing t' es = true -> increasing t es = true.
Proof.
  induction es as [|e es IH]; intros t t' Hle; [reflexivity|].
  simpl. destruct (clock e) as [c|].
  - intros H. apply andb_true_iff in H. destruct H as [H1 H2].
    apply andb_true_iff. split; [|exact H2].
    apply Qltb_lt. apply Qltb_lt in H1. Lqa.lra.
  - now apply IH.
Qed.

Lemma filter_all {A} (p : A -> bool) l :
  (forall x, In x l -> p x = true) -> List.filter p l = l.
Proof.
  induction l as [|a l IH]; intros H; [reflexivity|].
  simpl. rewrite (H a) by now left. f_equal. apply IH.
  intros x Hx. apply H. now right.
Qed.

Lemma step_stamped e t n (s : State AudioBuffer) (l : Z) :
  prepared s -> latencyMs s = JInt l -> stamped t n s ->
  increasing t [e] = true -> startable l e = true ->
  exists s' t',
    step e s = Normal s' /\ prepared s' /\ latencyMs s' = JInt l
    /\ t <= t'
    /\ (forall r, increasing t (e :: r) = true -> increasing t' r = true)
    /\ stamped t' (n + if is_choke e then 2 else 0) s'.
Proof.
  intros Hs G5 (g & Hg & Hv & Hev & Hn) Hinc Hst.
  destruct e as [pad velocity now| |now]; simpl in Hinc.
  - rewrite andb_true_r in Hinc. apply Qltb_lt in Hinc.
    simpl in Hst. apply andb_true_iff in Hst. destruct Hst as [_ Hst].
    apply Qle_bool_iff in Hst.
    destruct (playPad_prepared pad velocity now s l Hs G5 (fun _ => Hst))
      as (s' & H1 & H2 & _ & _ & Hl' & Hno & _).
    exists s', now. split; [exact H1|]. split; [exact H2|].
    split; [congruence|]. split; [Lqa.lra|].
    split. { intros r Hr. simpl in Hr. apply andb_true_iff in Hr. apply Hr. }
    (* the state after the trigger *)
    pose proof Hs as (G1 & G2 & G3 & G4 & _).
    destruct (G3 (kit s) G2) as (k & Hk & Hdom).
    pose proof (Qltb_false_of_le _ Hst) as Hw.
    revert H1. unfold playPad. rewrite G1, Hk. simpl.
    destruct (k !! pad) as [buf|] eqn:Hbuf.
    + destruct (String.eqb pad "hatC" || String.eqb pad "hatP") eqn:Hc.
      * destruct (chokeHiHat_gain now s g Hg)
          as (Hg' & Hother & Ht & _ & _ & _ & Hl & _).
        assert (Hp : is_pad pad = true) by (apply Hdom; eauto).
        assert (His : is_Some (gains (chokeHiHat now s) !! pad)).
        { destruct (String.eqb pad "hatO") eqn:E.
          - apply String.eqb_eq in E. subst pad. rewrite Hg'. eauto.
          - apply String.eqb_neq in E. rewrite (Hother pad E). now apply G4. }
        destruct His as [gp Hgp]. rewrite Hgp, Hl, G5, Hw.
        intros [= <-]. simpl.
        eexists. split; [exact Hg'|]. simpl. split; [exact Hv|].
        assert (Hf : List.filter (fun e => Qltb (event_time e) now) (events g)
                     = events g).
        { apply filter_all. intros x Hx. apply Qltb_lt.
          specialize (Hev x Hx). Lqa.lra. }
        rewrite Hf. split.
        -- intros x Hx. apply in_app_or in Hx. destruct Hx as [Hx|[<-|[]]].
           ++ specialize (Hev x Hx). Lqa.lra.
           ++ simpl. Lqa.lra.
        -- rewrite Ht, !List.length_app. simpl. lia.
      * destruct (gains s !! pad) as [gp|] eqn:Hgp.
        -- rewrite G5, Hw. intros [= <-]. simpl. rewrite Nat.add_0_r.
           exists g. repeat split; try assumption.
           intros x Hx. specialize (Hev x Hx). Lqa.lra.
        -- intros [=].
    + intros [= <-].
      assert (Hc : String.eqb pad "hatC" || String.eqb pad "hatP" = false).
      { destruct (String.eqb pad "hatC") eqn:E1.
        - apply String.eqb_eq in E1. subst pad.
          assert (is_Some (k !! "hatC"%string)) by (now apply Hdom).
          destruct H as [x Hx]. congruence.
        - destruct (String.eqb pad "hatP") eqn:E2; [|reflexivity].
          apply String.eqb_eq in E2. subst pad.
          assert (is_Some (k !! "hatP"%string)) by (now apply Hdom).
          destruct H as [x Hx]. congruence. }
      rewrite Hc, Nat.add_0_r. exists g. repeat split; try assumption.
      intros x Hx. specialize (Hev x Hx). Lqa.lra.
  - exists (kitBtn_click s), t. split; [reflexivity|].
    split; [now apply kitBtn_click_prepared|]. split; [exact G5|].
    split; [Lqa.lra|].
    split; [intros r Hr; exact Hr|]. rewrite Nat.add_0_r.
    exists g. repeat split; assumption.
  - rewrite andb_true_r in Hinc. apply Qltb_lt in Hinc. cbn [step].
    destruct (timers s) as [|tm r] eqn:Ht.
    + exists s, now. split; [reflexivity|]. split; [exact Hs|].
      split; [exact G5|]. split; [Lqa.lra|].
      split. { intros r Hr. simpl in Hr. apply andb_true_iff in Hr. apply Hr. }
      rewrite Nat.add_0_r. exists g.
      split; [exact Hg|]. split; [exact Hv|]. split.
      * intros x Hx. specialize (Hev x Hx). Lqa.lra.
      * rewrite Ht. exact Hn.
    + eexists. exists now. split; [reflexivity|].
      split; [now apply choke_restore_prepared|].
      split; [unfold choke_restore; simpl; rewrite Hg; exact G5|].
      split; [Lqa.lra|].
      split. { intros r' Hr. simpl in Hr. apply andb_true_iff in Hr. apply Hr. }
      rewrite Nat.add_0_r. unfold choke_restore. simpl. rewrite Hg. simpl.
      eexists. split; [apply lookup_insert_eq|]. simpl.
      split; [exact Hv|].
      rewrite insert_event_last
        by (intros x Hx; specialize (Hev x Hx); simpl; Lqa.lra).
      split.
      * intros x Hx. apply in_app_or in Hx. destruct Hx as [Hx|[<-|[]]].
        -- specialize (Hev x Hx). Lqa.lra.
        -- simpl. Lqa.lra.
      * rewrite List.length_app. simpl in *. lia.
Qed.

(** X13.  While the clock readings of the handlers go up strictly,
    [cancelScheduledValues] in [chokeHiHat] never removes anything: every
    event on the open hi-hat gain is stamped with the clock reading of
    the call that scheduled it, which lies before any later reading.  So
    after any run from the state in which [initAudio] has finished, in
    which no source is asked to start at a negative time (and no id is
    the name of an inherited member), the events on that gain and the
    choke timeouts still pending add up to two per trigger of the closed
    or pedal hi-hat: one decay and one restore each, none lost. *)
Theorem choke_events_accumulate :
  forall (b : AudioBuffer) (l : Z) (t0 : Q) (es : list Event),
    increasing t0 es = true ->
    forallb (startable l) es = true ->
    exists s' g,
      run es (ready b (JInt l)) = Normal s'
      /\ gains s' !! "hatO"%string = Some g
      /\ value g = 6 # 10
      /\ (List.length (events g) + List.length (timers s')
          = 2 * List.length (List.filter is_choke es))%nat.
Proof.
  intros b l t0 es Hinc Hes.
  assert (H : forall (s : State AudioBuffer) t n,
            prepared s -> latencyMs s = JInt l -> stamped t n s ->
            increasing t es = true ->
            exists s' t',
              run es s = Normal s'
              /\ stamped t'
                   (n + 2 * List.length (List.filter is_choke es)) s').
  { clear Hinc. induction es as [|e es IH]; intros s t n Hs Hl Hst Hinc.
    - exists s, t. split; [reflexivity|]. simpl. now rewrite Nat.add_0_r.
    - simpl in Hes. apply andb_true_iff in Hes. destruct Hes as [Hse Hes].
      assert (He : increasing t [e] = true).
      { simpl in *. destruct (clock e); [|reflexivity].
        apply andb_true_iff in Hinc. rewrite (proj1 Hinc). reflexivity. }
      destruct (step_stamped e t n s l Hs Hl Hst He Hse)
        as (s1 & t1 & H1 & Hs1 & Hl1 & _ & Hnext & Hst1).
      destruct (IH Hes s1 t1 _ Hs1 Hl1 Hst1 (Hnext es Hinc))
        as (s2 & t2 & H2 & Hst2).
      exists s2, t2. simpl run. rewrite H1. split; [exact H2|].
      simpl List.filter. destruct (is_choke e); simpl List.length;
        [|now rewrite Nat.add_0_r in Hst2].
      replace (n + 2 * S (List.length (List.filter is_choke es)))%nat
        with (n + 2 + 2 * List.length (List.filter is_choke es))%nat by lia.
      exact Hst2. }
  assert (H0 : stamped t0 0 (ready b (JInt l))).
  { exists {| value := defaultPadGain "hatO"; events := [] |}.
    split.
    - unfold ready. simpl gains.
      change (gains (initAudio (AudioBuffer := AudioBuffer)
                       (initial (JInt l))) !! "hatO"%string
              = Some {| value := defaultPadGain "hatO"; events := [] |}).
      now rewrite initAudio_gains.
    - split; [reflexivity|]. split; [intros x []|reflexivity]. }
  destruct (H _ t0 0%nat (ready_prepared b l) eq_refl H0 Hinc)
    as (s' & t' & H1 & g & Hg & Hv & _ & Hn).
  exists s', g. repeat split; assumption.
Qed.

(** X14.  [initAudio] creates one gain for each of the ten pads, at the
    level [defaultPadGain] gives for it (between 0.5 and 0.9), no gain for
    any other id, and no buffer yet; a second call finds the context and
    changes nothing.  The fallback 0.7 of [defaultPadGain] is what an id
    gets that is neither in the table nor the name of an inherited
    member; [initAudio] does not use it. *)
Theorem initAudio_creates_one_gain_per_pad :
  forall (latency : jsint) (pad : string),
    let s := initAudio (AudioBuffer := AudioBuffer) (initial latency) in
    ctx s = true
    /\ buffers s = ∅
    /\ gains s !! pad
       = (if is_pad pad
          then Some {| value := defaultPadGain pad; events := [] |}
          else None)
    /\ (if is_pad pad
        then 5 # 10 <= defaultPadGain pad <= 9 # 10
        else inherited pad = false -> defaultPadGain pad = 7 # 10)
    /\ initAudio s = s.
Proof.
  intros latency pad s. split; [reflexivity|]. split; [reflexivity|].
  split; [apply initAudio_gains|]. split; [|reflexivity].
  unfold is_pad, Trigger.PADS, defaultPadGain. simpl.
  repeat match goal with
         | |- context [String.eqb pad ?x] => destruct (String.eqb pad x)
         end; simpl; try reflexivity; try (intros _; reflexivity);
    split; Lqa.lra.
Qed.

End TriggerRuns.

Lemma triggers_return_unless_a_start_time_is_negative_witness :
  (exists s',
      Pads.run [Pads.PlayPad "snare" 1 6; Pads.KitBtnClick;
                Pads.PlayPad "hatC" 1 7]
        (Trigger.ready tt (JInt (-5000))) = Normal s'
      /\ List.length (Trigger.playing s') = 2%nat)
  /\ (exists s',
        Trigger.playPad "snare" 1 2 (Trigger.ready tt (JInt (-5000)))
        = Throw RangeError s'
        /\ Trigger.playing s' = []).
Proof.
  destruct (triggers_return_unless_a_start_time_is_negative tt (-5000))
    as [H1 H2].
  split.
  - destruct (H1 [Pads.PlayPad "snare" 1 6; Pads.KitBtnClick;
                  Pads.PlayPad "hatC" 1 7] eq_refl)
      as (s' & Hrun & _ & Hn).
    exists s'. split; [exact Hrun|exact Hn].
  - destruct (H2 (Trigger.ready tt (JInt (-5000))) "snare"%string 1%Q 2%Q
                (ready_prepared tt (-5000)) eq_refl eq_refl eq_refl)
      as (s' & Hthrow & Hp).
    exists s'. split; [exact Hthrow|exact Hp].
Defined.

Lemma unparsable_stored_latency_breaks_every_trigger_witness :
  exists s',
    Trigger.playPad "snare" (9 # 10) 2
      (Trigger.ready tt
         (Settings.latencyMs (Settings.load (<["latencyMs" := "abc"]> ∅))))
    = Throw TypeError s'
    /\ Trigger.playing s' = [].
Proof.
  assert (E : Settings.latencyMs
                (Settings.load (<["latencyMs" := "abc"]> ∅)) = JNaN)
    by reflexivity.
  destruct (unparsable_stored_latency_breaks_every_trigger tt
              (<["latencyMs" := "abc"]> ∅) "snare" (9 # 10) 2
              E eq_refl) as (s' & H1 & H2 & _).
  exists s'. split; [exact H1|exact H2].
Defined.

Lemma choke_events_accumulate_witness :
  exists s' g,
    Pads.run [Pads.PlayPad "hatC" 1 1; Pads.PlayPad "hatP" 1 (101 # 100);
              Pads.FireChokeRestore (103 # 100)]
      (Trigger.ready tt (JInt 0)) = Normal s'
    /\ Trigger.gains s' !! "hatO"%string = Some g
    /\ (List.length (Trigger.events g) + List.length (Trigger.timers s')
        = 4)%nat.
Proof.
  destruct (choke_events_accumulate tt 0 0
              [Pads.PlayPad "hatC" 1 1; Pads.PlayPad "hatP" 1 (101 # 100);
               Pads.FireChokeRestore (103 # 100)] eq_refl eq_refl)
    as (s' & g & H1 & H2 & _ & H3).
  exists s', g. split; [exact H1|]. split; [exact H2|exact H3].
Defined.

(** ** Pads: velocity, long press and keyboard *)

Section PadFacts.
Import Trigger Pads.
Local Open Scope Q_scope.

Context {AudioBuffer : Type}.

Lemma Qle_bool_false (a b : Q) : Qle_bool a b = false -> b < a.
Proof.
  intros H. apply Qnot_le_lt. intros Hle.
  apply Qle_bool_iff in Hle. congruence.
Qed.

(** X15.  The velocity of a press is always between 0.5 and 1.2.  A
    press without a force reading (force 0) gets 0.9; with a force it gets
    [0.5 + 0.8 * force], capped at 1.2 from a force of 0.875 on.  So the
    lightest measurable touch (velocity just above 0.5) is softer than a
    press on a device that reports no force at all. *)
Theorem velocity_of_a_press_stays_in_range :
  forall force : Q,
    (5 # 10 <= vFromForce force <= 12 # 10)
    /\ (force == 0 -> vFromForce force = 9 # 10)
    /\ (0 < force -> force <= 7 # 8 ->
        vFromForce force == (5 # 10) + force * (8 # 10))
    /\ (7 # 8 <= force -> vFromForce force == 12 # 10)
    /\ (force < 0 -> vFromForce force == 5 # 10)
    /\ (0 < force -> force < 1 # 2 -> vFromForce force < vFromForce 0).
Proof.
  intros force.
  assert (H0 : vFromForce 0 = 9 # 10) by reflexivity.
  rewrite H0. clear H0.
  unfold vFromForce, clamp, Math_max, Math_min.
  destruct (Qeq_bool force 0) eqn:E0.
  - apply Qeq_bool_iff in E0.
    repeat split; try Lqa.lra; intros; Lqa.lra.
  - apply Qeq_bool_neq in E0.
    destruct (Qle_bool (12 # 10) ((5 # 10) + force * (8 # 10))) eqn:E1;
      [apply Qle_bool_iff in E1|apply Qle_bool_false in E1].
    + destruct (Qle_bool (5 # 10) (12 # 10)) eqn:E2; [|discriminate].
      repeat split; try Lqa.lra; intros; try Lqa.lra;
        try (now destruct E0).
    + destruct (Qle_bool (5 # 10) ((5 # 10) + force * (8 # 10))) eqn:E2;
        [apply Qle_bool_iff in E2|apply Qle_bool_false in E2];
        repeat split; try Lqa.lra; intros; try Lqa.lra;
        try (now destruct E0).
Qed.

Lemma clearTimeout_fresh n l :
  Forall (fun i => (i < n)%nat) l -> clearTimeout n l = l.
Proof.
  intros H. apply filter_all. intros x Hx.
  rewrite List.Forall_forall in H. specialize (H x Hx).
  apply negb_true_iff. apply Nat.eqb_neq. lia.
Qed.

Lemma clearTimeout_last n l :
  Forall (fun i => (i < n)%nat) l -> clearTimeout n (l ++ [n]) = l.
Proof.
  intros H. unfold clearTimeout. rewrite List.filter_app. simpl.
  rewrite Nat.eqb_refl. simpl. rewrite app_nil_r.
  now apply clearTimeout_fresh.
Qed.

Lemma existsb_last n l : List.existsb (Nat.eqb n) (l ++ [n]) = true.
Proof.
  rewrite List.existsb_app. simpl. rewrite Nat.eqb_refl.
  now rewrite orb_true_r.
Qed.

Lemma playPad_hit pad velocity now (s : State AudioBuffer) (l : Z) :
  prepared s -> latencyMs s = JInt l -> is_pad pad = true ->
  0 <= now + inject_Z l / 1000 ->
  exists s',
    playPad pad velocity now s = Normal s' /\ prepared s'
    /\ latencyMs s' = JInt l
    /\ hits s' = hits s ++ [(pad, velocity, now + inject_Z l / 1000)].
Proof.
  intros Hs Hl Hp Hw.
  destruct (playPad_prepared pad velocity now s l Hs Hl (fun _ => Hw))
    as (s' & H1 & H2 & _ & _ & Hl' & _ & Hyes).
  destruct (Hyes Hp) as (k & buf & _ & _ & Hpl).
  exists s'. split; [exact H1|]. split; [exact H2|].
  split; [congruence|].
  unfold hits. rewrite Hpl, List.map_app. reflexivity.
Qed.

(** X16.  A press on one of the ten pads, once the kits are ready, with
    a stored latency [l] for which none of the three start times
    [t + l / 1000] is negative (a negative start time makes [start] of
    the source throw).  [start] plays the pad at the velocity of the force
    and arms the long-press timeout.  If the pad is released before the
    timeout fires, [end] clears it and plays nothing more.  If the timeout
    has fired, [end] plays the pad again at 1.2, the accent.  [end] does
    not reset [isLong]: after a long press a second [end] without a
    [start] in between (the handler is registered for [touchend] and for
    [pointerup]) plays the accent once more. *)
Theorem long_press_adds_an_accent :
  forall (s : State AudioBuffer) (p : Press) (pad : string) (l : Z)
         (force t1 t2 t3 : Q),
    prepared s -> latencyMs s = JInt l -> is_pad pad = true ->
    0 <= t1 + inject_Z l / 1000 ->
    0 <= t2 + inject_Z l / 1000 ->
    0 <= t3 + inject_Z l / 1000 ->
    Forall (fun i => (i < nextId p)%nat) (pending p) ->
    exists p1 s1,
      start pad force t1 p s = Normal (p1, s1)
      /\ hits s1 = hits s ++ [(pad, vFromForce force, t1 + inject_Z l / 1000)]
      /\ active p1 = true /\ isLong p1 = false
      /\ pending p1 = pending p ++ [pressTimer p1]
      /\ (exists p2,
            end_ pad t2 p1 s1 = Normal (p2, s1)
            /\ active p2 = false /\ isLong p2 = false
            /\ pending p2 = pending p)
      /\ (exists p2 s2 p3 s3,
            end_ pad t2 (fire_longPress (pressTimer p1) p1) s1
            = Normal (p2, s2)
            /\ hits s2 = hits s1 ++ [(pad, 12 # 10, t2 + inject_Z l / 1000)]
            /\ active p2 = false /\ isLong p2 = true
            /\ pending p2 = pending p
            /\ end_ pad t3 p2 s2 = Normal (p3, s3)
            /\ hits s3 = hits s2 ++ [(pad, 12 # 10, t3 + inject_Z l / 1000)]).
Proof.
  intros s p pad l force t1 t2 t3 Hs Hl Hp Hw1 Hw2 Hw3 Hfresh.
  destruct (playPad_hit pad (vFromForce force) t1 s l Hs Hl Hp Hw1)
    as (s1 & H1 & Hs1 & Hl1 & Hh1).
  eexists. exists s1.
  split; [unfold start; rewrite H1; reflexivity|].
  split; [exact Hh1|].
  split; [reflexivity|]. split; [reflexivity|]. split; [reflexivity|].
  split.
  - eexists. unfold end_. cbn [isLong pressTimer pending active nextId].
    split; [reflexivity|]. cbn [isLong pressTimer pending active nextId].
    split; [reflexivity|]. split; [reflexivity|].
    now apply clearTimeout_last.
  - destruct (playPad_hit pad (12 # 10) t2 s1 l Hs1 Hl1 Hp Hw2)
      as (s2 & H2 & Hs2 & Hl2 & Hh2).
    destruct (playPad_hit pad (12 # 10) t3 s2 l Hs2 Hl2 Hp Hw3)
      as (s3 & H3 & Hs3 & _ & Hh3).
    unfold fire_longPress. cbn [isLong pressTimer pending active nextId].
    rewrite existsb_last, clearTimeout_last by exact Hfresh.
    eexists. exists s2. eexists. exists s3.
    unfold end_ at 1. cbn [isLong pressTimer pending active nextId].
    rewrite H2. split; [reflexivity|]. split; [exact Hh2|].
    cbn [isLong pressTimer pending active nextId].
    split; [reflexivity|]. split; [reflexivity|].
    split; [now apply clearTimeout_fresh|].
    unfold end_. cbn [isLong pressTimer pending active nextId].
    rewrite H3. split; [reflexivity|exact Hh3].
Qed.

(** X17.  The keyboard.  The two tables of pads agree, and no two pads
    share a key.  A key press whose key, up to the case of letters, is
    the key of a pad triggers that pad at velocity 1, whichever case was
    typed; any other key does nothing. *)
Theorem keydown_triggers_the_pad_of_the_key :
  forall (k : string) (now : Q) (s : State AudioBuffer),
    is_ascii k = true ->
    List.map id Pads.PADS = Trigger.PADS
    /\ (forall p, In p Pads.PADS ->
          toLowerCase k = toLowerCase (key p) ->
          keydown k now s = playPad (id p) 1 now s)
    /\ ((forall p, In p Pads.PADS ->
           toLowerCase k <> toLowerCase (key p)) ->
        keydown k now s = Normal s)
    /\ (forall p, In p Pads.PADS ->
          find_pad (key p) = Some p
          /\ find_pad (toLowerCase (key p)) = Some p).
Proof.
  intros k now s _. split; [reflexivity|]. split; [|split].
  - intros p Hin Hk. unfold keydown, find_pad. rewrite Hk.
    simpl in Hin.
    repeat (destruct Hin as [<- | Hin]; [reflexivity|]). destruct Hin.
  - intros Hnone. unfold keydown, find_pad.
    destruct (List.find _ Pads.PADS) as [p|] eqn:E; [|reflexivity].
    apply List.find_some in E. destruct E as [Hin E].
    apply String.eqb_eq in E. destruct (Hnone p Hin). congruence.
  - intros p Hin. simpl in Hin.
    repeat (destruct Hin as [<- | Hin]; [split; reflexivity|]). destruct Hin.
Qed.

End PadFacts.

Lemma long_press_adds_an_accent_witness :
  exists p1 s1,
    Pads.start "snare" 0 1 Pads.Press_initial (Trigger.ready tt (JInt 20))
    = Normal (p1, s1)
    /\ Pads.hits s1 = [("snare"%string, Pads.vFromForce 0,
                        (1 + inject_Z 20 / 1000)%Q)].
Proof.
  assert (W1 : (0 <= 1 + inject_Z 20 / 1000)%Q) by (vm_compute; discriminate).
  assert (W2 : (0 <= 2 + inject_Z 20 / 1000)%Q) by (vm_compute; discriminate).
  assert (W3 : (0 <= 3 + inject_Z 20 / 1000)%Q) by (vm_compute; discriminate).
  destruct (long_press_adds_an_accent (Trigger.ready tt (JInt 20))
              Pads.Press_initial "snare" 20 0 1 2 3
              (ready_prepared tt 20) eq_refl eq_refl W1 W2 W3
              (List.Forall_nil _))
    as (p1 & s1 & H1 & H2 & _).
  exists p1, s1. split; [exact H1|exact H2].
Defined.

Lemma keydown_triggers_the_pad_of_the_key_witness :
  Pads.keydown "k" 1 (Trigger.ready tt (JInt 0))
  = Trigger.playPad "kick" 1 1 (Trigger.ready tt (JInt 0)).
Proof.
  destruct (keydown_triggers_the_pad_of_the_key "k" 1
              (Trigger.ready tt (JInt 0)) eq_refl) as (_ & H & _).
  apply (H (Pads.mkPad "kick" "Kick" "K")); [now left|reflexivity].
Defined.

(** ** Master level *)

Section MasterFacts.
Import Master.
Local Open Scope Q_scope.

Lemma master_run es : forall s,
  master s = (if ctx s then Some (masterGain s) else None) ->
  let s' := run es s in
  masterGain s' = last_input (masterGain s) es
  /\ ctx s'
     = ctx s
       || List.existsb
            (fun e => match e with InitAudio => true | _ => false end) es
  /\ master s' = (if ctx s' then Some (masterGain s') else None).
Proof.
  induction es as [|e es IH]; intros s Hs; simpl.
  - rewrite orb_false_r. auto.
  - destruct e as [|v]; simpl.
    + unfold initAudio. destruct (ctx s) eqn:E.
      * destruct (IH s) as (H1 & H2 & H3); [now rewrite E|].
        rewrite E in H2. simpl in H2. auto.
      * match goal with |- context [run es ?x] =>
          destruct (IH x) as (H1 & H2 & H3); [reflexivity|] end.
        simpl in H1, H2. rewrite orb_true_r. auto.
    + match goal with |- context [run es ?x] =>
        destruct (IH x) as (H1 & H2 & H3) end.
      { simpl. rewrite Hs. now destruct (ctx s). }
      simpl in H1, H2. auto.
Qed.

(** X18.  The master gain node always carries [state.masterGain]: after
    any sequence of slider moves and calls of [initAudio], the level in
    the state is the last slider value (0.9 when the slider was never
    moved), the node exists exactly if [initAudio] was called, and its
    gain is that level, also when the slider was moved before the audio
    was unlocked. *)
Theorem master_node_carries_the_last_slider_value :
  forall es : list Event,
    let s := run es initial in
    let unlocked :=
      List.existsb
        (fun e => match e with InitAudio => true | _ => false end) es in
    masterGain s = last_input (9 # 10) es
    /\ ctx s = unlocked
    /\ master s
       = (if unlocked then Some (last_input (9 # 10) es) else None).
Proof.
  intros es s unlocked.
  destruct (master_run es initial eq_refl) as (H1 & H2 & H3).
  fold s in H1, H2, H3. simpl in H1, H2. fold unlocked in H2.
  split; [exact H1|]. split; [exact H2|]. now rewrite H3, H2, H1.
Qed.

End MasterFacts.

(** ** Soft-clip table for any drive *)

Section SoftClipAnyDrive.
Import SoftClip.
Local Open Scope R_scope.

Lemma curve_drive_opp amount x : curve (- amount) x = curve amount x.
Proof.
  unfold curve.
  replace (- amount * 2 * x) with (- (amount * 2 * x)) by lra.
  replace (- amount * 2) with (- (amount * 2)) by lra.
  rewrite !tanh_opp.
  destruct (Req_dec (tanh (amount * 2)) 0) as [H|H].
  - rewrite H. unfold Rdiv. rewrite Ropp_0, Rinv_0. lra.
  - field. exact H.
Qed.

Lemma curve_abs amount x : amount <> 0 -> curve amount x = curve (Rabs amount) x.
Proof.
  intros _. unfold Rabs. destruct (Rcase_abs amount); [|reflexivity].
  now rewrite curve_drive_opp.
Qed.

(** X19.  [makeSoftClipCurve] for any drive other than 0: the table has
    1024 entries, never decreases, runs from exactly -1 to exactly 1, is
    odd about its middle and stays within [[-1, 1]]; the sign of the
    drive makes no difference.  (For a drive of 0 the source divides 0 by
    0.) *)
Theorem soft_clip_table_for_any_drive :
  forall amount : R,
    amount <> 0 ->
    List.length (makeSoftClipCurve amount) = 1024%nat
    /\ (forall i j, (i <= j)%nat -> (j < 1024)%nat ->
          nth i (makeSoftClipCurve amount) 0
          <= nth j (makeSoftClipCurve amount) 0)
    /\ nth 0 (makeSoftClipCurve amount) 0 = -1
    /\ nth 1023 (makeSoftClipCurve amount) 0 = 1
    /\ (forall i, (i < 1024)%nat ->
          nth (1023 - i) (makeSoftClipCurve amount) 0
          = - nth i (makeSoftClipCurve amount) 0)
    /\ (forall i, (i < 1024)%nat ->
          -1 <= nth i (makeSoftClipCurve amount) 0 <= 1)
    /\ makeSoftClipCurve (- amount) = makeSoftClipCurve amount.
Proof.
  intros amount Ha.
  assert (Hpos : 0 < Rabs amount) by now apply Rabs_pos_lt.
  assert (H0 : table_input 1024 0 = -1)
    by (rewrite table_input_1024; simpl; lra).
  assert (H1 : table_input 1024 1023 = 1).
  { rewrite table_input_1024.
    replace (INR 1023) with 1023 by (rewrite INR_IZR_INZ; reflexivity).
    lra. }
  assert (Hmono : forall i j, (i <= j)%nat -> (j < 1024)%nat ->
            nth i (makeSoftClipCurve amount) 0
            <= nth j (makeSoftClipCurve amount) 0).
  { intros i j Hij Hj. rewrite !makeSoftClipCurve_nth by lia.
    rewrite !(curve_abs amount) by exact Ha.
    apply curve_le; [exact Hpos|]. now apply table_input_le. }
  assert (Hfirst : nth 0 (makeSoftClipCurve amount) 0 = -1).
  { rewrite makeSoftClipCurve_nth by lia. rewrite H0.
    rewrite (curve_abs amount) by exact Ha.
    replace (-1) with (- (1)) by lra.
    rewrite curve_opp, curve_1; [lra|exact Hpos]. }
  assert (Hlast : nth 1023 (makeSoftClipCurve amount) 0 = 1).
  { rewrite makeSoftClipCurve_nth by lia. rewrite H1.
    rewrite (curve_abs amount) by exact Ha. now apply curve_1. }
  split; [|split; [|split; [|split; [|split; [|split]]]]].
  - unfold makeSoftClipCurve.
    now rewrite List.length_map, List.length_seq.
  - exact Hmono.
  - exact Hfirst.
  - exact Hlast.
  - intros i Hi. rewrite !makeSoftClipCurve_nth by lia.
    rewrite table_input_mirror by lia. apply curve_opp.
  - intros i Hi. rewrite <- Hfirst, <- Hlast. split; apply Hmono; lia.
  - unfold makeSoftClipCurve. apply List.map_ext. intros i.
    apply curve_drive_opp.
Qed.

End SoftClipAnyDrive.

Lemma soft_clip_table_for_any_drive_witness :
  nth 1023 (SoftClip.makeSoftClipCurve (-2)) 0%R = 1%R.
Proof.
  destruct (soft_clip_table_for_any_drive (-2)%R) as (_ & _ & _ & H & _).
  - lra.
  - exact H.
Defined.

(** ** Synthesis: the pass at the end of [renderToBuffer], and the kit *)

Section SynthKitFacts.
Import Synth.
Local Open Scope R_scope.

Lemma dc_filter_constant c : forall n y i,
  (i < n)%nat ->
  nth_error (dc_filter (List.repeat c n) c y) i
  = Some (y * (995 / 1000) ^ S i).
Proof.
  induction n as [|n IH]; intros y i Hi; [lia|].
  simpl List.repeat. cbn [dc_filter]. destruct i as [|i].
  - simpl. f_equal. lra.
  - cbn [nth_error]. rewrite IH by lia. f_equal. simpl. lra.
Qed.

(** X20.  The pass at the end of [renderToBuffer] removes a constant
    level: when the render function fills the buffer with the constant
    [c], sample [i] of the result is [c * 0.995 ^ i], which starts at [c]
    and decays towards 0. *)
Theorem renderToBuffer_removes_a_constant_level :
  forall (sr : Z) (seconds : Q) (c : R) (i : nat),
    (i < Z.to_nat (Math_round (seconds * inject_Z sr)))%nat ->
    nth_error
      (channelData
         (renderToBuffer sr seconds (fun len _ => List.repeat c len))) i
    = Some (c * (995 / 1000) ^ i)
    /\ Rabs (c * (995 / 1000) ^ i) <= Rabs c.
Proof.
  intros sr seconds c i Hi. unfold renderToBuffer. cbn [channelData].
  set (n := Z.to_nat (Math_round (seconds * inject_Z sr))) in *.
  split.
  - destruct n as [|n]; [lia|]. simpl List.repeat. cbn [dc_filter].
    destruct i as [|i].
    + simpl. f_equal. lra.
    + cbn [nth_error]. rewrite dc_filter_constant by lia.
      f_equal. simpl. lra.
  - rewrite Rabs_mult.
    assert (Hq : 0 <= (995 / 1000) ^ i <= 1).
    { split; [apply pow_le; lra|].
      rewrite <- (pow1 i). apply pow_incr. lra. }
    rewrite (Rabs_right ((995 / 1000) ^ i)) by lra.
    pose proof (Rabs_pos c). nra.
Qed.

Lemma synthKit_lookup {A} (f : Voice -> A) (pad : string) :
  (list_to_map (List.map (fun v => (pad_id v, f v)) voices) : gmap string A)
  !! pad
  = if String.eqb pad "kick" then Some (f kick)
    else if String.eqb pad "snare" then Some (f snare)
    else if String.eqb pad "hatC" then Some (f hatC)
    else if String.eqb pad "hatO" then Some (f hatO)
    else if String.eqb pad "hatP" then Some (f hatP)
    else if String.eqb pad "tom1" then Some (f tom1)
    else if String.eqb pad "tom2" then Some (f tom2)
    else if String.eqb pad "tom3" then Some (f tom3)
    else if String.eqb pad "crash" then Some (f crash_)
    else if String.eqb pad "ride" then Some (f ride_)
    else None.
Proof.
  unfold voices. cbn [List.map pad_id].
  rewrite !list_to_map_cons, list_to_map_nil. cbn [fst snd].
  repeat match goal with
         | |- context [String.eqb pad ?x] =>
             let E := fresh in
             destruct (String.eqb pad x) eqn:E;
             [apply String.eqb_eq in E; rewrite E; apply lookup_insert_eq
             |apply String.eqb_neq in E; rewrite lookup_insert_ne by congruence]
         end.
  apply lookup_empty.
Qed.

Lemma synthKit_domain rnd flavor pad :
  is_Some (synthKit rnd sample_rate flavor !! pad) <-> Pads.is_pad pad = true.
Proof.
  unfold synthKit. rewrite synthKit_lookup.
  unfold Pads.is_pad, Trigger.PADS. cbn [List.existsb].
  repeat match goal with
         | |- context [String.eqb pad ?x] => destruct (String.eqb pad x)
         end; simpl; split; intros H; try reflexivity; try discriminate;
    eauto; destruct H; discriminate.
Qed.

Lemma synthKit_voice rnd flavor v :
  synthKit rnd sample_rate flavor !! pad_id v
  = Some (make (rnd v) sample_rate flavor v).
Proof.
  unfold synthKit.
  rewrite (synthKit_lookup (fun v => make (rnd v) sample_rate flavor v)).
  now destruct v.
Qed.

Lemma initAudio_done_prepared rnd_rock rnd_jazz (l : Z) :
  Pads.prepared (Engine.initAudio_done rnd_rock rnd_jazz (JInt l)).
Proof.
  split; [reflexivity|]. split; [now left|]. split; [|split].
  - intros flavor [-> | ->].
    + exists (synthKit rnd_rock sample_rate "rock").
      split; [reflexivity|]. intros pad. apply synthKit_domain.
    + exists (synthKit rnd_jazz sample_rate "jazz").
      split; [reflexivity|]. intros pad. apply synthKit_domain.
  - intros pad Hp. unfold Engine.initAudio_done. simpl Trigger.gains.
    change (is_Some (Trigger.gains
                       (Trigger.initAudio (AudioBuffer := AudioBuffer)
                          (Trigger.initial (JInt l))) !! pad)).
    rewrite initAudio_gains, Hp. eauto.
  - exists l. reflexivity.
Qed.

(** X21.  The whole path from synthesis to a trigger.  When [initAudio]
    has run to its end and the start time, the clock reading plus the
    latency, is not negative (a negative one makes [start] throw), a
    trigger of any of the ten pads returns and starts exactly one source:
    on the buffer synthesised for that voice in the rock flavor, or in
    the jazz flavor after one click on the kit button; the buffer has the
    length of the voice's duration at 44100 Hz, the source goes to the
    gain of the pad at the given velocity and starts at the clock reading
    plus the latency. *)
Theorem a_trigger_plays_the_buffer_synthesised_for_its_pad :
  forall (rnd_rock rnd_jazz : Voice -> nat -> R) (l : Z) (v : Voice)
         (velocity now : Q),
    (0 <= now + inject_Z l / 1000)%Q ->
    let s := Engine.initAudio_done rnd_rock rnd_jazz (JInt l) in
    let played (flavor : string) (rnd : Voice -> nat -> R) :=
      {| Trigger.buffer := make (rnd v) sample_rate flavor v;
         Trigger.vca := velocity;
         Trigger.destination := pad_id v;
         Trigger.when := (now + inject_Z l / 1000)%Q |} in
    (exists s',
        Trigger.playPad (pad_id v) velocity now s = Normal s'
        /\ Trigger.playing s' = [played "rock"%string rnd_rock])
    /\ (exists s',
          Trigger.playPad (pad_id v) velocity now (Trigger.kitBtn_click s)
          = Normal s'
          /\ Trigger.playing s' = [played "jazz"%string rnd_jazz])
    /\ (forall flavor rnd,
          List.length (channelData (Trigger.buffer (played flavor rnd)))
          = Z.to_nat (Math_round (duration v * inject_Z sample_rate))).
Proof.
  intros rnd_rock rnd_jazz l v velocity now Hw s played.
  assert (Hpad : Pads.is_pad (pad_id v) = true) by now destruct v.
  assert (Hs : Pads.prepared s) by apply initAudio_done_prepared.
  split; [|split].
  - destruct (playPad_prepared (pad_id v) velocity now s l Hs eq_refl
                (fun _ => Hw))
      as (s' & H1 & _ & _ & _ & _ & _ & Hyes).
    destruct (Hyes Hpad) as (k & buf & Hk & Hbuf & Hpl).
    exists s'. split; [exact H1|]. rewrite Hpl.
    change (Trigger.buffers s !! Trigger.kit s)
      with (Some (synthKit rnd_rock sample_rate "rock")) in Hk.
    injection Hk as <-. rewrite synthKit_voice in Hbuf.
    injection Hbuf as <-. reflexivity.
  - assert (Hs2 : Pads.prepared (Trigger.kitBtn_click s))
      by now apply kitBtn_click_prepared.
    destruct (playPad_prepared (pad_id v) velocity now _ l Hs2 eq_refl
                (fun _ => Hw))
      as (s' & H1 & _ & _ & _ & _ & _ & Hyes).
    destruct (Hyes Hpad) as (k & buf & Hk & Hbuf & Hpl).
    exists s'. split; [exact H1|]. rewrite Hpl.
    change (Trigger.buffers (Trigger.kitBtn_click s)
              !! Trigger.kit (Trigger.kitBtn_click s))
      with (Some (synthKit rnd_jazz sample_rate "jazz")) in Hk.
    injection Hk as <-. rewrite synthKit_voice in Hbuf.
    injection Hbuf as <-. reflexivity.
  - intros flavor rnd. cbn [Trigger.buffer played]. apply make_length.
Qed.

End SynthKitFacts.

Lemma a_trigger_plays_the_buffer_synthesised_for_its_pad_witness :
  exists s',
    Trigger.playPad "snare" (9 # 10) 2
      (Engine.initAudio_done (fun _ _ => 0%R) (fun _ _ => 0%R) (JInt 20))
    = Normal s'
    /\ List.map Trigger.when (Trigger.playing s')
       = [(2 + inject_Z 20 / 1000)%Q].
Proof.
  assert (W : (0 <= 2 + inject_Z 20 / 1000)%Q) by (vm_compute; discriminate).
  destruct (a_trigger_plays_the_buffer_synthesised_for_its_pad
              (fun _ _ => 0%R) (fun _ _ => 0%R) 20 Synth.snare (9 # 10) 2 W)
    as ((s' & H1 & H2) & _).
  exists s'. split; [exact H1|]. rewrite H2. reflexivity.
Defined.

Lemma renderToBuffer_removes_a_constant_level_witness :
  nth_error
    (Synth.channelData
       (Synth.renderToBuffer 10 (1 # 2) (fun len _ => List.repeat 1%R len))) 3
  = Some (1 * (995 / 1000) ^ 3)%R.
Proof.
  destruct (renderToBuffer_removes_a_constant_level 10 (1 # 2) 1%R 3)
    as [H _].
  - vm_compute. lia.
  - exact H.
Defined.
